(** * Oracle driver of atlas: type conversion, connection set-up and inspection

    A shallow embedding of [sql/oracle/convert.go], [sql/oracle/driver.go] and
    of the inspection code of the package (the [inspect] methods), followed by
    the properties of the specification that were checked against it.

    Conventions of the embedding.
    - A Go [string] is a [string] of bytes; [len] is [String.length].
    - Go's [int] and [int64] are both 64 bits wide (amd64, arm64), so the
      conversions [int(c.size)] are the identity; integers are values of [Z].
    - A function that returns [(T, error)] returns a [result T]; a run-time
      panic (index or slice bounds out of range) is the third outcome [Panic].
    - Pointers that are shared and written through (an index held by the
      table, by the grouping map and by the columns it covers) are positions
      in a store kept in the table. *)

From Stdlib Require Import ZArith String Ascii List Bool Lia.
From stdpp Require Import base option list strings gmap.

Import ListNotations.
Local Open Scope string_scope.
Local Open Scope list_scope.
Local Open Scope Z_scope.

(** ** The parts of Go's standard library that the package calls *)

Module GoStrings.

(** [strings.HasPrefix]. *)
Definition HasPrefix (s prefix : string) : bool := String.prefix prefix s.

(** [strings.Index]: the position of the first occurrence of [substr]. *)
Definition Index (s substr : string) : option nat := String.index 0 substr s.

(** [strings.Join]. *)
Definition Join (elems : list string) (sep : string) : string :=
  String.concat sep elems.

(** [strings.FieldsFunc]: the maximal runs of bytes on which [f] is false.
    [cur] is the field being read, [None] between two fields. *)
Fixpoint fields_from (f : ascii -> bool) (s : string) (cur : option string)
  : list string :=
  match s with
  | EmptyString => match cur with Some w => [w] | None => [] end
  | String c s' =>
      if f c then
        match cur with
        | Some w => w :: fields_from f s' None
        | None => fields_from f s' None
        end
      else
        fields_from f s'
          (Some (match cur with Some w => w +:+ String c "" | None => String c "" end))
  end.

Definition FieldsFunc (s : string) (f : ascii -> bool) : list string :=
  fields_from f s None.

(** [strings.ToLower] on ASCII text: the letters A to Z are mapped to a to z.
    Every type name of the package is ASCII. On a text with a byte from 128
    on Go maps the code points by the Unicode tables, which are not
    embedded: there this function leaves those bytes alone and is not
    Go's, and a property that reads its value is stated for ASCII text
    ([all_bytes is_ascii]). *)
Definition lower_byte (c : ascii) : ascii :=
  let n := nat_of_ascii c in
  if ((65 <=? n) && (n <=? 90))%nat then ascii_of_nat (n + 32) else c.

Fixpoint ToLower (s : string) : string :=
  match s with
  | EmptyString => EmptyString
  | String c s' => String (lower_byte c) (ToLower s')
  end.

(** The slice expression [s[lo:hi]]; [None] is the bounds panic. *)
Definition slice (s : string) (lo hi : Z) : option string :=
  if ((0 <=? lo) && (lo <=? hi) && (hi <=? Z.of_nat (String.length s)))%Z
  then Some (String.substring (Z.to_nat lo) (Z.to_nat (hi - lo)) s)
  else None.

End GoStrings.

Module Strconv.

Inductive NumErr := ErrSyntax | ErrRange.

Definition digit_of_byte (c : ascii) : option Z :=
  let n := Z.of_nat (nat_of_ascii c) in
  if ((48 <=? n) && (n <=? 57))%Z then Some (n - 48) else None.

Definition byte_of_digit (d : Z) : ascii := ascii_of_nat (Z.to_nat (48 + d)).

(** The bounds of [strconv.ParseUint] for base 10 and 64 bits: [maxVal], and
    the smallest number whose product by 10 leaves 64 bits. *)
Definition maxUint64 : Z := 2 ^ 64 - 1.

Definition uint_cutoff : Z := maxUint64 / 10 + 1.

(** The digit loop of [strconv.ParseUint] in base 10, [n] being the value
    read so far. A byte that is no digit is a syntax error. A step that
    leaves 64 bits is a range error, returned at once: the bytes that follow
    are not read. The sum [n*10 + d] is made in 64 bits, and the loop sees
    that it wrapped around by [n1 < n]. *)
Fixpoint parse_digits (s : string) (n : Z) : Z + NumErr :=
  match s with
  | EmptyString => inl n
  | String c s' =>
      match digit_of_byte c with
      | None => inr ErrSyntax
      | Some d =>
          if (uint_cutoff <=? n)%Z then inr ErrRange
          else
            let n := (n * 10)%Z in
            let n1 := ((n + d) mod 2 ^ 64)%Z in
            if (n1 <? n)%Z || (maxUint64 <? n1)%Z then inr ErrRange
            else parse_digits s' n1
      end
  end.

(** [strconv.ParseUint(s, 10, 64)]: the empty text is a syntax error. *)
Definition ParseUint (s : string) : Z + NumErr :=
  match s with
  | EmptyString => inr ErrSyntax
  | _ => parse_digits s 0
  end.

(** [strconv.ParseInt(s, 10, 64)]: an optional sign, then [ParseUint]. *)
Definition ParseInt (s : string) : Z + NumErr :=
  match s with
  | EmptyString => inr ErrSyntax
  | String c s' =>
      let neg := Ascii.eqb c "-" in
      let body := if Ascii.eqb c "+" || neg then s' else s in
      match ParseUint body with
      | inr e => inr e
      | inl un =>
          let cutoff := 2 ^ 63 in
          if negb neg && (cutoff <=? un)%Z then inr ErrRange
          else if neg && (cutoff <? un)%Z then inr ErrRange
          else inl (if neg then - un else un)
      end
  end.

(** The loop of [strconv.FormatInt(i, 10)] (what the verb [%d] prints):
    digits are produced from the least significant one. *)
Fixpoint format_loop (fuel : nat) (us : Z) (acc : string) : string :=
  match fuel with
  | O => acc
  | S fuel' =>
      if (us <? 10)%Z then String (byte_of_digit us) acc
      else format_loop fuel' (us / 10) (String (byte_of_digit (us mod 10)) acc)
  end.

Definition FormatUint (us : Z) : string :=
  format_loop (S (Z.to_nat (Z.log2 us))) us "".

Definition FormatInt (i : Z) : string :=
  if (i <? 0)%Z then String "-" (FormatUint (- i)) else FormatUint i.

(** [strconv.ParseBool] accepts exactly these spellings. *)
Definition ParseBool (s : string) : option bool :=
  if existsb (String.eqb s) ["1"; "t"; "T"; "TRUE"; "true"; "True"] then Some true
  else if existsb (String.eqb s) ["0"; "f"; "F"; "FALSE"; "false"; "False"] then Some false
  else None.

End Strconv.

(** ** golang.org/x/mod/semver, which [Open] uses to compare versions *)

Module Semver.

Record parsed := {
  major : string; minor : string; patch : string;
  short : string; prerelease : string; build : string }.

Definition is_digit (c : ascii) : bool :=
  let n := nat_of_ascii c in ((48 <=? n) && (n <=? 57))%nat.

Definition isIdentChar (c : ascii) : bool :=
  let n := nat_of_ascii c in
  ((65 <=? n) && (n <=? 90) || (97 <=? n) && (n <=? 122)
   || (48 <=? n) && (n <=? 57) || (n =? 45))%nat.

(** The length of the run of digits at the head of [v]. *)
Fixpoint digit_run (v : string) : nat :=
  match v with
  | String c v' => if is_digit c then S (digit_run v') else O
  | EmptyString => O
  end.

Definition str_take (n : nat) (s : string) : string := String.substring 0 n s.
Definition str_drop (n : nat) (s : string) : string :=
  String.substring n (String.length s - n) s.

(** [parseInt]: a run of digits with no leading zero, and what follows it. *)
Definition parseInt (v : string) : option (string * string) :=
  match v with
  | EmptyString => None
  | String c _ =>
      if negb (is_digit c) then None
      else
        let i := digit_run v in
        if Ascii.eqb c "0" && negb (i =? 1)%nat then None
        else Some (str_take i v, str_drop i v)
  end.

(** [isBadNum]: all digits, more than one, and a leading zero. *)
Definition isBadNum (v : string) : bool :=
  let i := digit_run v in
  ((i =? String.length v) && (1 <? i))%nat
  && match v with String c _ => Ascii.eqb c "0" | EmptyString => false end.

Definition isNum (v : string) : bool := (digit_run v =? String.length v)%nat.

(** The loop shared by [parsePrerelease] and [parseBuild]: it reads dot
    separated identifiers from position [i] on up to the byte [stop] or to
    the end; [start] is where the current identifier begins. The result is
    the position reached, [None] when an identifier is empty, has a byte
    that is not allowed, or ([check_num]) is a number with a leading zero. *)
Fixpoint ident_loop (check_num : bool) (stop : option ascii)
    (v rest : string) (i start : nat) : option nat :=
  let bad :=
    (start =? i)%nat
    || check_num && isBadNum (String.substring start (i - start) v) in
  match rest with
  | EmptyString => if bad then None else Some i
  | String c rest' =>
      if match stop with Some b => Ascii.eqb c b | None => false end
      then (if bad then None else Some i)
      else if negb (isIdentChar c) && negb (Ascii.eqb c ".") then None
      else if Ascii.eqb c "." then
        (if bad then None else ident_loop check_num stop v rest' (S i) (S i))
      else ident_loop check_num stop v rest' (S i) start
  end.

Definition parsePrerelease (v : string) : option (string * string) :=
  match v with
  | String c v' =>
      if negb (Ascii.eqb c "-") then None
      else match ident_loop true (Some "+"%char) v v' 1 1 with
           | Some i => Some (str_take i v, str_drop i v)
           | None => None
           end
  | EmptyString => None
  end.

Definition parseBuild (v : string) : option (string * string) :=
  match v with
  | String c v' =>
      if negb (Ascii.eqb c "+") then None
      else match ident_loop false None v v' 1 1 with
           | Some i => Some (str_take i v, str_drop i v)
           | None => None
           end
  | EmptyString => None
  end.

Definition head_is (c : ascii) (v : string) : bool :=
  match v with String d _ => Ascii.eqb c d | EmptyString => false end.

Definition tail (v : string) : string :=
  match v with String _ v' => v' | EmptyString => EmptyString end.

(** [parse]: [vMAJOR[.MINOR[.PATCH[-PRERELEASE][+BUILD]]]]. *)
Definition parse (v : string) : option parsed :=
  if negb (head_is "v" v) then None else
  match parseInt (tail v) with
  | None => None
  | Some (ma, v) =>
    if String.eqb v "" then Some (Build_parsed ma "0" "0" ".0.0" "" "") else
    if negb (head_is "." v) then None else
    match parseInt (tail v) with
    | None => None
    | Some (mi, v) =>
      if String.eqb v "" then Some (Build_parsed ma mi "0" ".0" "" "") else
      if negb (head_is "." v) then None else
      match parseInt (tail v) with
      | None => None
      | Some (pa, v) =>
        match (if head_is "-" v then parsePrerelease v else Some ("", v)) with
        | None => None
        | Some (pre, v) =>
          match (if head_is "+" v then parseBuild v else Some ("", v)) with
          | None => None
          | Some (bu, v) =>
            if String.eqb v "" then Some (Build_parsed ma mi pa "" pre bu)
            else None
          end
        end
      end
    end
  end.

Definition compareInt (x y : string) : Z :=
  if String.eqb x y then 0
  else if (String.length x <? String.length y)%nat then -1
  else if (String.length y <? String.length x)%nat then 1
  else if String.ltb x y then -1 else 1.

(** [nextIdent]: the identifier up to the next dot, and the rest. *)
Fixpoint nextIdent (x : string) : string * string :=
  match x with
  | EmptyString => (EmptyString, EmptyString)
  | String c x' =>
      if Ascii.eqb c "." then (EmptyString, x)
      else let '(dx, r) := nextIdent x' in (String c dx, r)
  end.

Fixpoint prerelease_loop (fuel : nat) (x y : string) : Z :=
  match fuel with
  | O => if String.eqb x "" then -1 else 1
  | S fuel' =>
      if String.eqb x "" || String.eqb y "" then
        (if String.eqb x "" then -1 else 1)
      else
        let '(dx, x1) := nextIdent (tail x) in
        let '(dy, y1) := nextIdent (tail y) in
        if negb (String.eqb dx dy) then
          let ix := isNum dx in
          let iy := isNum dy in
          if negb (Bool.eqb ix iy) then (if ix then -1 else 1)
          else if ix && (String.length dx <? String.length dy)%nat then -1
          else if ix && (String.length dy <? String.length dx)%nat then 1
          else if String.ltb dx dy then -1 else 1
        else prerelease_loop fuel' x1 y1
  end.

Definition comparePrerelease (x y : string) : Z :=
  if String.eqb x y then 0
  else if String.eqb x "" then 1
  else if String.eqb y "" then -1
  else prerelease_loop (String.length x) x y.

(** [semver.Compare]: an invalid version is less than a valid one, and two
    invalid versions are equal. *)
Definition Compare (v w : string) : Z :=
  match parse v, parse w with
  | None, None => 0
  | None, Some _ => -1
  | Some _, None => 1
  | Some pv, Some pw =>
      let c := compareInt (major pv) (major pw) in
      if negb (c =? 0)%Z then c else
      let c := compareInt (minor pv) (minor pw) in
      if negb (c =? 0)%Z then c else
      let c := compareInt (patch pv) (patch pw) in
      if negb (c =? 0)%Z then c else
      comparePrerelease (prerelease pv) (prerelease pw)
  end.

End Semver.

(** ** Package schema: the types of the schema model that the driver builds *)

Module Schema.

(** Modelled from the spec: package [schema] is not among the source files.
    Its types are declared in this module as the data model of the spec has
    them (a closed set of type variants with their facets, columns, indexes
    with ordered parts, tables that own them), with the fields that the
    driver reads or writes.

    The implementations of [schema.Type] that the package names;
    [OtherType] stands for any other dynamic type (the [nil] interface
    included), named as the verb [%T] prints it. The pointers to these
    structures are never nil. *)
Inductive Type_ : Type :=
| BinaryType (T : string) (Size : Z)
| BoolType (T : string)
| DecimalType (T : string) (Precision Scale : Z)
| FloatType (T : string) (Precision : Z)
| IntegerType (T : string)
| JSONType (T : string)
| SpatialType (T : string)
| StringType (T : string) (Size : Z)
| TimeType (T : string)
| UnsupportedType (T : string)
| UserDefinedType (T : string)
| enumType (T : string) (ID : Z) (Values : list string)
| ArrayType (T : string)
| BitType (T : string) (Len : Z)
| NetworkType (T : string) (Len : Z)
| CurrencyType (T : string)
| SerialType (T : string) (Precision : Z)
| UUIDType (T : string)
| XMLType (T : string)
| OtherType (dynamic : string).

(** [schema.Expr]: a column default is a literal or a raw expression. *)
Inductive Expr : Type :=
| Literal (V : string)
| RawExpr (X : string).

Record ColumnType := {
  ct_Type : Type_;
  ct_Raw : string;
  ct_Null : bool }.

(** The attributes ([schema.Attr]) that inspection attaches to tables,
    columns, indexes and index parts. A check constraint is an attribute of
    its table; its own first attribute lists the columns it names. *)
#[warnings="-register-all"]
Inductive Attr : Type :=
| Comment (Text : string)
| Charset (V : string)
| Collation (V : string)
| CType (V : string)
| Identity (Generation : string) (Start Increment : Z)
| IndexType (T : string)
| ConType (T : string)
| IndexPredicate (P : string)
| IndexColumnProperty (Asc Desc NullsFirst NullsLast : bool)
| NoInherit
| CheckColumns (Columns : list string)
| Check (Name Expr_ : string) (Attrs : list Attr).

(** A column. [col_Indexes] holds pointers to the indexes that cover the
    column: positions in the store of the table. *)
Record Column := {
  col_Name : string;
  col_Type : ColumnType;
  col_Default : option Expr;
  col_Attrs : list Attr;
  col_Indexes : list nat }.

(** An index part carries an expression ([part_X]) or points to a column
    ([part_C], the position of the column in the table). *)
Record IndexPart := {
  SeqNo : Z;
  part_X : option Expr;
  part_C : option nat;
  part_Attrs : list Attr }.

(** An index; its [Table] field always points to the table that stores it. *)
Record Index := {
  idx_Name : string;
  idx_Unique : bool;
  idx_Attrs : list Attr;
  idx_Parts : list IndexPart }.

(** A foreign key, as the shared resolver of package sqlx leaves it. *)
Record ForeignKey := {
  fk_Symbol : string;
  fk_Columns : list string;
  fk_RefTable : string * string;
  fk_RefColumns : list string;
  fk_OnUpdate : string;
  fk_OnDelete : string }.

(** The schema a table points to: the one synthesized from the identity
    query, or the live schema the caller supplied. *)
Inductive SchemaPtr : Type :=
| Synthesized (Name : string)
| Top (Name : string).

Definition schema_name (p : SchemaPtr) : string :=
  match p with Synthesized n => n | Top n => n end.

(** A table. [tbl_store] holds the [Index] objects allocated while the table
    is inspected; [tbl_Indexes], [tbl_PrimaryKey] and the columns point into
    it, so that a part appended to an index is seen through all of them. *)
Record Table := {
  tbl_Name : string;
  tbl_Schema : SchemaPtr;
  tbl_Attrs : list Attr;
  tbl_Columns : list Column;
  tbl_Indexes : list nat;
  tbl_PrimaryKey : option nat;
  tbl_ForeignKeys : list ForeignKey;
  tbl_store : list Index }.

(** A schema; [sch_Realm] holds the attributes of the realm it is put in
    (the realm's schema list is the list the schema itself came from). *)
Record Schema_ := {
  sch_Name : string;
  sch_Tables : list Table;
  sch_Realm : option (list Attr) }.

(** A realm: its schemas and its attributes. *)
Record Realm_ := {
  realm_Schemas : list Schema_;
  realm_Attrs : list Attr }.

(** Modelled from the spec: [Table.Column] is declared in package schema,
    which is not among the source files. The spec has it "resolve the column
    by name within the Table"; the result is the pointer to the first column
    of that name, that is, its position. *)
Fixpoint find_column (name : string) (cols : list Column) (i : nat) : option nat :=
  match cols with
  | [] => None
  | c :: cols' =>
      if String.eqb (col_Name c) name then Some i
      else find_column name cols' (S i)
  end.

Definition Table_Column (t : Table) (name : string) : option nat :=
  find_column name (tbl_Columns t) 0.

End Schema.

Import Schema.

(** ** Errors and results *)

(** An argument of [fmt.Errorf], kept with the verb's format string. *)
#[warnings="-register-all"]
Inductive error : Type :=
| NumError (e : Strconv.NumErr)
| ExecError (msg : string)
| ErrNoRows
| NotExistError (Err_ : error)
| Errorf (format : string) (args : list fmtarg)
with fmtarg : Type :=
| ArgInt (i : Z)
| ArgString (s : string)
| ArgError (e : error)
| ArgType (t : Type_).

(** Run-time panics. [InvalidPointer] is the dereference of a position that
    is not in the store; the code never produces one (see
    [addIndexes_row_linked] and [addChecks_row_linked]). *)
Inductive panic :=
  IndexOutOfRange | SliceBoundsOutOfRange | TypeAssertion | InvalidPointer.

Inductive result (A : Type) : Type :=
| Ok (a : A)
| Err (e : error)
| Panic (p : panic).

Arguments Ok {A} a.
Arguments Err {A} e.
Arguments Panic {A} p.

#[global] Instance result_ret : MRet result := fun A a => Ok a.
#[global] Instance result_bind : MBind result := fun A B f m =>
  match m with
  | Ok a => f a
  | Err e => Err e
  | Panic p => Panic p
  end.

(** [s[k:]] on a slice. *)
Definition slice_from {A : Type} (k : nat) (l : list A) : result (list A) :=
  if (k <=? length l)%nat then Ok (drop k l) else Panic SliceBoundsOutOfRange.

(** [l[k]] on a slice. *)
Definition index_at {A : Type} (k : nat) (l : list A) : result A :=
  match l !! k with
  | Some a => Ok a
  | None => Panic IndexOutOfRange
  end.

(** ** The query executor and the helpers of package sqlx

    The executor is an external collaborator: the driver is handed one and
    only runs queries on it. *)

(** [sql.NullString], [sql.NullInt64] and [sql.NullBool]. *)
Record NullString := { ns_String : string; ns_Valid : bool }.
Record NullInt64 := { ni_Int64 : Z; ni_Valid : bool }.
Record NullBool := { nb_Bool : bool; nb_Valid : bool }.

(** What [rows.Scan] makes of one row: the decoded row, or an error. *)
Inductive scanned (A : Type) : Type :=
| Row (a : A)
| ScanFails (e : error).

Arguments Row {A} a.
Arguments ScanFails {A} e.

(** A result set ([*sql.Rows]): the rows that [Next] steps through, what
    [Err] reports when [Next] has returned false, and what [Close] returns. *)
Record Rows (A : Type) : Type := {
  rows_items : list (scanned A);
  rows_Err : option error;
  rows_Close : option error }.

Arguments rows_items {A} r.
Arguments rows_Err {A} r.
Arguments rows_Close {A} r.

(** A result set whose rows all decode, with no iteration or close error. *)
Definition rows_of {A : Type} (l : list A) : Rows A :=
  Build_Rows A (map Row l) None None.

(** A [for] loop over a slice or over [rows.Next()]: the body returns the
    new state, and an error or a panic in it leaves the loop. *)
Fixpoint for_each {A S : Type} (body : S -> A -> result S) (l : list A) (st : S)
  : result S :=
  match l with
  | [] => Ok st
  | a :: l' => st' ← body st a; for_each body l' st'
  end.

(** [if err != nil { return fmt.Errorf(..., err) }]. *)
Definition wrap_err {A : Type} (w : error -> error) (r : result A) : result A :=
  match r with
  | Err e => Err (w e)
  | _ => r
  end.

(** The columns selected by the columns query, in the order of the [Scan]. *)
Record column_row := {
  cr_name : NullString; cr_typ : NullString; cr_nullable : NullString;
  cr_defaults : NullString; cr_maxlen : NullInt64; cr_precision : NullInt64;
  cr_scale : NullInt64; cr_charset : NullString; cr_collation : NullString;
  cr_udt : NullString; cr_identity : NullString; cr_seqstart : NullInt64;
  cr_seqinc : NullInt64; cr_generation : NullString; cr_comment : NullString;
  cr_typtype : NullString; cr_typid : NullInt64 }.

(** The columns selected by the indexes query. *)
Record index_row := {
  ir_name : string; ir_typ : string; ir_column : NullString;
  ir_primary : bool; ir_uniq : bool; ir_contype : NullString;
  ir_pred : NullString; ir_expr : NullString;
  ir_asc : NullBool; ir_desc : NullBool;
  ir_nullsfirst : NullBool; ir_nullslast : NullBool;
  ir_comment : NullString }.

(** The columns selected by the foreign-keys query. *)
Record fk_row := {
  fr_constraint_name : string; fr_table_name : string; fr_column_name : string;
  fr_table_schema : string; fr_referenced_table_name : string;
  fr_referenced_column_name : string; fr_referenced_schema_name : string;
  fr_update_rule : string; fr_delete_rule : string }.

(** The columns selected by the checks query. *)
Record check_row := {
  kr_name : string; kr_clause : string; kr_column : string;
  kr_indexes : string; kr_noInherit : bool }.

(** The queries of the package, by the name of their constant and by the
    shape of their rows. The two [Args] queries carry the clause that
    [inStrings] prints into them. *)
Inductive strings_query : Type :=
| paramsQuery
| attachedSchemaQuery
| schemasQuery
| schemasQueryArgs (clause : string)
| tablesQuery
| tablesQueryArgs (clause : string).

Inductive table_query : Type :=
| tableQuery
| tableSchemaQuery.

(** [schema.ExecQuerier]: [QueryContext] on a query and its arguments gives
    rows or an error. It is split by the shape of the rows; the columns,
    indexes, foreign-keys and checks queries are one constant each. *)
Record ExecQuerier := {
  QueryStrings : strings_query -> list string -> result (Rows string);
  QueryTable : table_query -> list string -> result (Rows (NullString * NullString));
  QueryColumns : list string -> result (Rows column_row);
  QueryIndexes : list string -> result (Rows index_row);
  QueryFKs : list string -> result (Rows fk_row);
  QueryChecks : list string -> result (Rows check_row) }.

(** Modelled from the spec: [sqlx.ScanOne] is not among the source files.
    The identity query returns "NotExistError if zero rows": with no row the
    helper returns [sql.ErrNoRows]; otherwise it scans the first row and
    closes the rows. *)
Definition ScanOne {A : Type} (rows : Rows A) : result A :=
  match rows_items rows with
  | [] => Err ErrNoRows
  | ScanFails e :: _ => Err e
  | Row a :: _ =>
      match rows_Close rows with
      | Some e => Err e
      | None => Ok a
      end
  end.

(** Modelled from the spec: [sqlx.ScanStrings] is not among the source
    files; it collects the single string column of every row and fails with
    the error of the first row that cannot be scanned. *)
Definition ScanStrings (rows : Rows string) : result (list string) :=
  for_each
    (fun vs row => match row with
                   | ScanFails e => Err e
                   | Row v => Ok (vs ++ [v])
                   end)
    (rows_items rows) [].

(** The other helpers of package sqlx that inspection calls. They are not
    among the source files and the properties below hold for any of them.
    - [ValidString]: the nullable string holds a usable value;
    - [IsQuoted s q]: [s] is quoted with the byte [q];
    - [IsLiteralBool], [IsLiteralNumber]: [s] is a boolean, a numeric literal;
    - [ScanFKs t rows]: the table with the foreign keys of [rows] resolved;
    - [LinkSchemaTables s others]: what linking the schema list does to its
      first schema [s]. *)
Class Sqlx := {
  ValidString : NullString -> bool;
  IsQuoted : string -> ascii -> bool;
  IsLiteralBool : string -> bool;
  IsLiteralNumber : string -> bool;
  ScanFKs : Table -> Rows fk_row -> result Table;
  LinkSchemaTables : Schema_ -> list Schema_ -> Schema_ }.

(** ** Package oracle *)

Module Oracle.

(** *** driver.go: the standard column types *)

Definition TypeVarchar := "varchar2".
Definition TypeNVarchar := "nvarchar2".
Definition TypeChar := "char".
Definition TypeNChar := "nchar".
Definition TypeRowID := "rowid".
Definition TypeRaw := "raw".
Definition TypeFloat := "float".
Definition TypeDouble := "double".
Definition TypeInt := "int".
Definition TypeNumber := "number".
Definition TypeDate := "date".
Definition TypeTimestamp := "timestamp".
Definition TypeTimestampTZ := "timestamp with time zone".
Definition TypeTimestampLTZ := "timestamp with local time zone".
Definition TypeIntervalDS := "interval day second".
Definition TypeIntervalYM := "interval year month".
Definition TypeCLOB := "clob".
Definition TypeBLOB := "blob".
Definition TypeBFile := "bfile".
Definition TypeLongVarchar := "long".
Definition TypeLongRaw := "long raw".
Definition TypeJSON := "json".

(** A [case a, b, c:] of a switch on a string. *)
Definition one_of (s : string) (cases : list string) : bool :=
  existsb (String.eqb s) cases.

(** *** convert.go *)

(** [FormatType] converts a schema type to its column form in the database. *)
Definition FormatType (t : Type_) : result string :=
  match t with
  | BinaryType _ Size =>
      if (Size <? 2)%Z then Ok "raw(1)"
      else if (4000 <? Size)%Z then Ok "blob"
      else Ok (TypeRaw +:+ "(" +:+ Strconv.FormatInt Size +:+ ")")
  | IntegerType _ => Ok TypeInt
  | StringType _ Size =>
      if (Size <? 2)%Z then Ok "char(1)"
      else if (4000 <? Size)%Z then Ok "clob"
      else Ok (TypeVarchar +:+ "(" +:+ Strconv.FormatInt Size +:+ ")")
  | TimeType T =>
      let f := GoStrings.ToLower T in
      if String.eqb f TypeTimestampLTZ then Ok TypeTimestampLTZ
      else if String.eqb f TypeTimestampTZ then Ok TypeTimestampTZ
      else if String.eqb f TypeTimestamp then Ok TypeTimestamp
      else if String.eqb f TypeDate then Ok TypeDate
      else Ok f
  | FloatType T _ =>
      let f := GoStrings.ToLower T in
      if String.eqb f TypeFloat then Ok TypeFloat
      else if String.eqb f TypeDouble then Ok TypeDouble
      else Ok f
  | DecimalType _ p s =>
      let f := TypeNumber in
      if (p =? 0)%Z && (s =? 0)%Z then Ok f
      else if (s <? 0)%Z then
        Err (Errorf "oracle: decimal type must have scale >= 0: %d" [ArgInt s])
      else if (p =? 0)%Z && (0 <? s)%Z then
        Err (Errorf "oracle: decimal type must have precision between 1 and 1000: %d"
               [ArgInt p])
      else if (s =? 0)%Z then Ok (f +:+ "(" +:+ Strconv.FormatInt p +:+ ")")
      else Ok (f +:+ "(" +:+ Strconv.FormatInt p +:+ "," +:+ Strconv.FormatInt s +:+ ")")
  | JSONType T => Ok (GoStrings.ToLower T)
  | UnsupportedType T =>
      Err (Errorf "oracle: unsupported type: %q" [ArgString T])
  | _ => Err (Errorf "oracle: invalid schema type: %T" [ArgType t])
  end.

(** [columnDesc] represents a column descriptor. *)
Record columnDesc := {
  typ : string;
  size : Z;
  udt : string;
  precision : Z;
  scale : Z;
  typtype : string;
  typid : Z;
  parts : list string }.

Definition set_typ (v : string) (c : columnDesc) : columnDesc :=
  Build_columnDesc v (size c) (udt c) (precision c) (scale c) (typtype c) (typid c) (parts c).
Definition set_size (v : Z) (c : columnDesc) : columnDesc :=
  Build_columnDesc (typ c) v (udt c) (precision c) (scale c) (typtype c) (typid c) (parts c).
Definition set_precision (v : Z) (c : columnDesc) : columnDesc :=
  Build_columnDesc (typ c) (size c) (udt c) v (scale c) (typtype c) (typid c) (parts c).
Definition set_scale (v : Z) (c : columnDesc) : columnDesc :=
  Build_columnDesc (typ c) (size c) (udt c) (precision c) v (typtype c) (typid c) (parts c).

(** [parseCharParts] sets the type and the size of a char-family column. The
    descriptor is written through a pointer in Go and returned here. The
    error message reads [parts[1]] of the slice that was just cut, which is
    out of range when one part is left. *)
Definition parseCharParts (parts : list string) (c : columnDesc) : result columnDesc :=
  let j := GoStrings.Join parts " " in
  '(c, parts) ←
    (if GoStrings.HasPrefix j TypeVarchar then
       p ← slice_from 1 parts; Ok (set_typ TypeVarchar c, p)
     else if GoStrings.HasPrefix j TypeNVarchar then
       p ← slice_from 1 parts; Ok (set_typ TypeVarchar c, p)
     else if GoStrings.HasPrefix j TypeChar then
       p ← slice_from 2 parts; Ok (set_typ TypeChar c, p)
     else if GoStrings.HasPrefix j TypeNChar then
       p ← slice_from 2 parts; Ok (set_typ TypeNChar c, p)
     else
       p ← slice_from 1 parts; Ok (c, p));
  match parts with
  | [] => Ok c
  | p0 :: _ =>
      match Strconv.ParseInt p0 with
      | inr e =>
          p1 ← index_at 1 parts;
          Err (Errorf "oracle: parse size %q: %w" [ArgString p1; ArgError (NumError e)])
      | inl sz => Ok (set_size sz c)
      end
  end.

(** The separators of [parseColumn]. *)
Definition is_separator (r : ascii) : bool :=
  Ascii.eqb r "(" || Ascii.eqb r ")" || Ascii.eqb r " " || Ascii.eqb r ",".

Definition parseColumn (s : string) : result columnDesc :=
  let parts := GoStrings.FieldsFunc s is_separator in
  p0 ← index_at 0 parts;
  let c := Build_columnDesc p0 0 "" 0 0 "" 0 parts in
  if one_of p0 [TypeVarchar; TypeNVarchar; TypeChar; TypeNChar] then
    parseCharParts parts c
  else if String.eqb p0 TypeNumber then
    c ← (match parts with
         | _ :: p1 :: _ =>
             match Strconv.ParseInt p1 with
             | inl v => Ok (set_precision v c)
             | inr e =>
                 Err (Errorf "oracle: parse precision %q: %w"
                        [ArgString p1; ArgError (NumError e)])
             end
         | _ => Ok c
         end);
    match parts with
    | _ :: p1 :: p2 :: _ =>
        match Strconv.ParseInt p2 with
        | inl v => Ok (set_scale v c)
        | inr e =>
            Err (Errorf "oracle: parse scale %q: %w"
                   [ArgString p1; ArgError (NumError e)])
        end
    | _ => Ok c
    end
  else if String.eqb p0 TypeDouble then Ok (set_precision 53 c)
  else if String.eqb p0 TypeInt then Ok (set_precision 32 c)
  else if String.eqb p0 TypeFloat then Ok (set_precision 24 c)
  else Ok (set_typ s c).

(** [columnType] (declared with the inspection code): the canonical type of
    a column descriptor, by the lower-cased type name. *)
Definition columnType (c : columnDesc) : Type_ :=
  let t := typ c in
  let l := GoStrings.ToLower t in
  if String.eqb l TypeInt then IntegerType t
  else if String.eqb l TypeRaw then BinaryType t 0
  else if one_of l [TypeChar; TypeNChar; TypeVarchar; TypeNVarchar] then
    StringType t (size c)
  else if one_of l [TypeDate; TypeTimestamp; TypeTimestampTZ; TypeTimestampLTZ] then
    TimeType t
  else if one_of l [TypeIntervalDS; TypeIntervalYM] then UnsupportedType t
  else if one_of l [TypeDouble; TypeFloat] then FloatType t (precision c)
  else if String.eqb l TypeJSON then JSONType t
  else if String.eqb l TypeNumber then DecimalType t (precision c) (scale c)
  else UnsupportedType t.

(** [ParseType] returns the [schema.Type] value represented by the raw type;
    a type that is not known becomes a user-defined type. *)
Definition ParseType (typ : string) : result Type_ :=
  d ← parseColumn typ;
  let t := columnType d in
  match t with
  | UnsupportedType T => Ok (UserDefinedType T)
  | _ => Ok t
  end.

(** *** driver.go *)

(** The database connection and the system variables that [Open] sets. *)
Record conn := {
  conn_db : ExecQuerier;
  collate : string;
  ctype : string;
  version : string }.

(** The driver; its differ, inspector and plan applier all wrap the [conn]. *)
Record Driver := { drv_conn : conn }.

Definition go_slice (s : string) (lo hi : Z) : result string :=
  match GoStrings.slice s lo hi with
  | Some r => Ok r
  | None => Panic SliceBoundsOutOfRange
  end.

(** [Open] opens a new driver on the executor [db]. *)
Definition Open (db : ExecQuerier) : result Driver :=
  rows ← wrap_err (fun e => Errorf "oracle: scanning system variables: %w" [ArgError e])
           (QueryStrings db paramsQuery []);
  params ← wrap_err (fun e => Errorf "oracle: failed scanning rows: %w" [ArgError e])
             (ScanStrings rows);
  if negb (length params =? 3)%nat then
    Err (Errorf "oracle: unexpected number of rows: %d" [ArgInt (Z.of_nat (length params))])
  else
    collate ← index_at 0 params;
    ctype ← index_at 1 params;
    version ← index_at 2 params;
    if negb (String.length version =? 6)%nat then
      Err (Errorf "oracle: malformed version: %s" [ArgString version])
    else
      v1 ← go_slice version 0 2;
      v2 ← go_slice version 2 4;
      v3 ← go_slice version 4 (Z.of_nat (String.length version));
      let version := v1 +:+ "." +:+ v2 +:+ "." +:+ v3 in
      if negb (Semver.Compare ("v" +:+ version) "v10.0.0" =? -1)%Z then
        Err (Errorf "oracle: unsupported oracle version: %s" [ArgString version])
      else
        Ok (Build_Driver (Build_conn db collate ctype version)).

(** *** The inspection code *)

Definition with_Schema (v : SchemaPtr) (t : Table) : Table :=
  Build_Table (tbl_Name t) v (tbl_Attrs t) (tbl_Columns t) (tbl_Indexes t)
    (tbl_PrimaryKey t) (tbl_ForeignKeys t) (tbl_store t).
Definition with_Attrs (v : list Attr) (t : Table) : Table :=
  Build_Table (tbl_Name t) (tbl_Schema t) v (tbl_Columns t) (tbl_Indexes t)
    (tbl_PrimaryKey t) (tbl_ForeignKeys t) (tbl_store t).
Definition with_Columns (v : list Column) (t : Table) : Table :=
  Build_Table (tbl_Name t) (tbl_Schema t) (tbl_Attrs t) v (tbl_Indexes t)
    (tbl_PrimaryKey t) (tbl_ForeignKeys t) (tbl_store t).
Definition with_Indexes (v : list nat) (t : Table) : Table :=
  Build_Table (tbl_Name t) (tbl_Schema t) (tbl_Attrs t) (tbl_Columns t) v
    (tbl_PrimaryKey t) (tbl_ForeignKeys t) (tbl_store t).
Definition with_PrimaryKey (v : option nat) (t : Table) : Table :=
  Build_Table (tbl_Name t) (tbl_Schema t) (tbl_Attrs t) (tbl_Columns t) (tbl_Indexes t)
    v (tbl_ForeignKeys t) (tbl_store t).
Definition with_store (v : list Index) (t : Table) : Table :=
  Build_Table (tbl_Name t) (tbl_Schema t) (tbl_Attrs t) (tbl_Columns t) (tbl_Indexes t)
    (tbl_PrimaryKey t) (tbl_ForeignKeys t) v.

(** [c.Indexes = append(c.Indexes, idx)]. *)
Definition add_Index (idx : nat) (c : Column) : Column :=
  Build_Column (col_Name c) (col_Type c) (col_Default c) (col_Attrs c)
    (col_Indexes c ++ [idx]).

(** [append(s, x)] under a condition, as in the runs of
    [if sqlx.ValidString(v) { attrs = append(attrs, ...) }]. *)
Definition append_if {A : Type} (b : bool) (x : A) (l : list A) : list A :=
  if b then l ++ [x] else l.

(** [inStrings]: the comparison clause for the names [s] and the extended
    argument list; [query] prints the clause into the query text. *)
Fixpoint in_list (s : list string) (i : nat) (args : list string) : string * list string :=
  match s with
  | [] => ("", args)
  | x :: s' =>
      let args := args ++ [x] in
      let '(b, args') := in_list s' (S i) args in
      ((if (0 <? i)%nat then ", " else "") +:+ "$"
         +:+ Strconv.FormatInt (Z.of_nat (length args)) +:+ b, args')
  end.

Definition inStrings (s : list string) (query : string -> strings_query)
    (args : list string) : strings_query * list string :=
  match s with
  | [x] =>
      let args := args ++ [x] in
      (query ("= $" +:+ Strconv.FormatInt (Z.of_nat (length args))), args)
  | _ =>
      let '(b, args) := in_list s 0 args in
      (query ("IN (" +:+ b +:+ ")"), args)
  end.

Section Inspect.

Context `{Sqlx}.

Definition canConvert (t : ColumnType) (x : string) : result (string * bool) :=
  let r := match ct_Type t with ArrayType T => T | _ => ct_Raw t end in
  match GoStrings.Index x ("::" +:+ r) with
  | None => Ok ("", false)
  | Some i =>
      let i := Z.of_nat i in
      xi ← go_slice x 0 i;
      if negb (IsQuoted xi "'") then Ok ("", false)
      else
        q ← go_slice x 0 i;
        x ← go_slice x 1 (i - 1);
        match ct_Type t with
        | BoolType _ =>
            if IsLiteralBool x then Ok (x, true) else Ok ("", false)
        | DecimalType _ _ _ | IntegerType _ | FloatType _ _ =>
            if IsLiteralNumber x then Ok (x, true) else Ok ("", false)
        | ArrayType _ | BinaryType _ _ | JSONType _ | NetworkType _ _
        | SpatialType _ | StringType _ _ | TimeType _ | UUIDType _ | XMLType _ =>
            Ok (q, true)
        | _ => Ok ("", false)
        end
  end.

Definition defaultExpr (c : Column) (x : string) : result Expr :=
  if IsLiteralBool x || IsLiteralNumber x || IsQuoted x "'" then Ok (Literal x)
  else
    match canConvert (col_Type c) x with
    | Ok (v, ok) => if ok then Ok (Literal v) else Ok (RawExpr x)
    | Err e => Err e
    | Panic p => Panic p
    end.

(** [table] returns the table from the database, or a [NotExistError] if
    the table was not found. [opts] is the schema of the options, [None]
    for a nil pointer. *)
Definition table (i : conn) (name : string) (opts : option string) : result Table :=
  let '(query, args) :=
    match opts with
    | Some sch =>
        if negb (String.eqb sch "") then (tableSchemaQuery, [name; sch])
        else (tableQuery, [name])
    | None => (tableQuery, [name])
    end in
  rows ← QueryTable (conn_db i) query args;
  match ScanOne rows with
  | Err ErrNoRows =>
      Err (NotExistError (Errorf "oracle: table %q was not found" [ArgString name]))
  | Err e => Err e
  | Panic p => Panic p
  | Ok (tSchema, comment) =>
      Ok (Build_Table name (Synthesized (ns_String tSchema))
            (append_if (ValidString comment) (Comment (ns_String comment)) [])
            [] [] None [] [])
  end.

(** [addColumn] scans the current row and adds a new column from it. *)
Definition addColumn (t : Table) (row : scanned column_row) : result Table :=
  match row with
  | ScanFails e => Err e
  | Row r =>
      let ty := columnType
        (Build_columnDesc (ns_String (cr_typ r)) (ni_Int64 (cr_maxlen r))
           (ns_String (cr_udt r)) (ni_Int64 (cr_precision r)) (ni_Int64 (cr_scale r))
           (ns_String (cr_typtype r)) (ni_Int64 (cr_typid r)) []) in
      let c := Build_Column (ns_String (cr_name r))
        (Build_ColumnType ty (ns_String (cr_typ r))
           (String.eqb (ns_String (cr_nullable r)) "YES"))
        None [] [] in
      d ← (if ValidString (cr_defaults r)
           then e ← defaultExpr c (ns_String (cr_defaults r)); Ok (Some e)
           else Ok None);
      let attrs :=
        append_if (ValidString (cr_collation r)) (Collation (ns_String (cr_collation r)))
        (append_if (ValidString (cr_charset r)) (Charset (ns_String (cr_charset r)))
        (append_if (ValidString (cr_comment r)) (Comment (ns_String (cr_comment r)))
        (append_if (String.eqb (ns_String (cr_identity r)) "YES")
           (Identity (ns_String (cr_generation r))
              (ni_Int64 (cr_seqstart r)) (ni_Int64 (cr_seqinc r)))
           []))) in
      let c := Build_Column (col_Name c) (col_Type c) d attrs [] in
      Ok (with_Columns (tbl_Columns t ++ [c]) t)
  end.

(** [columns] queries and appends the columns of the given table. *)
Definition columns (i : conn) (t : Table) : result Table :=
  rows ← wrap_err
    (fun e => Errorf "oracle: querying %q columns: %w" [ArgString (tbl_Name t); ArgError e])
    (QueryColumns (conn_db i) [schema_name (tbl_Schema t); tbl_Name t]);
  t ← for_each
    (fun t row => wrap_err (fun e => Errorf "oracle: %w" [ArgError e]) (addColumn t row))
    (rows_items rows) t;
  match rows_Close rows with
  | Some e => Err e
  | None => Ok t
  end.

(** One turn of the loop of [addIndexes]. [names] maps an index name to the
    pointer of its [Index]: the position in the store of the table. *)
Definition addIndexes_row (st : Table * gmap string nat) (row : scanned index_row)
  : result (Table * gmap string nat) :=
  let '(t, names) := st in
  match row with
  | ScanFails e => Err (Errorf "oracle: scanning index: %w" [ArgError e])
  | Row r =>
      let '(t, names, idx) :=
        match names !! ir_name r with
        | Some idx => (t, names, idx)
        | None =>
            let attrs :=
              append_if (ValidString (ir_pred r)) (IndexPredicate (ns_String (ir_pred r)))
              (append_if (ValidString (ir_contype r)) (ConType (ns_String (ir_contype r)))
              (append_if (ValidString (ir_comment r)) (Comment (ns_String (ir_comment r)))
                 [IndexType (ir_typ r)])) in
            let idx := length (tbl_store t) in
            let t := with_store
              (tbl_store t ++ [Build_Index (ir_name r) (ir_uniq r) attrs []]) t in
            let t := if ir_primary r then with_PrimaryKey (Some idx) t
                     else with_Indexes (tbl_Indexes t ++ [idx]) t in
            (t, <[ir_name r := idx]> names, idx)
        end in
      match tbl_store t !! idx with
      | None => Panic InvalidPointer
      | Some ix =>
          let props := [IndexColumnProperty (nb_Bool (ir_asc r)) (nb_Bool (ir_desc r))
                          (nb_Bool (ir_nullsfirst r)) (nb_Bool (ir_nullslast r))] in
          let seqno := (Z.of_nat (length (idx_Parts ix)) + 1)%Z in
          '(t, part) ←
            (if ValidString (ir_expr r) then
               Ok (t, Build_IndexPart seqno (Some (RawExpr (ns_String (ir_expr r)))) None props)
             else if ValidString (ir_column r) then
               match Table_Column t (ns_String (ir_column r)) with
               | None =>
                   Err (Errorf "oracle: column %q was not found for index %q"
                          [ArgString (ns_String (ir_column r)); ArgString (idx_Name ix)])
               | Some ci =>
                   let cols := alter (add_Index idx) ci (tbl_Columns t) in
                   Ok (with_Columns cols t, Build_IndexPart seqno None (Some ci) props)
               end
             else
               Err (Errorf "oracle: invalid part for index %q" [ArgString (idx_Name ix)]));
          let ix := Build_Index (idx_Name ix) (idx_Unique ix) (idx_Attrs ix)
                      (idx_Parts ix ++ [part]) in
          Ok (with_store (<[idx := ix]> (tbl_store t)) t, names)
      end
  end.

(** [addIndexes] scans the rows and adds the indexes to the table. *)
Definition addIndexes (t : Table) (rows : Rows index_row) : result Table :=
  '(t, _) ← for_each addIndexes_row (rows_items rows) (t, ∅);
  Ok t.

(** [indexes] queries and appends the indexes of the given table. *)
Definition indexes (i : conn) (t : Table) : result Table :=
  rows ← wrap_err
    (fun e => Errorf "oracle: querying %q indexes: %w" [ArgString (tbl_Name t); ArgError e])
    (QueryIndexes (conn_db i) [schema_name (tbl_Schema t); tbl_Name t]);
  t ← addIndexes t rows;
  match rows_Err rows with
  | Some e => Err e
  | None => Ok t
  end.

(** [fks] queries and appends the foreign keys of the given table. *)
Definition fks (i : conn) (t : Table) : result Table :=
  rows ← wrap_err
    (fun e => Errorf "oracle: querying %q foreign keys: %w"
                [ArgString (tbl_Name t); ArgError e])
    (QueryFKs (conn_db i) [schema_name (tbl_Schema t); tbl_Name t]);
  t ← wrap_err (fun e => Errorf "oracle: %w" [ArgError e]) (ScanFKs t rows);
  match rows_Err rows with
  | Some e => Err e
  | None => Ok t
  end.

(** One turn of the loop of [addChecks]. [names] maps the name of a check to
    the pointer of its [Check]: the position among the attributes of the
    table. *)
Definition addChecks_row (st : Table * gmap string nat) (row : scanned check_row)
  : result (Table * gmap string nat) :=
  let '(t, names) := st in
  match row with
  | ScanFails e => Err (Errorf "oracle: scanning check: %w" [ArgError e])
  | Row r =>
      match Table_Column t (kr_column r) with
      | None =>
          Err (Errorf "oracle: column %q was not found for check %q"
                 [ArgString (kr_column r); ArgString (kr_name r)])
      | Some _ =>
          let '(t, names, pos) :=
            match names !! kr_name r with
            | Some pos => (t, names, pos)
            | None =>
                let check := Check (kr_name r) (kr_clause r)
                  (append_if (kr_noInherit r) NoInherit [CheckColumns []]) in
                let pos := length (tbl_Attrs t) in
                (with_Attrs (tbl_Attrs t ++ [check]) t, <[kr_name r := pos]> names, pos)
            end in
          match tbl_Attrs t !! pos with
          | Some (Check n e (CheckColumns cols :: rest)) =>
              let check := Check n e (CheckColumns (cols ++ [kr_column r]) :: rest) in
              Ok (with_Attrs (<[pos := check]> (tbl_Attrs t)) t, names)
          | Some (Check _ _ (_ :: _)) => Panic TypeAssertion
          | Some (Check _ _ []) => Panic IndexOutOfRange
          | _ => Panic InvalidPointer
          end
      end
  end.

(** [addChecks] scans the rows and adds the checks to the table. *)
Definition addChecks (t : Table) (rows : Rows check_row) : result Table :=
  '(t, _) ← for_each addChecks_row (rows_items rows) (t, ∅);
  Ok t.

(** [checks] queries and appends the check constraints of the given table. *)
Definition checks (i : conn) (t : Table) : result Table :=
  rows ← wrap_err
    (fun e => Errorf "mysql: querying %q check constraints: %w"
                [ArgString (tbl_Name t); ArgError e])
    (QueryChecks (conn_db i) [schema_name (tbl_Schema t); tbl_Name t]);
  t ← addChecks t rows;
  match rows_Err rows with
  | Some e => Err e
  | None => Ok t
  end.

(** [inspectTable]: the table, then its columns, indexes, foreign keys and
    checks; [top] is the schema to link the table to, if provided. *)
Definition inspectTable (i : conn) (name : string) (opts : option string)
    (top : option Schema_) : result Table :=
  t ← table i name opts;
  let t := match top with
           | Some s => with_Schema (Top (sch_Name s)) t
           | None => t
           end in
  t ← columns i t;
  t ← indexes i t;
  t ← fks i t;
  t ← checks i t;
  Ok t.

(** [InspectTable] returns the schema description of the given table. *)
Definition InspectTable (i : conn) (name : string) (opts : option string) : result Table :=
  inspectTable i name opts None.

(** [schemas] returns the list of the schemas in the database; [opts] holds
    the schema names of the options, [None] for a nil pointer. *)
Definition schemas (i : conn) (opts : option (list string)) : result (list Schema_) :=
  let '(query, args) :=
    match opts with
    | Some (x :: l) => inStrings (x :: l) schemasQueryArgs []
    | _ => (schemasQuery, [])
    end in
  rows ← wrap_err (fun e => Errorf "oracle: querying schemas: %w" [ArgError e])
           (QueryStrings (conn_db i) query args);
  for_each
    (fun schemas row => match row with
                        | ScanFails e => Err e
                        | Row name => Ok (schemas ++ [Build_Schema_ name [] None])
                        end)
    (rows_items rows) [].

(** [tableNames] returns a list of all tables that exist in the schema. *)
Definition tableNames (i : conn) (schema : string) (opts : option (list string))
  : result (list string) :=
  let '(query, args) :=
    match opts with
    | Some (x :: l) => inStrings (x :: l) tablesQueryArgs [schema]
    | _ => (tablesQuery, [schema])
    end in
  rows ← wrap_err (fun e => Errorf "oracle: querying schema tables: %w" [ArgError e])
           (QueryStrings (conn_db i) query args);
  wrap_err (fun e => Errorf "oracle: scanning table names: %w" [ArgError e])
    (ScanStrings rows).

(** [InspectSchema] returns schema descriptions of the tables in the given
    schema. If the schema name is empty, the result is the attached schema. *)
Definition InspectSchema (i : conn) (name : string) (opts : option (list string))
  : result Schema_ :=
  '(name, schemas) ←
    (if String.eqb name "" then
       rows ← wrap_err
         (fun e => Errorf "oracle: query attached schema: %w" [ArgError e])
         (QueryStrings (conn_db i) attachedSchemaQuery []);
       name ← wrap_err
         (fun e => Errorf "oracle: scan attached schema: %w" [ArgError e])
         (ScanOne rows);
       Ok (name, [Build_Schema_ name [] None])
     else
       schemas ← schemas i (Some [name]);
       if (length schemas =? 0)%nat then
         Err (NotExistError (Errorf "oracle: schema %q was not found" [ArgString name]))
       else Ok (name, schemas));
  names ← tableNames i name opts;
  s ← index_at 0 schemas;
  s ← for_each
    (fun s name =>
       t ← inspectTable i name (Some (sch_Name s)) (Some s);
       Ok (Build_Schema_ (sch_Name s) (sch_Tables s ++ [t]) (sch_Realm s)))
    names s;
  let s := LinkSchemaTables s (drop 1 schemas) in
  Ok (Build_Schema_ (sch_Name s) (sch_Tables s)
        (Some [Collation (collate i); CType (ctype i)])).

(** [InspectRealm] returns schema descriptions of all resources in the given
    realm; [opts] holds the schema names of the options. Every schema is
    filled through its pointer, in the order of the schema list, and then
    put in the realm; the tables of a schema are listed with nil options.
    [LinkRealmTables] is [sqlx.LinkSchemaTables] on the whole schema list,
    of which [InspectRealm] returns every schema (the field
    [LinkSchemaTables] of the class gives the first schema only). *)
Definition InspectRealm (LinkRealmTables : list Schema_ -> list Schema_)
    (i : conn) (opts : option (list string)) : result Realm_ :=
  schemas ← schemas i opts;
  let attrs := [Collation (collate i); CType (ctype i)] in
  schemas ← for_each
    (fun done s =>
       names ← tableNames i (sch_Name s) None;
       s ← for_each
         (fun s name =>
            t ← inspectTable i name (Some (sch_Name s)) (Some s);
            Ok (Build_Schema_ (sch_Name s) (sch_Tables s ++ [t]) (sch_Realm s)))
         names s;
       Ok (done ++ [Build_Schema_ (sch_Name s) (sch_Tables s) (Some attrs)]))
    schemas [];
  Ok (Build_Realm_ (LinkRealmTables schemas) attrs).

End Inspect.

(** *** convert.go: schema documents *)

(** The documents of package sqlspec and the helpers of package specutil
    that the conversions call. They are not among the source files and the
    properties below hold for any of them.
    - [SchemaSpec], [TableSpec]: [sqlspec.Schema] and [sqlspec.Table], of
      which the package reads the names [ss_Name] and [ts_Name];
    - [SchemaName ts]: [specutil.SchemaName] on the schema reference of the
      table spec [ts];
    - [specutil_Table ts parent]: [specutil.Table] on [ts] and the schema
      [parent], with the converters that [convertTable] hands to it;
    - [LinkForeignKeys tbl sch ts]: what [specutil.LinkForeignKeys] makes
      of the table [tbl], which it writes through its pointer, given the
      schema [sch] and the spec [ts] of the table;
    - [FromSchema s]: [specutil.FromSchema] on [s] with the [tableSpec] of
      the package: the spec of the schema and the specs of its tables. *)
Class Specutil := {
  SchemaSpec : Type;
  TableSpec : Type;
  ss_Name : SchemaSpec -> string;
  ts_Name : TableSpec -> string;
  SchemaName : TableSpec -> result string;
  specutil_Table : TableSpec -> Schema_ -> result Table;
  LinkForeignKeys : Table -> Schema_ -> TableSpec -> result Table;
  FromSchema : Schema_ -> result (SchemaSpec * list TableSpec) }.

Section Convert.

Context `{Specutil}.

(** The type [doc]: the tables and the schemas of a document. *)
Record doc := {
  doc_Tables : list TableSpec;
  doc_Schemas : list SchemaSpec }.

(** What the [interface{}] argument of [UnmarshalSpec] and [MarshalSpec]
    points to: a schema, a realm, or a value of another dynamic type,
    named as the verb [%T] prints it. *)
Inductive value : Type :=
| SchemaValue (s : Schema_)
| RealmValue (r : Realm_)
| OtherValue (dynamic : string).

(** [convertTable] converts a table spec to a table, without its foreign
    keys. *)
Definition convertTable (spec : TableSpec) (parent : Schema_) : result Table :=
  specutil_Table spec parent.

(** [Schema] converts a schema spec with its table specs into a schema.
    The map [m] of the code gives each table its spec back; the tables are
    fresh pointers, so it is the spec at the position of the table. The
    second loop writes each linked table through its pointer, which the
    schema holds. *)
Definition Schema (spec : SchemaSpec) (tables : list TableSpec) : result Schema_ :=
  let sch := Build_Schema_ (ss_Name spec) [] None in
  sch ← for_each
    (fun sch ts =>
       table ← convertTable ts sch;
       Ok (Build_Schema_ (sch_Name sch) (sch_Tables sch ++ [table]) (sch_Realm sch)))
    tables sch;
  for_each
    (fun sch '(k, ts) =>
       match sch_Tables sch !! k with
       | None => Panic InvalidPointer
       | Some tbl =>
           tbl ← LinkForeignKeys tbl sch ts;
           Ok (Build_Schema_ (sch_Name sch) (<[k := tbl]> (sch_Tables sch)) (sch_Realm sch))
       end)
    (imap pair tables) sch.

(** [Realm] converts the schemas and tables of the doc into a realm. *)
Definition Realm (schemas : list SchemaSpec) (tables : list TableSpec) : result Realm_ :=
  schemas ← for_each
    (fun done schemaSpec =>
       schemaTables ← for_each
         (fun schemaTables tableSpec =>
            name ← wrap_err
              (fun e => Errorf "specutil: cannot extract schema name for table %q: %w"
                          [ArgString (ts_Name tableSpec); ArgError e])
              (SchemaName tableSpec);
            if String.eqb name (ss_Name schemaSpec)
            then Ok (schemaTables ++ [tableSpec])
            else Ok schemaTables)
         tables [];
       sch ← Schema schemaSpec schemaTables;
       Ok (done ++ [sch]))
    schemas [];
  Ok (Build_Realm_ schemas []).

(** [UnmarshalSpec] unmarshals a document into [v]; the result is what [v]
    points to afterwards. *)
Definition UnmarshalSpec (data : string) (unmarshaler : string -> result doc) (v : value)
  : result value :=
  d ← unmarshaler data;
  match v with
  | RealmValue _ =>
      realm ← wrap_err
        (fun e => Errorf "specutil: failed converting to *schema.Realm: %w" [ArgError e])
        (Realm (doc_Schemas d) (doc_Tables d));
      Ok (RealmValue realm)
  | SchemaValue _ =>
      if negb (length (doc_Schemas d) =? 1)%nat then
        Err (Errorf "specutil: expecting document to contain a single schema, got %d"
               [ArgInt (Z.of_nat (length (doc_Schemas d)))])
      else
        s0 ← index_at 0 (doc_Schemas d);
        conv ← wrap_err
          (fun e => Errorf "specutil: failed converting to *schema.Schema: %w" [ArgError e])
          (Schema s0 (doc_Tables d));
        Ok (SchemaValue conv)
  | OtherValue T =>
      Err (Errorf "specutil: failed unmarshaling spec. %T is not supported" [ArgString T])
  end.

(** [schemaSpec] converts a schema to its document. *)
Definition schemaSpec (schem : Schema_) : result doc :=
  '(s, tbls) ← FromSchema schem;
  Ok (Build_doc tbls [s]).

(** [MarshalSpec] marshals [v] into a document using the marshaler. *)
Definition MarshalSpec (v : value) (marshaler : doc -> result string) : result string :=
  d ← match v with
      | SchemaValue s =>
          doc ← wrap_err
            (fun e => Errorf "specutil: failed converting schema to spec: %w" [ArgError e])
            (schemaSpec s);
          Ok (Build_doc (doc_Tables doc) (doc_Schemas doc))
      | RealmValue r =>
          for_each
            (fun d s =>
               doc ← wrap_err
                 (fun e => Errorf "specutil: failed converting schema to spec: %w"
                             [ArgError e])
                 (schemaSpec s);
               Ok (Build_doc (doc_Tables d ++ doc_Tables doc)
                     (doc_Schemas d ++ doc_Schemas doc)))
            (realm_Schemas r) (Build_doc [] [])
      | OtherValue T =>
          Err (Errorf "specutil: failed marshaling spec. %T is not supported" [ArgString T])
      end;
  marshaler d.

End Convert.

End Oracle.

(** ** A reading of the sqlx helpers, for evaluating the code on examples *)

Module SqlxModel.

Import Oracle.

(** A decimal numeral: an optional sign, then digits with at most one dot
    and at least one digit. *)
Fixpoint decimal_body (s : string) (dot digit : bool) : bool :=
  match s with
  | EmptyString => digit
  | String c s' =>
      if Semver.is_digit c then decimal_body s' dot true
      else if Ascii.eqb c "." && negb dot then decimal_body s' true digit
      else false
  end.

Definition is_decimal (s : string) : bool :=
  match s with
  | String c s' =>
      if Ascii.eqb c "-" || Ascii.eqb c "+" then decimal_body s' false false
      else decimal_body s false false
  | EmptyString => false
  end.

Definition last_byte (s : string) : option ascii :=
  String.get (String.length s - 1) s.

Definition is_quoted (s : string) (q : ascii) : bool :=
  (2 <=? String.length s)%nat
  && match String.get 0 s, last_byte s with
     | Some a, Some b => Ascii.eqb a q && Ascii.eqb b q
     | _, _ => false
     end.

(** The foreign keys of the rows, one per constraint name, each column
    looked up by name in the table. *)
Definition scan_fk (t : Table) (row : scanned fk_row) : result Table :=
  match row with
  | ScanFails e => Err e
  | Row r =>
      match Table_Column t (fr_column_name r) with
      | None =>
          Err (Errorf "column %q was not found for constraint %q"
                 [ArgString (fr_column_name r); ArgString (fr_constraint_name r)])
      | Some _ =>
          Ok (Build_Table (tbl_Name t) (tbl_Schema t) (tbl_Attrs t) (tbl_Columns t)
                (tbl_Indexes t) (tbl_PrimaryKey t)
                (tbl_ForeignKeys t ++
                   [Build_ForeignKey (fr_constraint_name r) [fr_column_name r]
                      (fr_referenced_schema_name r, fr_referenced_table_name r)
                      [fr_referenced_column_name r] (fr_update_rule r) (fr_delete_rule r)])
                (tbl_store t))
      end
  end.

(** Modelled from the spec: these helpers of package sqlx are not among the
    source files. The spec speaks of "nullable columns", of "a boolean
    literal, a numeric literal, or a single-quoted string literal", and of a
    resolver that fails "if a referenced column is not present"; linking is
    left out. The instance serves to run the code on concrete rows and
    texts; no general property depends on it. *)
#[export] Instance sqlx_model : Sqlx := {|
  ValidString := fun s => ns_Valid s && negb (String.eqb (ns_String s) "");
  IsQuoted := is_quoted;
  IsLiteralBool := fun s => match Strconv.ParseBool s with Some _ => true | None => false end;
  IsLiteralNumber := is_decimal;
  ScanFKs := fun t rows => for_each scan_fk (rows_items rows) t;
  LinkSchemaTables := fun s _ => s |}.

(** Test data: a nullable string with a value, and the SQL NULL. *)
Definition str (s : string) : NullString := Build_NullString s true.
Definition null : NullString := Build_NullString "" false.
Definition nullb : NullBool := Build_NullBool false false.
Definition nulli : NullInt64 := Build_NullInt64 0 false.

(** An index row that names a column and carries no expression. *)
Definition column_part (name column : string) (primary : bool) : index_row :=
  Build_index_row name "NORMAL" (str column) primary false null null null
    nullb nullb nullb nullb null.

(** An index row that carries an expression, and the column name the
    catalog reports for it. *)
Definition expr_part (name column expr : string) : index_row :=
  Build_index_row name "NORMAL" (str column) false false null null (str expr)
    nullb nullb nullb nullb null.

(** An executor that answers the parameters query with [params] and fails
    on every other query. *)
Definition no_rows {A : Type} : result (Rows A) := Err (ExecError "no such relation").

Definition db_params (params : list string) : ExecQuerier :=
  Build_ExecQuerier
    (fun q _ => match q with
                | paramsQuery => Ok (rows_of params)
                | _ => no_rows
                end)
    (fun _ _ => no_rows) (fun _ => no_rows) (fun _ => no_rows)
    (fun _ => no_rows) (fun _ => no_rows).

(** An executor over a small catalog: the attached schema, the schema
    list, the table names, the rows of the identity query of a table, and
    its column, index and check rows. There are no foreign keys and the
    parameters query fails. *)
Definition db_catalog (attached schema_list tables : list string)
    (identity : list (NullString * NullString)) (cols : list column_row)
    (idx : list index_row) (chk : list check_row) : ExecQuerier :=
  Build_ExecQuerier
    (fun q _ => match q with
                | paramsQuery => no_rows
                | attachedSchemaQuery => Ok (rows_of attached)
                | schemasQuery | schemasQueryArgs _ => Ok (rows_of schema_list)
                | tablesQuery | tablesQueryArgs _ => Ok (rows_of tables)
                end)
    (fun _ _ => Ok (rows_of identity))
    (fun _ => Ok (rows_of cols))
    (fun _ => Ok (rows_of idx))
    (fun _ => Ok (rows_of []))
    (fun _ => Ok (rows_of chk)).

Definition conn_of (db : ExecQuerier) : conn := Build_conn db "BINARY" "AL32UTF8" "09.02.00".

(** A column row of a given name and type, not nullable, with no default. *)
Definition column_row_of (name typ : string) : column_row :=
  Build_column_row (str name) (str typ) (str "NO") null nulli nulli nulli null null
    (str typ) (str "NO") nulli nulli null null (str "b") nulli.

(** A column of a given name and type, and a table made of columns. *)
Definition column (name : string) (ty : Type_) (raw : string) : Column :=
  Build_Column name (Build_ColumnType ty raw false) None [] [].

Definition table_of (cols : list Column) : Table :=
  Build_Table "t" (Synthesized "s") [] cols [] None [] [].

(** The rows [(idx_a, col1), (idx_a, col2)] of the spec, on a table with
    the columns [col1] and [col2]. *)
Definition two_columns : Table :=
  table_of [column "col1" (IntegerType "int") "int";
            column "col2" (TimeType "date") "date"].

Definition idx_a_rows : list index_row :=
  [column_part "idx_a" "col1" false; column_part "idx_a" "col2" false].

(** The same rows where the second one carries the primary-key flag, and
    the rows of two indexes that both carry it. *)
Definition late_flag_rows : list index_row :=
  [column_part "idx_a" "col1" false; column_part "idx_a" "col2" true].

Definition two_keys_rows : list index_row :=
  [column_part "pk1" "col1" true; column_part "pk2" "col2" true].

(** A catalog with the table [t] of schema [S], its column [col1], and one
    index row that names the column [ghost]. *)
Definition db_dangling_index : ExecQuerier :=
  db_catalog ["S"] ["S"] ["t"] [(str "S", null)] [column_row_of "col1" "int"]
    [column_part "idx_a" "ghost" false] [].

(** The same catalog where the index row carries an expression and names
    [expr], as a catalog does for an expression index. *)
Definition db_expression_index : ExecQuerier :=
  db_catalog ["S"] ["S"] ["t"] [(str "S", null)] [column_row_of "col1" "int"]
    [expr_part "idx_e" "expr" "lower(col1)"] [].

(** A catalog whose attached schema is [GHOST], whose schema list is empty,
    and that has no table. *)
Definition db_ghost : ExecQuerier := db_catalog ["GHOST"] [] [] [] [] [] [].

End SqlxModel.

(** ** Notions used to state the properties *)

(** The values of a Go [int64]. *)
Definition int64 (z : Z) : Prop := - 2 ^ 63 <= z < 2 ^ 63.

Fixpoint all_bytes (p : ascii -> bool) (s : string) : bool :=
  match s with
  | EmptyString => true
  | String c s' => p c && all_bytes p s'
  end.

(** The variants that [FormatType] has a case for other than the one of
    [UnsupportedType]: the supported canonical types. *)
Definition supported (t : Type_) : bool :=
  match t with
  | BinaryType _ _ | IntegerType _ | StringType _ _ | TimeType _
  | FloatType _ _ | DecimalType _ _ _ | JSONType _ => true
  | _ => false
  end.

(** The fixed set of canonical variants of the data model of the spec:
    Integer, String, Decimal, Float, Time, JSON, Binary, UnsupportedType and
    UserDefinedType. *)
Definition canonical_variant (t : Type_) : bool :=
  match t with
  | UnsupportedType _ | UserDefinedType _ => true
  | _ => supported t
  end.

(** The precision facet that a canonical type carries, if it has one. *)
Definition type_precision (t : Type_) : option Z :=
  match t with
  | DecimalType _ p _ | FloatType _ p | SerialType _ p => Some p
  | _ => None
  end.

(** A text of ASCII bytes, on which [GoStrings.ToLower] is Go's. *)
Definition is_ascii (c : ascii) : bool := (nat_of_ascii c <? 128)%nat.




(** A text of six bytes, and the version [vAB.CD.EF] that [Open] builds
    from it before it calls [semver.Compare]. *)
Definition six_bytes (a b c d e f : ascii) : string :=
  String a (String b (String c (String d (String e (String f ""))))).

Definition dotted (a b c d e f : ascii) : string :=
  String "v" (String a (String b (String "." (String c (String d
    (String "." (String e (String f "")))))))).

(** A pair of bytes that [semver] reads as a number: two digits, the first
    of which is not zero. *)
Definition two_digits (a b : ascii) : bool :=
  Semver.is_digit a && Semver.is_digit b && negb (Ascii.eqb a "0").


(** The type names for which [columnType] has a case other than the one of
    the interval types. *)
Definition recognized : list string :=
  [Oracle.TypeInt; Oracle.TypeRaw; Oracle.TypeChar; Oracle.TypeNChar;
   Oracle.TypeVarchar; Oracle.TypeNVarchar; Oracle.TypeDate; Oracle.TypeTimestamp;
   Oracle.TypeTimestampTZ; Oracle.TypeTimestampLTZ; Oracle.TypeDouble;
   Oracle.TypeFloat; Oracle.TypeJSON; Oracle.TypeNumber].

(** A field of [parseColumn]: not empty and free of separators. *)
Definition no_separator (s : string) : Prop :=
  all_bytes (fun c => negb (Oracle.is_separator c)) s = true /\ s <> "".

(** The type name that a cast must name for a column: the element type of
    an array type, the raw spelling of every other type. *)
Definition cast_name (t : ColumnType) : string :=
  match ct_Type t with
  | ArrayType T => T
  | _ => ct_Raw t
  end.

(** [sub] occurs in [x] at the position [p]. *)
Definition occurs_at (sub x : string) (p : nat) : Prop :=
  String.substring p (String.length sub) x = sub.

(** A text without its first and its last byte. *)
Definition unquote (q : string) : string :=
  String.substring 1 (String.length q - 2) q.

(** What a cast to the type of a column must hold: a boolean literal, a
    numeric literal, any quoted text, or nothing that is unwrapped. *)
Inductive cast_kind : Type := CastBool | CastNumber | CastText | CastNone.

Definition cast_kind_of (t : Type_) : cast_kind :=
  match t with
  | BoolType _ => CastBool
  | DecimalType _ _ _ | IntegerType _ | FloatType _ _ => CastNumber
  | ArrayType _ | BinaryType _ _ | JSONType _ | NetworkType _ _ | SpatialType _
  | StringType _ _ | TimeType _ | UUIDType _ | XMLType _ => CastText
  | _ => CastNone
  end.

(** *** Index assembly, as a function of the rows *)

Section IndexNotions.

Context `{Sqlx}.

(** The rows that create an index: the first row of each index name, in the
    order of the rows. *)
Definition creates (rows : list index_row) : list index_row :=
  fold_left
    (fun acc r =>
       if existsb (fun r' => String.eqb (ir_name r') (ir_name r)) acc then acc
       else acc ++ [r])
    rows [].

(** The rows of the index [n], in the order of the rows. *)
Definition rows_named (n : string) (rows : list index_row) : list index_row :=
  List.filter (fun r => String.eqb (ir_name r) n) rows.

(** A row resolves in a table: it carries an expression, or it names a
    column of the table. *)
Definition resolves (t : Table) (r : index_row) : Prop :=
  ValidString (ir_expr r) = true
  \/ (ValidString (ir_column r) = true
      /\ is_Some (Table_Column t (ns_String (ir_column r)))).

(** The part that the row [r] adds as the part number [j] (from 0) of its
    index: the expression when the row carries one, the column otherwise. *)
Definition part_of_row (t : Table) (j : nat) (r : index_row) : IndexPart :=
  Build_IndexPart (Z.of_nat j + 1)
    (if ValidString (ir_expr r) then Some (RawExpr (ns_String (ir_expr r))) else None)
    (if ValidString (ir_expr r) then None
     else Table_Column t (ns_String (ir_column r)))
    [IndexColumnProperty (nb_Bool (ir_asc r)) (nb_Bool (ir_desc r))
       (nb_Bool (ir_nullsfirst r)) (nb_Bool (ir_nullslast r))].

(** The attributes of an index, from the row that creates it: the type of
    the index, then its comment, its constraint type and its predicate, each
    of them when the row has one. *)
Definition index_attrs (r : index_row) : list Attr :=
  IndexType (ir_typ r)
  :: (if ValidString (ir_comment r) then [Comment (ns_String (ir_comment r))] else [])
  ++ (if ValidString (ir_contype r) then [ConType (ns_String (ir_contype r))] else [])
  ++ (if ValidString (ir_pred r) then [IndexPredicate (ns_String (ir_pred r))] else []).

(** The index that the rows assemble for the creating row [r]. *)
Definition index_of (t : Table) (rows : list index_row) (r : index_row) : Index :=
  Build_Index (ir_name r) (ir_uniq r) (index_attrs r)
    (imap (part_of_row t) (rows_named (ir_name r) rows)).

(** The pointers of the created indexes that satisfy [p], when the first
    created index is stored at [base]. *)
Fixpoint positions (p : index_row -> bool) (base : nat) (cs : list index_row)
  : list nat :=
  match cs with
  | [] => []
  | r :: cs' => (if p r then [base] else []) ++ positions p (S base) cs'
  end.

(** A name is among the names of the rows [cs]. *)
Definition has_name (n : string) (cs : list index_row) : bool :=
  existsb (fun r' => String.eqb (ir_name r') n) cs.

(** The state of the loop of [addIndexes] when it has gone through [rows],
    starting from the table [t] and an empty map: the store holds the index
    of every creating row after what it held, the map points each name to
    its index, the columns have their names, and the creating rows are
    split between the primary key and the index list by their flag. *)
Definition assembled (t : Table) (rows : list index_row)
    (st : Table * gmap string nat) : Prop :=
  let base := length (tbl_store t) in
  tbl_store st.1 = tbl_store t ++ map (index_of t rows) (creates rows)
  /\ (forall n k,
        st.2 !! n = Some k <->
        exists j c, k = (base + j)%nat /\ creates rows !! j = Some c /\ ir_name c = n)
  /\ map col_Name (tbl_Columns st.1) = map col_Name (tbl_Columns t)
  /\ tbl_Indexes st.1 =
     tbl_Indexes t ++ positions (fun r => negb (ir_primary r)) base (creates rows)
  /\ tbl_PrimaryKey st.1 =
     match last (positions ir_primary base (creates rows)) with
     | Some k => Some k
     | None => tbl_PrimaryKey t
     end.

(** What holds of the state of the loop of [addIndexes] after any rows, be
    they wrong: the map points each name to an index of that name in the
    store, and the columns have the names they had. *)
Definition indexes_linked (t : Table) (st : Table * gmap string nat) : Prop :=
  (forall n k, st.2 !! n = Some k ->
               exists ix, tbl_store st.1 !! k = Some ix /\ idx_Name ix = n)
  /\ map col_Name (tbl_Columns st.1) = map col_Name (tbl_Columns t).

(** The same for the loop of [addChecks]: the map points each name to a
    check of that name among the attributes, whose first attribute is the
    list of its columns, and the columns are untouched. *)
Definition checks_linked (t : Table) (st : Table * gmap string nat) : Prop :=
  (forall n k, st.2 !! n = Some k ->
               exists e cols rest,
                 tbl_Attrs st.1 !! k = Some (Check n e (CheckColumns cols :: rest)))
  /\ tbl_Columns st.1 = tbl_Columns t.

(** An index row that names a column the table does not have (and carries
    no expression), and a check row that does. *)
Definition dangling_index_row (t : Table) (r : index_row) : Prop :=
  ValidString (ir_expr r) = false
  /\ ValidString (ir_column r) = true
  /\ Table_Column t (ns_String (ir_column r)) = None.

Definition dangling_check_row (t : Table) (r : check_row) : Prop :=
  Table_Column t (kr_column r) = None.

End IndexNotions.

(** *** Query placeholders *)

(** The placeholder number [k], as [inStrings] writes it. *)
Definition placeholder (k : nat) : string :=
  "$" +:+ Strconv.FormatInt (Z.of_nat k).

(** The comparison clause for [n] names whose placeholders are numbered
    from [k] on: an equality for one name, a list otherwise. *)
Definition in_clause (k n : nat) : string :=
  match n with
  | 1%nat => "= " +:+ placeholder k
  | _ => "IN (" +:+ GoStrings.Join (map placeholder (seq k n)) ", " +:+ ")"
  end.

(** The query and the arguments that [schemas] and [tableNames] send: the
    plain query when the options are nil or name nothing, and else the
    query with a clause for the names, which come after the arguments that
    the plain query has. *)
Definition schemas_request (opts : option (list string)) : strings_query * list string :=
  match opts with
  | Some (x :: l) => (schemasQueryArgs (in_clause 1 (length (x :: l))), x :: l)
  | _ => (schemasQuery, [])
  end.

Definition tables_request (schema : string) (opts : option (list string))
  : strings_query * list string :=
  match opts with
  | Some (x :: l) => (tablesQueryArgs (in_clause 2 (length (x :: l))), schema :: x :: l)
  | _ => (tablesQuery, [schema])
  end.

(** A schema that has a name only, as [schemas] allocates it. *)
Definition named_schema (name : string) : Schema_ := Build_Schema_ name [] None.

(** *** Check assembly, as a function of the rows *)

(** The rows that create a check: the first row of each check name, in the
    order of the rows. *)
Definition check_creates (rows : list check_row) : list check_row :=
  fold_left
    (fun acc r =>
       if existsb (fun r' => String.eqb (kr_name r') (kr_name r)) acc then acc
       else acc ++ [r])
    rows [].

(** The rows of the check [n], in the order of the rows. *)
Definition check_rows_named (n : string) (rows : list check_row) : list check_row :=
  List.filter (fun r => String.eqb (kr_name r) n) rows.

Definition check_has_name (n : string) (cs : list check_row) : bool :=
  existsb (fun r' => String.eqb (kr_name r') n) cs.

(** The check that the rows assemble for the creating row [r]: its clause
    and its flag come from [r], its columns from all the rows of its name. *)
Definition check_of (rows : list check_row) (r : check_row) : Attr :=
  Check (kr_name r) (kr_clause r)
    (CheckColumns (map kr_column (check_rows_named (kr_name r) rows))
       :: (if kr_noInherit r then [NoInherit] else [])).

(** The state of the loop of [addChecks] when it has gone through [rows],
    starting from the table [t] and an empty map: the attributes of the
    table are followed by the check of every creating row, the rest of the
    table is as it was, and the map points each name to its check. *)
Definition checks_assembled (t : Table) (rows : list check_row)
    (st : Table * gmap string nat) : Prop :=
  st.1 = Oracle.with_Attrs (tbl_Attrs t ++ map (check_of rows) (check_creates rows)) t
  /\ (forall n k,
        st.2 !! n = Some k <->
        exists j c, k = (length (tbl_Attrs t) + j)%nat
                    /\ check_creates rows !! j = Some c /\ kr_name c = n).

(** Test data: the rows of two checks on the table [two_columns], the first
    one on both columns. *)
Definition chk_rows : list check_row :=
  [Build_check_row "chk_a" "col1 < col2" "col1" "{1,2}" false;
   Build_check_row "chk_b" "col2 IS NOT NULL" "col2" "{2}" true;
   Build_check_row "chk_a" "col1 < col2" "col2" "{1,2}" false].

(** *** Columns, as a function of the rows *)

Section ColumnNotions.

Context `{Sqlx}.

(** The type of the column of a row: its raw type, the canonical type that
    [columnType] gives to the descriptor filled from the row, and whether
    the row says [YES] for nullable. *)
Definition row_type (r : column_row) : ColumnType :=
  Build_ColumnType
    (Oracle.columnType
       (Oracle.Build_columnDesc (ns_String (cr_typ r)) (ni_Int64 (cr_maxlen r))
          (ns_String (cr_udt r)) (ni_Int64 (cr_precision r)) (ni_Int64 (cr_scale r))
          (ns_String (cr_typtype r)) (ni_Int64 (cr_typid r)) []))
    (ns_String (cr_typ r))
    (String.eqb (ns_String (cr_nullable r)) "YES").

(** The attributes of the column of a row, in their order: the identity,
    the comment, the character set and the collation, each one present
    when the row has it. *)
Definition row_attrs (r : column_row) : list Attr :=
  (if String.eqb (ns_String (cr_identity r)) "YES"
   then [Identity (ns_String (cr_generation r))
           (ni_Int64 (cr_seqstart r)) (ni_Int64 (cr_seqinc r))]
   else [])
  ++ (if ValidString (cr_comment r) then [Comment (ns_String (cr_comment r))] else [])
  ++ (if ValidString (cr_charset r) then [Charset (ns_String (cr_charset r))] else [])
  ++ (if ValidString (cr_collation r) then [Collation (ns_String (cr_collation r))] else []).

(** [c] is the column of the row [r]: it has the name, the type and the
    attributes of the row, no index yet, and as its default what
    [defaultExpr] makes of the default of the row, if the row has one. *)
Definition column_of_row (r : column_row) (c : Column) : Prop :=
  col_Name c = ns_String (cr_name r)
  /\ col_Type c = row_type r
  /\ col_Attrs c = row_attrs r
  /\ col_Indexes c = []
  /\ (if ValidString (cr_defaults r) then
        exists e,
          Oracle.defaultExpr
            (Build_Column (ns_String (cr_name r)) (row_type r) None [] [])
            (ns_String (cr_defaults r)) = Ok e
          /\ col_Default c = Some e
      else col_Default c = None).

End ColumnNotions.

(** *** Schemas and realms, as a function of what the queries return *)

Section RealmNotions.

Context `{Sqlx}.

(** The tables [ts] are what inspection returns for the tables of the
    schema [s]: the tables query, sent for the schema name [lookup] with the
    options [opts], lists their names, and each name is inspected in the
    schema [s] and linked to it. *)
Definition tables_inspected (i : Oracle.conn) (lookup : string)
    (opts : option (list string)) (s : Schema_) (ts : list Table) : Prop :=
  exists names,
    Oracle.tableNames i lookup opts = Ok names
    /\ Forall2
         (fun n t => Oracle.inspectTable i n (Some (sch_Name s)) (Some s) = Ok t)
         names ts.

(** The tables of a schema of a realm: they are looked up under the name
    of the schema, with nil options. *)
Definition realm_tables (i : Oracle.conn) (s : Schema_) (ts : list Table) : Prop :=
  tables_inspected i (sch_Name s) None s ts.

(** [InspectSchema] resolves the name it is given to the name [name'] under
    which it looks the tables up and to the schema list [ss]: for the empty
    name, the attached schema as the identity query gives it, in a list of
    its own; for another name, that name and the schemas that the schema
    list has for it, at least one. *)
Definition schema_resolved (i : Oracle.conn) (name name' : string) (ss : list Schema_)
  : Prop :=
  if String.eqb name "" then
    exists R,
      QueryStrings (Oracle.conn_db i) attachedSchemaQuery [] = Ok R
      /\ ScanOne R = Ok name'
      /\ ss = [named_schema name']
  else
    name' = name /\ Oracle.schemas i (Some [name]) = Ok ss /\ ss <> [].

(** The schema [s] filled with the tables [ts] and put in a realm of
    attributes [attrs]. *)
Definition filled (attrs : list Attr) (s : Schema_) (ts : list Table) : Schema_ :=
  Build_Schema_ (sch_Name s) (sch_Tables s ++ ts) (Some attrs).

(** The schema [s] with the tables [ts] after the ones it has. *)
Definition filled_in (s : Schema_) (ts : list Table) : Schema_ :=
  Build_Schema_ (sch_Name s) (sch_Tables s ++ ts) (sch_Realm s).

End RealmNotions.

(** *** Outcomes without a panic *)

(** The outcome [r] is a value or an error, not a panic. *)
Definition no_panic {A : Type} (r : result A) : Prop :=
  match r with
  | Panic _ => False
  | _ => True
  end.

(** An executor whose queries give rows or an error, as a Go
    [QueryContext] does. *)
Definition quiet (db : ExecQuerier) : Prop :=
  (forall q args, no_panic (QueryStrings db q args))
  /\ (forall q args, no_panic (QueryTable db q args))
  /\ (forall args, no_panic (QueryColumns db args))
  /\ (forall args, no_panic (QueryIndexes db args))
  /\ (forall args, no_panic (QueryFKs db args))
  /\ (forall args, no_panic (QueryChecks db args)).

(** *** The indexes of a column, as a function of the rows *)

Section LinkNotions.

Context `{Sqlx}.

(** The position of the first row of name [n] in [cs]. *)
Fixpoint name_index (n : string) (cs : list index_row) : nat :=
  match cs with
  | [] => 0%nat
  | c :: cs' => if String.eqb (ir_name c) n then 0%nat else S (name_index n cs')
  end.

(** The pointer to the index of the row [r]: the index of its name is
    stored where the creating row of that name stands among the creating
    rows, after what the store held. *)
Definition index_pointer (t : Table) (rows : list index_row) (r : index_row) : nat :=
  (length (tbl_store t) + name_index (ir_name r) (creates rows))%nat.

(** The row [r] names the column number [ci] of the table: it carries no
    expression and its column name resolves to that column. *)
Definition names_column (t : Table) (ci : nat) (r : index_row) : bool :=
  negb (ValidString (ir_expr r))
  && match Table_Column t (ns_String (ir_column r)) with
     | Some k => Nat.eqb k ci
     | None => false
     end.

(** The pointers that the rows add to the column number [ci]: one for every
    row that names the column, in the order of the rows. *)
Definition column_links (t : Table) (rows : list index_row) (ci : nat) : list nat :=
  map (index_pointer t rows) (List.filter (names_column t ci) rows).

(** The column [c], number [ci] of the table, with these pointers after
    the ones it has. *)
Definition with_links (t : Table) (rows : list index_row) (ci : nat) (c : Column)
  : Column :=
  Build_Column (col_Name c) (col_Type c) (col_Default c) (col_Attrs c)
    (col_Indexes c ++ column_links t rows ci).

End LinkNotions.

(** *** Schema documents: the tables of a schema *)

Section ConvertNotions.

Context `{Oracle.Specutil}.

(** The schema reference of the table spec resolves to a name. *)
Definition schema_named (ts : Oracle.TableSpec) : Prop :=
  exists n, Oracle.SchemaName ts = Ok n.

(** The schema reference of the table spec resolves to the name [n]. *)
Definition names_schema (n : string) (ts : Oracle.TableSpec) : bool :=
  match Oracle.SchemaName ts with
  | Ok name => String.eqb name n
  | _ => false
  end.

(** The table specs that reference the schema [n], in their order. *)
Definition tables_of (n : string) (tables : list Oracle.TableSpec)
  : list Oracle.TableSpec :=
  List.filter (names_schema n) tables.

End ConvertNotions.

(** ** A reading of the documents, for evaluating the conversions on examples *)

Module SpecutilModel.

Import Oracle.

(** A schema spec is its name; a table spec is its name and the text of its
    schema reference, which resolves unless it is empty. A table is
    converted to a table of that name with neither columns nor foreign
    keys, linking leaves it as it is, and the spec of a schema lists its
    tables. The instance serves to run the code on concrete documents; no
    general property depends on it. *)
#[export] Instance specutil_model : Specutil := {|
  SchemaSpec := string;
  TableSpec := string * string;
  ss_Name := fun s => s;
  ts_Name := fun ts => ts.1;
  SchemaName := fun ts =>
    if String.eqb ts.2 "" then Err (Errorf "missing schema reference" []) else Ok ts.2;
  specutil_Table := fun ts parent =>
    Ok (Build_Table ts.1 (Top (sch_Name parent)) [] [] [] None [] []);
  LinkForeignKeys := fun tbl _ _ => Ok tbl;
  FromSchema := fun s =>
    Ok (sch_Name s, map (fun t => (tbl_Name t, sch_Name s)) (sch_Tables s)) |}.

(** A document of two schemas and three tables, one of which references a
    schema that the document does not have. *)
Definition two_schemas : doc :=
  Build_doc [("EMP", "HR"); ("ORDERS", "SALES"); ("LOST", "NOWHERE"); ("DEPT", "HR")]
    ["HR"; "SALES"].

(** A realm of two schemas with one table each. *)
Definition hr_sales : Realm_ :=
  Build_Realm_
    [Build_Schema_ "HR" [Build_Table "EMP" (Top "HR") [] [] [] None [] []] None;
     Build_Schema_ "SALES" [Build_Table "ORDERS" (Top "SALES") [] [] [] None [] []] None]
    [Collation "BINARY"].

(** A marshaler that prints the names of the schemas and of the tables. *)
Definition print_names (d : doc) : result string :=
  Ok (GoStrings.Join (doc_Schemas d) "," +:+ ":" +:+ GoStrings.Join (map fst (doc_Tables d)) ",").

End SpecutilModel.
(** * Properties

    ** Facts about the library functions *)

Import Oracle.

Module StringFacts.

Lemma app_cons (x : ascii) (a b : string) : String x a +:+ b = String x (a +:+ b).
Proof. reflexivity. Qed.

Lemma app_nil_l (a : string) : "" +:+ a = a.
Proof. reflexivity. Qed.

Lemma app_assoc (a b c : string) : (a +:+ b) +:+ c = a +:+ (b +:+ c).
Proof.
  induction a as [|x a IH]; [reflexivity|].
  rewrite !app_cons. f_equal. exact IH.
Qed.

Lemma app_nil_r (a : string) : a +:+ "" = a.
Proof.
  induction a as [|x a IH]; [reflexivity|].
  rewrite app_cons. f_equal. exact IH.
Qed.

Lemma length_app (a b : string) :
  String.length (a +:+ b) = (String.length a + String.length b)%nat.
Proof.
  induction a as [|x a IH]; [reflexivity|].
  rewrite app_cons. simpl. f_equal. exact IH.
Qed.

End StringFacts.

Module StrconvFacts.
Import Strconv.

Lemma digit_cases (d : Z) :
  0 <= d < 10 ->
  d = 0 \/ d = 1 \/ d = 2 \/ d = 3 \/ d = 4 \/ d = 5 \/ d = 6 \/ d = 7 \/ d = 8 \/ d = 9.
Proof. lia. Qed.

Lemma digit_of_byte_of_digit (d : Z) :
  0 <= d < 10 -> digit_of_byte (byte_of_digit d) = Some d.
Proof.
  intros Hd. destruct (digit_cases d Hd) as [->|[->|[->|[->|[->|[->|[->|[->|[->| ->]]]]]]]]];
    reflexivity.
Qed.

(** One turn of the digit loop that stays within 64 bits. *)
Lemma parse_digits_step (c : ascii) (s : string) (n d : Z) :
  digit_of_byte c = Some d -> 0 <= d < 10 -> 0 <= n -> n * 10 + d < 2 ^ 64 ->
  parse_digits (String c s) n = parse_digits s (n * 10 + d).
Proof.
  intros Hc Hd Hn Hlt. cbn [parse_digits]. rewrite Hc.
  change uint_cutoff with 1844674407370955162.
  change maxUint64 with 18446744073709551615.
  change (2 ^ 64) with 18446744073709551616 in *.
  destruct (Z.leb_spec 1844674407370955162 n) as [Hc'|_]; [lia|].
  cbn zeta. rewrite Z.mod_small by lia.
  destruct (Z.ltb_spec (n * 10 + d) (n * 10)) as [Hw|_]; [lia|].
  destruct (Z.ltb_spec 18446744073709551615 (n * 10 + d)) as [Hm|_]; [lia|].
  reflexivity.
Qed.

Lemma parse_digits_app (s1 s2 : string) (n : Z) :
  parse_digits (s1 +:+ s2) n =
  match parse_digits s1 n with
  | inl a => parse_digits s2 a
  | inr e => inr e
  end.
Proof.
  revert n. induction s1 as [|c s1 IH]; intros n; [reflexivity|].
  rewrite StringFacts.app_cons. cbn [parse_digits].
  destruct (digit_of_byte c); [|reflexivity].
  destruct (uint_cutoff <=? n); [reflexivity|]. cbn zeta.
  destruct (_ || _); [reflexivity | apply IH].
Qed.

Lemma format_loop_acc (fuel : nat) (us : Z) (acc : string) :
  format_loop fuel us acc = format_loop fuel us "" +:+ acc.
Proof.
  revert us acc. induction fuel as [|fuel IH]; intros us acc; simpl; [reflexivity|].
  destruct (us <? 10); [reflexivity|].
  rewrite (IH _ (String _ acc)), (IH _ (String _ "")).
  rewrite StringFacts.app_assoc. reflexivity.
Qed.

Lemma parse_format_loop (fuel : nat) (us : Z) :
  0 <= us < 2 ^ Z.of_nat fuel -> us < 2 ^ 64 ->
  parse_digits (format_loop fuel us "") 0 = inl us.
Proof.
  revert us. induction fuel as [|fuel IH]; intros us Hus H64.
  - simpl in *. f_equal. lia.
  - cbn [format_loop]. destruct (Z.ltb_spec us 10) as [Hlt|Hge].
    + rewrite (parse_digits_step _ _ 0 us) by
        (first [apply digit_of_byte_of_digit; lia | lia]).
      cbn [parse_digits]. f_equal; lia.
    + pose proof (Z.div_mod us 10 ltac:(lia)) as Hdm.
      pose proof (Z.mod_pos_bound us 10 ltac:(lia)) as Hm.
      assert (Hq : 0 <= us / 10) by (apply Z.div_pos; lia).
      rewrite format_loop_acc, parse_digits_app, IH.
      * rewrite (parse_digits_step _ _ (us / 10) (us mod 10)) by
          (first [apply digit_of_byte_of_digit; lia | lia]).
        cbn [parse_digits]. f_equal; lia.
      * rewrite Nat2Z.inj_succ, Z.pow_succ_r in Hus by lia.
        split; [exact Hq|]. apply Z.div_lt_upper_bound; lia.
      * lia.
Qed.

Lemma fuel_enough (us : Z) :
  0 <= us -> 0 <= us < 2 ^ Z.of_nat (S (Z.to_nat (Z.log2 us))).
Proof.
  intros Hus. split; [assumption|].
  rewrite Nat2Z.inj_succ, Z2Nat.id by apply Z.log2_nonneg.
  destruct (Z.eq_dec us 0) as [->|Hne]; [reflexivity|].
  apply Z.log2_spec. lia.
Qed.

Lemma FormatUint_nonempty (us : Z) : FormatUint us <> "".
Proof.
  unfold FormatUint. simpl. destruct (us <? 10); [discriminate|].
  rewrite format_loop_acc. destruct (format_loop _ _ ""); discriminate.
Qed.

Lemma ParseUint_FormatUint (us : Z) :
  0 <= us < 2 ^ 64 -> ParseUint (FormatUint us) = inl us.
Proof.
  intros Hus. unfold ParseUint.
  pose proof (FormatUint_nonempty us) as Hne.
  destruct (FormatUint us) eqn:E; [congruence|].
  rewrite <- E. unfold FormatUint.
  apply parse_format_loop; [apply fuel_enough; lia | lia].
Qed.

(** Parsing what [FormatInt] prints gives the number back. *)
Lemma ParseInt_FormatInt (i : Z) :
  - 2 ^ 63 <= i < 2 ^ 63 -> ParseInt (FormatInt i) = inl i.
Proof.
  intros Hi. unfold FormatInt. destruct (Z.ltb_spec i 0) as [Hneg|Hpos].
  - unfold ParseInt. simpl.
    rewrite ParseUint_FormatUint by lia.
    destruct (Z.leb_spec (2 ^ 63) (- i)), (Z.ltb_spec (2 ^ 63) (- i)); simpl;
      try lia; f_equal; lia.
  - pose proof (FormatUint_nonempty i) as Hne.
    unfold ParseInt. destruct (FormatUint i) as [|c s] eqn:E; [congruence|].
    assert (Hd : exists d, digit_of_byte c = Some d).
    { pose proof (ParseUint_FormatUint i ltac:(lia)) as HP. rewrite E in HP.
      unfold ParseUint in HP. cbn [parse_digits] in HP.
      destruct (digit_of_byte c); [eauto | discriminate]. }
    destruct Hd as [d Hd].
    assert (Hc : Ascii.eqb c "-" = false /\ Ascii.eqb c "+" = false).
    { unfold digit_of_byte in Hd.
      destruct (Ascii.eqb_spec c "-") as [->|]; [discriminate|].
      destruct (Ascii.eqb_spec c "+") as [->|]; [discriminate|]. auto. }
    destruct Hc as [-> ->]. cbn [orb]. rewrite <- E.
    rewrite ParseUint_FormatUint by lia.
    destruct (Z.leb_spec (2 ^ 63) i); simpl; [lia | reflexivity].
Qed.

End StrconvFacts.

Module FieldsFacts.
Import GoStrings Strconv.

(** A run of bytes that are no separators extends the field being read. *)
Lemma fields_from_word (f : ascii -> bool) (w s : string) (cur : option string) :
  all_bytes (fun c => negb (f c)) w = true ->
  w <> "" ->
  fields_from f (w +:+ s) cur =
  fields_from f s (Some (match cur with Some c => c +:+ w | None => w end)).
Proof.
  revert cur. induction w as [|c w IH]; intros cur Hw Hne; [congruence|].
  simpl in Hw. apply andb_true_iff in Hw as [Hc Hw].
  apply negb_true_iff in Hc.
  rewrite StringFacts.app_cons. simpl. rewrite Hc.
  destruct w as [|c' w'].
  - rewrite StringFacts.app_nil_l. reflexivity.
  - rewrite IH by (assumption || discriminate).
    destruct cur as [c0|]; [|reflexivity].
    now rewrite StringFacts.app_assoc.
Qed.

Lemma byte_of_digit_no_separator (d : Z) :
  0 <= d < 10 -> Oracle.is_separator (byte_of_digit d) = false.
Proof.
  intros Hd.
  destruct (StrconvFacts.digit_cases d Hd)
    as [->|[->|[->|[->|[->|[->|[->|[->|[->| ->]]]]]]]]]; reflexivity.
Qed.

Lemma format_loop_no_separator (fuel : nat) (us : Z) (acc : string) :
  0 <= us ->
  all_bytes (fun c => negb (Oracle.is_separator c)) acc = true ->
  all_bytes (fun c => negb (Oracle.is_separator c)) (format_loop fuel us acc) = true.
Proof.
  revert us acc. induction fuel as [|fuel IH]; intros us acc Hus Hacc; simpl; [assumption|].
  destruct (Z.ltb_spec us 10).
  - simpl. now rewrite byte_of_digit_no_separator, Hacc by lia.
  - apply IH; [apply Z.div_pos; lia|].
    simpl. rewrite byte_of_digit_no_separator by (apply Z.mod_pos_bound; lia).
    exact Hacc.
Qed.

Lemma FormatInt_no_separator (i : Z) :
  all_bytes (fun c => negb (Oracle.is_separator c)) (FormatInt i) = true.
Proof.
  unfold FormatInt, FormatUint. destruct (Z.ltb_spec i 0).
  - change (all_bytes _ (String "-" ?s)) with (all_bytes (fun c => negb (Oracle.is_separator c)) s).
    apply format_loop_no_separator; [lia | reflexivity].
  - apply format_loop_no_separator; [lia | reflexivity].
Qed.

Lemma FormatInt_nonempty (i : Z) : FormatInt i <> "".
Proof.
  unfold FormatInt. destruct (i <? 0); [discriminate|].
  apply StrconvFacts.FormatUint_nonempty.
Qed.

(** The fields of [name(a)] and of [name(a,b)] for printed numbers. *)
Lemma fields_of_number (i : Z) (s : string) :
  fields_from Oracle.is_separator (FormatInt i +:+ s) None =
  fields_from Oracle.is_separator s (Some (FormatInt i)).
Proof.
  apply (fields_from_word _ _ _ None);
    [apply FormatInt_no_separator | apply FormatInt_nonempty].
Qed.

End FieldsFacts.

(** ** Parsing and formatting types (convert.go) *)

Module ConvertFacts.

Import GoStrings Strconv.

Lemma no_separator_FormatInt (i : Z) : no_separator (FormatInt i).
Proof.
  split; [apply FieldsFacts.FormatInt_no_separator | apply FieldsFacts.FormatInt_nonempty].
Qed.

(** The fields of [kw(a)] and of [kw(a,b)]. *)
Lemma fields_call1 (kw a : string) :
  no_separator kw -> no_separator a ->
  FieldsFunc (kw +:+ "(" +:+ a +:+ ")") is_separator = [kw; a].
Proof.
  intros [Hk Hk'] [Ha Ha']. unfold FieldsFunc.
  rewrite (FieldsFacts.fields_from_word _ kw _ None Hk Hk').
  rewrite StringFacts.app_cons, StringFacts.app_nil_l. simpl.
  rewrite (FieldsFacts.fields_from_word _ a _ None Ha Ha'). reflexivity.
Qed.

Lemma fields_call2 (kw a b : string) :
  no_separator kw -> no_separator a -> no_separator b ->
  FieldsFunc (kw +:+ "(" +:+ a +:+ "," +:+ b +:+ ")") is_separator = [kw; a; b].
Proof.
  intros [Hk Hk'] [Ha Ha'] [Hb Hb']. unfold FieldsFunc.
  rewrite (FieldsFacts.fields_from_word _ kw _ None Hk Hk').
  rewrite StringFacts.app_cons, StringFacts.app_nil_l. simpl.
  rewrite (FieldsFacts.fields_from_word _ a _ None Ha Ha').
  rewrite StringFacts.app_cons, StringFacts.app_nil_l. simpl.
  rewrite (FieldsFacts.fields_from_word _ b _ None Hb Hb'). reflexivity.
Qed.

Lemma HasPrefix_app (p s : string) : HasPrefix (p +:+ s) p = true.
Proof.
  unfold HasPrefix. induction p as [|c p IH]; [now destruct s|].
  rewrite StringFacts.app_cons. simpl.
  destruct (ascii_dec c c); [exact IH | congruence].
Qed.

(** What [ParseType] makes of a text, by the fields of the text. *)
Lemma ParseType_varchar2 (x f : string) (n : Z) :
  FieldsFunc x is_separator = ["varchar2"; f] ->
  ParseInt f = inl n ->
  ParseType x = Ok (StringType "varchar2" n).
Proof.
  intros Hx Hf. unfold ParseType, parseColumn. rewrite Hx.
  change (index_at 0 ["varchar2"; f]) with (Ok "varchar2").
  cbn [mbind result_bind].
  change (one_of "varchar2" [TypeVarchar; TypeNVarchar; TypeChar; TypeNChar]) with true.
  cbn iota. unfold parseCharParts.
  change (Join ["varchar2"; f] " ") with (TypeVarchar +:+ (" " +:+ f)).
  rewrite HasPrefix_app.
  cbn [slice_from length Nat.leb drop mbind result_bind].
  rewrite Hf. reflexivity.
Qed.

Lemma ParseType_number (x : string) :
  FieldsFunc x is_separator = ["number"] ->
  ParseType x = Ok (DecimalType "number" 0 0).
Proof.
  intros Hx. unfold ParseType, parseColumn. rewrite Hx. reflexivity.
Qed.

Lemma ParseType_number_p (x f : string) (p : Z) :
  FieldsFunc x is_separator = ["number"; f] ->
  ParseInt f = inl p ->
  ParseType x = Ok (DecimalType "number" p 0).
Proof.
  intros Hx Hf. unfold ParseType, parseColumn. rewrite Hx.
  change (index_at 0 ["number"; f]) with (Ok "number").
  cbn [mbind result_bind].
  change (one_of "number" [TypeVarchar; TypeNVarchar; TypeChar; TypeNChar]) with false.
  change (String.eqb "number" TypeNumber) with true.
  cbn iota. rewrite Hf. reflexivity.
Qed.

Lemma ParseType_number_p_s (x f g : string) (p s : Z) :
  FieldsFunc x is_separator = ["number"; f; g] ->
  ParseInt f = inl p ->
  ParseInt g = inl s ->
  ParseType x = Ok (DecimalType "number" p s).
Proof.
  intros Hx Hf Hg. unfold ParseType, parseColumn. rewrite Hx.
  change (index_at 0 ["number"; f; g]) with (Ok "number").
  cbn [mbind result_bind].
  change (one_of "number" [TypeVarchar; TypeNVarchar; TypeChar; TypeNChar]) with false.
  change (String.eqb "number" TypeNumber) with true.
  cbn iota. rewrite Hf. cbn [mbind result_bind]. rewrite Hg. reflexivity.
Qed.

Lemma no_separator_literal (s : string) :
  all_bytes (fun c => negb (is_separator c)) s = true ->
  String.eqb s "" = false ->
  no_separator s.
Proof. intros H1 H2. split; [exact H1 | now apply String.eqb_neq]. Qed.


End ConvertFacts.

Section RoundTrip.

Import GoStrings Strconv ConvertFacts.


Lemma bound_255 : 2 <= 255 <= 4000.
Proof. lia. Qed.






End RoundTrip.

Section FormatRules.

Import GoStrings Strconv.

(** C6: [FormatType] buckets binary and string types three ways, with the
    fixed boundaries 2 and 4000 and the upper one inclusive: a size below 2
    gives [raw(1)] or [char(1)], a size above 4000 gives [blob] or [clob],
    and a size in between gives [raw(size)] or [varchar2(size)]; so
    [Binary{Size:1}] is [raw(1)], [Binary{Size:4001}] is [blob] and
    [String{Size:4000}] is [varchar2(4000)]. *)
Theorem FormatType_buckets (T : string) (n : Z) :
  (n < 2 -> FormatType (BinaryType T n) = Ok "raw(1)")
  /\ (4000 < n -> FormatType (BinaryType T n) = Ok "blob")
  /\ (2 <= n <= 4000 ->
      FormatType (BinaryType T n) = Ok ("raw(" +:+ FormatInt n +:+ ")"))
  /\ (n < 2 -> FormatType (StringType T n) = Ok "char(1)")
  /\ (4000 < n -> FormatType (StringType T n) = Ok "clob")
  /\ (2 <= n <= 4000 ->
      FormatType (StringType T n) = Ok ("varchar2(" +:+ FormatInt n +:+ ")"))
  /\ FormatType (BinaryType T 1) = Ok "raw(1)"
  /\ FormatType (BinaryType T 4001) = Ok "blob"
  /\ FormatType (StringType T 4000) = Ok "varchar2(4000)".
Proof.
  unfold FormatType.
  repeat split; try reflexivity; intros Hn;
    destruct (Z.ltb_spec n 2); destruct (Z.ltb_spec 4000 n);
    try lia; reflexivity.
Qed.

Lemma bound_2000 : 2 <= 2000 <= 4000.
Proof. lia. Qed.

Lemma FormatType_buckets_witness :
  FormatType (BinaryType "raw" 2000) = Ok "raw(2000)".
Proof.
  exact (proj1 (proj2 (proj2 (FormatType_buckets "raw" 2000))) bound_2000).
Defined.

(** C5: formatting a decimal type. A negative scale is an error; a scale
    that is not zero with a zero precision is an error; precision and scale
    both zero give the bare [number]; a zero scale with a precision gives
    [number(precision)]; any other combination gives
    [number(precision,scale)]. So [Decimal{0,2}] fails on the precision,
    [Decimal{0,-1}] fails on the scale and [Decimal{10,0}] is [number(10)]. *)
Theorem FormatType_decimal (T : string) (p s : Z) :
  (s < 0 ->
   FormatType (DecimalType T p s) =
   Err (Errorf "oracle: decimal type must have scale >= 0: %d" [ArgInt s]))
  /\ (p = 0 -> 0 < s ->
      FormatType (DecimalType T p s) =
      Err (Errorf "oracle: decimal type must have precision between 1 and 1000: %d"
             [ArgInt p]))
  /\ (p = 0 -> s <> 0 -> exists e, FormatType (DecimalType T p s) = Err e)
  /\ (p = 0 -> s = 0 -> FormatType (DecimalType T p s) = Ok "number")
  /\ (p <> 0 -> s = 0 ->
      FormatType (DecimalType T p s) = Ok ("number(" +:+ FormatInt p +:+ ")"))
  /\ (p <> 0 -> 0 < s ->
      FormatType (DecimalType T p s) =
      Ok ("number(" +:+ FormatInt p +:+ "," +:+ FormatInt s +:+ ")"))
  /\ FormatType (DecimalType T 0 2) =
     Err (Errorf "oracle: decimal type must have precision between 1 and 1000: %d"
            [ArgInt 0])
  /\ FormatType (DecimalType T 0 (-1)) =
     Err (Errorf "oracle: decimal type must have scale >= 0: %d" [ArgInt (-1)])
  /\ FormatType (DecimalType T 10 0) = Ok "number(10)".
Proof.
  unfold FormatType.
  repeat split; try reflexivity; intros;
    destruct (Z.eqb_spec p 0); destruct (Z.eqb_spec s 0);
    destruct (Z.ltb_spec s 0); destruct (Z.ltb_spec 0 s);
    try lia; simpl; eauto.
Qed.

Lemma scale_3_positive : 12 <> 0 /\ 0 < 3.
Proof. lia. Qed.

Lemma FormatType_decimal_witness :
  FormatType (DecimalType "number" 12 3) = Ok "number(12,3)".
Proof.
  exact (proj1 (proj2 (proj2 (proj2 (proj2 (proj2
           (FormatType_decimal "number" 12 3))))))
           (proj1 scale_3_positive) (proj2 scale_3_positive)).
Defined.

Lemma columnType_unrecognized (c : columnDesc) :
  one_of (ToLower (typ c)) recognized = false ->
  columnType c = UnsupportedType (typ c).
Proof.
  unfold columnType, one_of, recognized. cbn [existsb].
  intros H.
  repeat match type of H with
         | (_ || _)%bool = false => apply orb_false_iff in H as [? H]
         end.
  repeat match goal with
         | E : String.eqb _ _ = false |- _ => rewrite E; clear E
         end.
  cbn [orb]. now destruct (_ || _)%bool.
Qed.

(** C8: [FormatType] on an [UnsupportedType], or on a type outside the
    canonical variants, fails with an error that names the type and prints
    nothing; whenever it prints a spelling the type is a supported variant.
    Normalization does produce unsupported types: the interval types and
    every (ASCII) name it does not recognize. *)
Theorem FormatType_unsupported :
  (forall T, FormatType (UnsupportedType T) =
             Err (Errorf "oracle: unsupported type: %q" [ArgString T]))
  /\ (forall t, canonical_variant t = false ->
                FormatType t = Err (Errorf "oracle: invalid schema type: %T" [ArgType t]))
  /\ (forall t s, FormatType t = Ok s -> supported t = true)
  /\ (forall c, all_bytes is_ascii (typ c) = true ->
                one_of (ToLower (typ c)) recognized = false ->
                columnType c = UnsupportedType (typ c)
                /\ exists e, FormatType (columnType c) = Err e).
Proof.
  split; [reflexivity|]. split; [|split].
  - intros t Ht. destruct t; try discriminate Ht; reflexivity.
  - intros t s Ht. destruct t; try reflexivity; discriminate Ht.
  - intros c _ Hc. rewrite (columnType_unrecognized c Hc). split; [reflexivity|].
    eexists. reflexivity.
Qed.

Lemma FormatType_unsupported_witness :
  columnType (Build_columnDesc "INTERVAL DAY SECOND" 0 "" 0 0 "" 0 [])
  = UnsupportedType "INTERVAL DAY SECOND"
  /\ exists e,
       FormatType (columnType (Build_columnDesc "INTERVAL DAY SECOND" 0 "" 0 0 "" 0 []))
       = Err e.
Proof.
  exact (proj2 (proj2 (proj2 FormatType_unsupported))
           (Build_columnDesc "INTERVAL DAY SECOND" 0 "" 0 0 "" 0 []) eq_refl eq_refl).
Defined.

End FormatRules.

Module SemverFacts.
Import Semver.

Lemma parseInt_no_digit (c : ascii) (rest : string) :
  is_digit c = false -> parseInt (String c rest) = None.
Proof. intros H. unfold parseInt. now rewrite H. Qed.

Lemma is_digit_not_zero_char (c : ascii) :
  is_digit c = false -> Ascii.eqb c "0" = false.
Proof.
  intros H. destruct (Ascii.eqb_spec c "0") as [->|]; [discriminate H | reflexivity].
Qed.

Lemma substring_full (s : string) : String.substring 0 (String.length s) s = s.
Proof. induction s as [|c s IH]; [reflexivity|]. simpl. now rewrite IH. Qed.

Lemma str_drop_1 (c : ascii) (s : string) : str_drop 1 (String c s) = s.
Proof. unfold str_drop. simpl. rewrite Nat.sub_0_r. apply substring_full. Qed.

Lemma str_drop_2 (c d : ascii) (s : string) : str_drop 2 (String c (String d s)) = s.
Proof. unfold str_drop. simpl. rewrite Nat.sub_0_r. apply substring_full. Qed.

(** One digit, then a byte that is no digit. *)
Lemma parseInt_one (c x : ascii) (rest : string) :
  is_digit c = true -> is_digit x = false ->
  parseInt (String c (String x rest)) =
  Some (String c "", String x rest).
Proof.
  intros Hc Hx. unfold parseInt. rewrite Hc. cbn [negb digit_run]. rewrite Hc, Hx.
  cbn [Nat.eqb negb]. rewrite andb_false_r, str_drop_1. reflexivity.
Qed.

(** Two digits, then a byte that is no digit. *)
Lemma parseInt_two (c1 c2 x : ascii) (rest : string) :
  is_digit c1 = true -> is_digit c2 = true -> is_digit x = false ->
  parseInt (String c1 (String c2 (String x rest))) =
  if Ascii.eqb c1 "0" then None
  else Some (String c1 (String c2 ""), String x rest).
Proof.
  intros H1 H2 Hx. unfold parseInt. rewrite H1. cbn [negb digit_run].
  rewrite H1, H2, Hx. cbn [Nat.eqb negb]. rewrite andb_true_r, str_drop_2.
  destruct (Ascii.eqb c1 "0"); reflexivity.
Qed.

(** One digit, then a last byte that is no digit. *)
Lemma parseInt_one_end (c x : ascii) :
  is_digit c = true -> is_digit x = false ->
  parseInt (String c (String x "")) = Some (String c "", String x "").
Proof. intros Hc Hx. now rewrite parseInt_one. Qed.

(** Two digits at the end of the text. *)
Lemma parseInt_two_end (c1 c2 : ascii) :
  is_digit c1 = true -> is_digit c2 = true ->
  parseInt (String c1 (String c2 "")) =
  if Ascii.eqb c1 "0" then None else Some (String c1 (String c2 ""), "").
Proof.
  intros H1 H2. unfold parseInt. rewrite H1. cbn [negb digit_run].
  rewrite H1, H2. cbn [Nat.eqb negb]. rewrite andb_true_r.
  destruct (Ascii.eqb c1 "0"); reflexivity.
Qed.

Lemma dot_no_digit : is_digit "." = false.
Proof. reflexivity. Qed.


(** The version [vAB.CD.EF] that [Open] builds from six bytes is a semantic
    version only when the three pairs are two digits with no leading zero. *)
Lemma parse_dotted (a b c d e f : ascii) :
  parse (dotted a b c d e f) =
  if two_digits a b && two_digits c d && two_digits e f
  then Some (Build_parsed (String a (String b "")) (String c (String d ""))
               (String e (String f "")) "" "" "")
  else None.
Proof.
  unfold parse, dotted, two_digits.
  cbn [head_is tail Ascii.eqb Bool.eqb negb andb].
  (* the major version *)
  destruct (is_digit a) eqn:Ha;
    [|rewrite parseInt_no_digit by assumption; reflexivity].
  destruct (is_digit b) eqn:Hb.
  2:{ rewrite parseInt_one by assumption. cbn [String.eqb head_is negb tail andb].
      destruct (Ascii.eqb_spec "." b) as [<-|]; cbn [negb]; [|reflexivity].
      rewrite (parseInt_no_digit ".") by reflexivity. reflexivity. }
  rewrite (parseInt_two a b ".") by (assumption || reflexivity).
  destruct (Ascii.eqb a "0"); [reflexivity|].
  cbn [String.eqb head_is negb tail andb Ascii.eqb Bool.eqb].
  (* the minor version *)
  destruct (is_digit c) eqn:Hc;
    [|rewrite parseInt_no_digit by assumption; reflexivity].
  destruct (is_digit d) eqn:Hd.
  2:{ rewrite parseInt_one by assumption. cbn [String.eqb head_is negb tail andb].
      destruct (Ascii.eqb_spec "." d) as [<-|]; cbn [negb]; [|reflexivity].
      rewrite (parseInt_no_digit ".") by reflexivity. reflexivity. }
  rewrite (parseInt_two c d ".") by (assumption || reflexivity).
  destruct (Ascii.eqb c "0"); [reflexivity|].
  cbn [String.eqb head_is negb tail andb Ascii.eqb Bool.eqb].
  (* the patch version *)
  destruct (is_digit e) eqn:He;
    [|rewrite parseInt_no_digit by assumption; reflexivity].
  destruct (is_digit f) eqn:Hf.
  2:{ rewrite parseInt_one_end by assumption.
      cbn [head_is].
      destruct (Ascii.eqb_spec "-" f) as [<-|]; [reflexivity|].
      cbn [head_is].
      destruct (Ascii.eqb_spec "+" f) as [<-|]; [reflexivity|].
      reflexivity. }
  rewrite parseInt_two_end by assumption.
  destruct (Ascii.eqb e "0"); reflexivity.
Qed.

(** Every valid [vAB.CD.EF] is above [v10.0.0]: a pair with no leading zero
    is at least 10, and a two-digit minor version is above [0]. *)
Lemma is_digit_cases (a : ascii) :
  is_digit a = true ->
  In a ["0"; "1"; "2"; "3"; "4"; "5"; "6"; "7"; "8"; "9"]%char.
Proof.
  destruct a as [[] [] [] [] [] [] [] []]; intros H; try discriminate H;
    simpl; tauto.
Qed.

Lemma compareInt_pair_10 (a b : ascii) :
  two_digits a b = true ->
  compareInt (String a (String b "")) "10" = 0
  \/ compareInt (String a (String b "")) "10" = 1.
Proof.
  unfold two_digits. intros H.
  apply andb_true_iff in H as [H Hz]. apply andb_true_iff in H as [Ha Hb].
  apply is_digit_cases in Ha, Hb. simpl in Ha, Hb.
  repeat match goal with
         | H : _ \/ _ |- _ => destruct H as [<-|H]
         | H : False |- _ => destruct H
         end; try discriminate Hz; vm_compute; tauto.
Qed.

Lemma compareInt_pair_0 (c d : ascii) :
  compareInt (String c (String d "")) "0" = 1.
Proof.
  unfold compareInt. cbn [String.eqb String.length Nat.ltb Nat.leb].
  destruct (Ascii.eqb c "0"); reflexivity.
Qed.

(** [semver.Compare] on the version that [Open] builds: it is below
    [v10.0.0] exactly when it is not valid. *)
Lemma Compare_dotted (a b c d e f : ascii) :
  Compare (dotted a b c d e f) "v10.0.0" =
  if two_digits a b && two_digits c d && two_digits e f then 1 else -1.
Proof.
  unfold Compare. rewrite parse_dotted.
  change (parse "v10.0.0") with (Some (Build_parsed "10" "0" "0" "" "" "")).
  destruct (two_digits a b) eqn:Hab; [|reflexivity].
  destruct (two_digits c d) eqn:Hcd; [|reflexivity].
  destruct (two_digits e f) eqn:Hef; [|reflexivity].
  cbn [andb major minor patch prerelease].
  destruct (compareInt_pair_10 a b Hab) as [-> | ->]; [|reflexivity].
  cbn [Z.eqb negb]. rewrite compareInt_pair_0. reflexivity.
Qed.

End SemverFacts.

Section DefaultPrecisions.

Import GoStrings Strconv.

(** C9 (as amended): for a text whose first field is [double], [int] or
    [float], [parseColumn] gives the descriptor the precision 53, 32 or 24
    (whatever follows the keyword), and the descriptor goes through
    [columnType]: the float type of [double] and [float] carries 53 and 24,
    while the integer type of [int] keeps the type name only. *)
Theorem parseColumn_default_precision (s kw : string) (rest : list string) :
  FieldsFunc s is_separator = kw :: rest ->
  (kw = TypeDouble ->
   parseColumn s = Ok (Build_columnDesc kw 0 "" 53 0 "" 0 (kw :: rest))
   /\ ParseType s = Ok (FloatType kw 53)
   /\ type_precision (FloatType kw 53) = Some 53)
  /\ (kw = TypeInt ->
      parseColumn s = Ok (Build_columnDesc kw 0 "" 32 0 "" 0 (kw :: rest))
      /\ ParseType s = Ok (IntegerType kw)
      /\ type_precision (IntegerType kw) = None)
  /\ (kw = TypeFloat ->
      parseColumn s = Ok (Build_columnDesc kw 0 "" 24 0 "" 0 (kw :: rest))
      /\ ParseType s = Ok (FloatType kw 24)
      /\ type_precision (FloatType kw 24) = Some 24).
Proof.
  intros Hs.
  repeat split; subst kw; unfold ParseType, parseColumn; rewrite Hs; reflexivity.
Qed.

Lemma parseColumn_default_precision_witness :
  parseColumn "double" = Ok (Build_columnDesc "double" 0 "" 53 0 "" 0 ["double"])
  /\ ParseType "double" = Ok (FloatType "double" 53)
  /\ type_precision (FloatType "double" 53) = Some 53.
Proof.
  exact (proj1 (parseColumn_default_precision "double" "double" [] eq_refl) eq_refl).
Defined.

(** C9 fails as stated for [int]: the descriptor has the precision 32, but
    the canonical type that [ParseType] returns for it carries none. *)
Lemma ParseType_int_no_precision :
  parseColumn "int" = Ok (Build_columnDesc "int" 0 "" 32 0 "" 0 ["int"])
  /\ ParseType "int" = Ok (IntegerType "int")
  /\ ~ (exists t, ParseType "int" = Ok t /\ type_precision t = Some 32).
Proof.
  repeat split. intros (t & Ht & Hp).
  change (ParseType "int") with (Ok (IntegerType "int")) in Ht.
  injection Ht as <-. discriminate Hp.
Qed.

End DefaultPrecisions.

Section OpenVersion.

Import SqlxModel.

(** C10, at the failing input: the parameters query returns three values
    and the version [110200] (11.02.00). The version is reformatted to
    [11.02.00], which is no valid semantic version because of the leading
    zeros, so [semver.Compare] ranks it below [v10.0.0] and [Open] succeeds
    for a version above 10.0.0. *)
Theorem Open_accepts_110200 :
  Semver.parse "v11.02.00" = None
  /\ Semver.Compare "v11.02.00" "v10.0.0" = -1
  /\ Open (db_params ["BINARY"; "AL32UTF8"; "110200"]) =
     Ok (Build_Driver
           (Build_conn (db_params ["BINARY"; "AL32UTF8"; "110200"])
              "BINARY" "AL32UTF8" "11.02.00")).
Proof. repeat split. Qed.

(** [Open] does reject a version from 10.0.0 on when none of its three
    parts is padded with a zero. *)
Lemma Open_rejects_121212 :
  Open (db_params ["BINARY"; "AL32UTF8"; "121212"]) =
  Err (Errorf "oracle: unsupported oracle version: %s" [ArgString "12.12.12"]).
Proof. reflexivity. Qed.

(** X12: [Open] fails unless the query gives three values and the version has
    six bytes. *)
Lemma Open_Ok_shape (db : ExecQuerier) (d : Driver) :
  Open db = Ok d ->
  exists rows c t v,
    QueryStrings db paramsQuery [] = Ok rows
    /\ ScanStrings rows = Ok [c; t; v]
    /\ String.length v = 6%nat.
Proof.
  unfold Open. intros H.
  destruct (QueryStrings db paramsQuery []) as [rows| |] eqn:Eq; try discriminate H.
  cbn [wrap_err mbind result_bind] in H.
  destruct (ScanStrings rows) as [params| |] eqn:Es; try discriminate H.
  cbn [wrap_err mbind result_bind] in H.
  destruct params as [|c [|t [|v [|]]]]; try discriminate H.
  cbn [length Nat.eqb negb index_at lookup list_lookup mbind result_bind] in H.
  destruct (Nat.eqb_spec (String.length v) 6) as [Hv|]; [|discriminate H].
  exists rows, c, t, v. auto.
Qed.

Lemma Open_Ok_shape_witness :
  exists rows c t v,
    QueryStrings (db_params ["BINARY"; "AL32UTF8"; "090200"]) paramsQuery [] = Ok rows
    /\ ScanStrings rows = Ok [c; t; v]
    /\ String.length v = 6%nat.
Proof.
  exact (Open_Ok_shape (db_params ["BINARY"; "AL32UTF8"; "090200"])
           (Build_Driver
              (Build_conn (db_params ["BINARY"; "AL32UTF8"; "090200"])
                 "BINARY" "AL32UTF8" "09.02.00"))
           eq_refl).
Defined.

(** X13: The gate of [Open] on a version of six bytes: the version is refused
    when each of its three pairs is a number from 10 to 99, and accepted in
    every other case, whatever the bytes are. *)
Lemma Open_version_gate (db : ExecQuerier) (rows : Rows string) (c t : string)
    (v1 v2 v3 v4 v5 v6 : ascii) :
  QueryStrings db paramsQuery [] = Ok rows ->
  ScanStrings rows = Ok [c; t; six_bytes v1 v2 v3 v4 v5 v6] ->
  Open db =
  if two_digits v1 v2 && two_digits v3 v4 && two_digits v5 v6 then
    Err (Errorf "oracle: unsupported oracle version: %s"
           [ArgString (String v1 (String v2 (String "." (String v3 (String v4
              (String "." (String v5 (String v6 ""))))))))])
  else
    Ok (Build_Driver
          (Build_conn db c t
             (String v1 (String v2 (String "." (String v3 (String v4
                (String "." (String v5 (String v6 "")))))))))).
Proof.
  intros Hq Hs. unfold Open. rewrite Hq. cbn [wrap_err mbind result_bind].
  rewrite Hs. cbn [wrap_err mbind result_bind].
  cbn [length Nat.eqb negb index_at lookup list_lookup mbind result_bind].
  change (go_slice (six_bytes v1 v2 v3 v4 v5 v6) 0 2) with (Ok (String v1 (String v2 ""))).
  change (go_slice (six_bytes v1 v2 v3 v4 v5 v6) 2 4) with (Ok (String v3 (String v4 ""))).
  change (go_slice (six_bytes v1 v2 v3 v4 v5 v6) 4
            (Z.of_nat (String.length (six_bytes v1 v2 v3 v4 v5 v6))))
    with (Ok (String v5 (String v6 ""))).
  cbn [String.length six_bytes Nat.eqb negb mbind result_bind].
  change ("v" +:+ String v1 (String v2 "") +:+ "." +:+ String v3 (String v4 "")
            +:+ "." +:+ String v5 (String v6 ""))
    with (dotted v1 v2 v3 v4 v5 v6).
  rewrite SemverFacts.Compare_dotted.
  destruct (two_digits v1 v2 && two_digits v3 v4 && two_digits v5 v6); reflexivity.
Qed.

End OpenVersion.

(** ** Classifying column defaults *)

Module SubstringFacts.

Lemma substring_0_app (q s : string) :
  String.substring 0 (String.length q) (q +:+ s) = q.
Proof.
  induction q as [|c q IH]; [now destruct s|].
  rewrite StringFacts.app_cons. simpl. now rewrite IH.
Qed.

Lemma substring_skip (q s : string) (m : nat) :
  String.substring (String.length q) m (q +:+ s) = String.substring 0 m s.
Proof.
  induction q as [|c q IH]; [reflexivity|].
  rewrite StringFacts.app_cons. simpl. exact IH.
Qed.

(** A part of [q] is the same part of every text that starts with [q]. *)
Lemma substring_in_prefix (q s : string) (n m : nat) :
  (n + m <= String.length q)%nat ->
  String.substring n m (q +:+ s) = String.substring n m q.
Proof.
  revert n m. induction q as [|c q IH]; intros n m Hnm.
  - simpl in Hnm. assert (n = 0%nat) as -> by lia. assert (m = 0%nat) as -> by lia.
    now destruct s.
  - rewrite StringFacts.app_cons. simpl in Hnm.
    destruct n as [|n]; simpl.
    + destruct m as [|m]; [reflexivity|]. f_equal. apply IH. lia.
    + apply IH. lia.
Qed.

Lemma occurs_at_middle (q sub rest : string) :
  occurs_at sub (q +:+ sub +:+ rest) (String.length q).
Proof.
  unfold occurs_at. rewrite substring_skip. apply substring_0_app.
Qed.

(** [strings.Index] finds nothing when the text has no occurrence. *)
Lemma Index_None (x sub : string) :
  (forall p, ~ occurs_at sub x p) -> GoStrings.Index x sub = None.
Proof.
  intros Hno. unfold GoStrings.Index.
  destruct (String.index 0 sub x) as [m|] eqn:E; [|reflexivity].
  apply String.index_correct1 in E. now apply Hno in E.
Qed.

(** [strings.Index] finds the first occurrence. *)
Lemma Index_first (q sub rest : string) :
  sub <> "" ->
  (forall p, (p < String.length q)%nat -> ~ occurs_at sub (q +:+ sub +:+ rest) p) ->
  GoStrings.Index (q +:+ sub +:+ rest) sub = Some (String.length q).
Proof.
  intros Hne Hfirst. unfold GoStrings.Index.
  pose proof (occurs_at_middle q sub rest) as Hocc.
  destruct (String.index 0 sub (q +:+ sub +:+ rest)) as [m|] eqn:E.
  - f_equal.
    pose proof (String.index_correct1 _ _ _ _ E) as Hm.
    pose proof (String.index_correct2 _ _ _ _ E) as Hmin.
    destruct (Nat.lt_trichotomy m (String.length q)) as [Hlt|[Heq|Hgt]].
    + exfalso. exact (Hfirst m Hlt Hm).
    + exact Heq.
    + exfalso. apply (Hmin (String.length q)); [lia | exact Hgt | exact Hocc].
  - exfalso.
    exact (String.index_correct3 0 (String.length q) _ _ E Hne ltac:(lia) Hocc).
Qed.

(** The two texts of the examples of the spec. *)
Lemma date_cast_first (p : nat) :
  (p < String.length "'2021-01-01'")%nat ->
  ~ occurs_at ("::" +:+ "date") "'2021-01-01'::date" p.
Proof.
  intros Hp. unfold occurs_at.
  do 12 (destruct p as [|p]; [discriminate|]). cbn in Hp. lia.
Qed.

Lemma now_no_cast (r : string) (p : nat) : ~ occurs_at ("::" +:+ r) "now()" p.
Proof.
  unfold occurs_at. change ("::" +:+ r) with (String ":" (String ":" r)).
  cbn [String.length].
  do 5 (destruct p as [|p]; [discriminate|]). destruct p; discriminate.
Qed.

End SubstringFacts.

Section DefaultExpr.

Context `{Sqlx}.

Lemma go_slice_prefix (q s : string) :
  go_slice (q +:+ s) 0 (Z.of_nat (String.length q)) = Ok q.
Proof.
  unfold go_slice, GoStrings.slice.
  rewrite StringFacts.length_app.
  destruct (Z.leb_spec 0 0); [|lia].
  destruct (Z.leb_spec 0 (Z.of_nat (String.length q))); [|lia].
  destruct (Z.leb_spec (Z.of_nat (String.length q))
              (Z.of_nat (String.length q + String.length s))); [|lia].
  cbn [andb]. rewrite Z.sub_0_r, Nat2Z.id. change (Z.to_nat 0) with 0%nat.
  now rewrite SubstringFacts.substring_0_app.
Qed.

Lemma go_slice_unquote (q s : string) :
  (2 <= String.length q)%nat ->
  go_slice (q +:+ s) 1 (Z.of_nat (String.length q) - 1) = Ok (unquote q).
Proof.
  intros Hq. unfold go_slice, GoStrings.slice, unquote.
  rewrite StringFacts.length_app.
  destruct (Z.leb_spec 0 1); [|lia].
  destruct (Z.leb_spec 1 (Z.of_nat (String.length q) - 1)); [|lia].
  destruct (Z.leb_spec (Z.of_nat (String.length q) - 1)
              (Z.of_nat (String.length q + String.length s))); [|lia].
  cbn [andb].
  replace (Z.to_nat (Z.of_nat (String.length q) - 1 - 1)) with (String.length q - 2)%nat by lia.
  change (Z.to_nat 1) with 1%nat.
  now rewrite SubstringFacts.substring_in_prefix by lia.
Qed.

Lemma cast_sub_nonempty (r : string) : "::" +:+ r <> "".
Proof. discriminate. Qed.

(** [canConvert] when the cast does not occur in the text. *)
Lemma canConvert_no_cast (t : ColumnType) (x : string) :
  (forall p, ~ occurs_at ("::" +:+ cast_name t) x p) ->
  canConvert t x = Ok ("", false).
Proof.
  intros Hno. unfold canConvert. fold (cast_name t).
  now rewrite SubstringFacts.Index_None.
Qed.

(** [canConvert] on a text [q::name...] where the cast occurs first after [q]. *)
Lemma canConvert_cast (t : ColumnType) (q rest : string) :
  (forall s, IsQuoted s "'" = true -> (2 <= String.length s)%nat) ->
  (forall p, (p < String.length q)%nat ->
             ~ occurs_at ("::" +:+ cast_name t) (q +:+ ("::" +:+ cast_name t) +:+ rest) p) ->
  canConvert t (q +:+ ("::" +:+ cast_name t) +:+ rest) =
  Ok (if negb (IsQuoted q "'") then ("", false)
      else match cast_kind_of (ct_Type t) with
           | CastBool =>
               if IsLiteralBool (unquote q) then (unquote q, true) else ("", false)
           | CastNumber =>
               if IsLiteralNumber (unquote q) then (unquote q, true) else ("", false)
           | CastText => (q, true)
           | CastNone => ("", false)
           end).
Proof.
  intros Hlen Hfirst. unfold canConvert. fold (cast_name t).
  rewrite SubstringFacts.Index_first by (apply cast_sub_nonempty || exact Hfirst).
  rewrite go_slice_prefix. cbn [mbind result_bind].
  destruct (IsQuoted q "'") eqn:Eq; cbn [negb]; [|reflexivity].
  rewrite go_slice_unquote by now apply Hlen.
  cbn [mbind result_bind].
  destruct (ct_Type t); cbn [cast_kind_of];
    repeat match goal with
           | |- context [if ?b then _ else _] => destruct b
           end; reflexivity.
Qed.

(** C7 (as amended): the default classifier returns the text as a literal
    when it is a boolean literal, a numeric literal or a quoted text.
    Otherwise it looks for the first occurrence of [::] followed by the raw
    type name of the column (the element type for an array column); what
    comes after that name is not looked at. When the text [q] before that
    occurrence is quoted, a boolean column with a boolean literal inside
    the quotes and a numeric column with a numeric literal inside them give
    that inner text as a literal, without the quotes, and a string, time,
    binary, JSON, UUID, XML, array, network or spatial column gives the
    quoted text [q] as a literal. In every other case the result is a raw
    expression that holds the text as it was given. So [now()], when it
    is no literal, is a raw expression on every column, and
    ['2021-01-01'::date] on a time column whose raw type is [date] is the
    literal ['2021-01-01']. *)
Theorem defaultExpr_classifies
    (Hlen : forall s, IsQuoted s "'" = true -> (2 <= String.length s)%nat)
    (c : Column) (x : string) :
  let is_literal := IsLiteralBool x || IsLiteralNumber x || IsQuoted x "'" in
  let cast := "::" +:+ cast_name (col_Type c) in
  (is_literal = true -> defaultExpr c x = Ok (Literal x))
  /\ (is_literal = false ->
      (forall p, ~ occurs_at cast x p) ->
      defaultExpr c x = Ok (RawExpr x))
  /\ (is_literal = false ->
      forall q rest,
        x = q +:+ cast +:+ rest ->
        (forall p, (p < String.length q)%nat -> ~ occurs_at cast x p) ->
        defaultExpr c x =
        Ok (if negb (IsQuoted q "'") then RawExpr x
            else match cast_kind_of (ct_Type (col_Type c)) with
                 | CastBool =>
                     if IsLiteralBool (unquote q) then Literal (unquote q)
                     else RawExpr x
                 | CastNumber =>
                     if IsLiteralNumber (unquote q) then Literal (unquote q)
                     else RawExpr x
                 | CastText => Literal q
                 | CastNone => RawExpr x
                 end))
  /\ (IsLiteralBool "now()" || IsLiteralNumber "now()" || IsQuoted "now()" "'" = false ->
      defaultExpr c "now()" = Ok (RawExpr "now()"))
  /\ (forall T,
        ct_Type (col_Type c) = TimeType T ->
        ct_Raw (col_Type c) = "date" ->
        IsLiteralBool "'2021-01-01'::date" || IsLiteralNumber "'2021-01-01'::date"
        || IsQuoted "'2021-01-01'::date" "'" = false ->
        IsQuoted "'2021-01-01'" "'" = true ->
        defaultExpr c "'2021-01-01'::date" = Ok (Literal "'2021-01-01'")).
Proof.
  assert (Hcast : forall x,
    IsLiteralBool x || IsLiteralNumber x || IsQuoted x "'" = false ->
    forall q rest,
      x = q +:+ ("::" +:+ cast_name (col_Type c)) +:+ rest ->
      (forall p, (p < String.length q)%nat ->
                 ~ occurs_at ("::" +:+ cast_name (col_Type c)) x p) ->
      defaultExpr c x =
      Ok (if negb (IsQuoted q "'") then RawExpr x
          else match cast_kind_of (ct_Type (col_Type c)) with
               | CastBool =>
                   if IsLiteralBool (unquote q) then Literal (unquote q)
                   else RawExpr x
               | CastNumber =>
                   if IsLiteralNumber (unquote q) then Literal (unquote q)
                   else RawExpr x
               | CastText => Literal q
               | CastNone => RawExpr x
               end)).
  { intros x' Hlit q rest -> Hfirst. unfold defaultExpr. rewrite Hlit.
    rewrite (canConvert_cast _ q rest Hlen Hfirst).
    destruct (IsQuoted q "'"); cbn [negb]; [|reflexivity].
    destruct (cast_kind_of (ct_Type (col_Type c)));
      repeat match goal with
             | |- context [if ?b then _ else _] => destruct b
             end; reflexivity. }
  intros is_literal cast. subst cast.
  split; [|split; [|split; [|split]]].
  - unfold defaultExpr. fold is_literal. intros ->. reflexivity.
  - unfold defaultExpr. fold is_literal. intros -> Hno. now rewrite canConvert_no_cast.
  - intros Hlit q rest. now apply Hcast.
  - intros Hlit. unfold defaultExpr. rewrite Hlit.
    rewrite canConvert_no_cast; [reflexivity|].
    intros p. apply SubstringFacts.now_no_cast.
  - intros T HT Hraw Hlit Hq.
    assert (Hname : cast_name (col_Type c) = "date")
      by (unfold cast_name; now rewrite HT).
    rewrite (Hcast "'2021-01-01'::date" Hlit "'2021-01-01'" "").
    + now rewrite Hq, HT.
    + now rewrite Hname.
    + rewrite Hname. apply SubstringFacts.date_cast_first.
Qed.

End DefaultExpr.

(** ** Index and check assembly *)

Module LoopFacts.

Lemma for_each_app {A S : Type} (body : S -> A -> result S) (l1 l2 : list A) (st : S) :
  for_each body (l1 ++ l2) st = for_each body l1 st ≫= for_each body l2.
Proof.
  revert st. induction l1 as [|a l1 IH]; intros st; [reflexivity|].
  simpl. destruct (body st a) as [st'| |]; simpl; [apply IH | reflexivity | reflexivity].
Qed.

Lemma find_column_names (n : string) (cols1 cols2 : list Column) (i : nat) :
  map col_Name cols1 = map col_Name cols2 ->
  find_column n cols1 i = find_column n cols2 i.
Proof.
  revert cols2 i. induction cols1 as [|c cols1 IH]; intros [|c2 cols2] i Hn;
    try discriminate Hn; [reflexivity|].
  simpl in Hn. injection Hn as Hc Hn. simpl. rewrite Hc.
  destruct (String.eqb (col_Name c2) n); [reflexivity | now apply IH].
Qed.

Lemma alter_names (f : Column -> Column) (i : nat) (cols : list Column) :
  (forall c, col_Name (f c) = col_Name c) ->
  map col_Name (alter f i cols) = map col_Name cols.
Proof.
  intros Hf. revert i. induction cols as [|c cols IH]; intros [|i]; simpl;
    try reflexivity.
  - now rewrite Hf.
  - f_equal. apply IH.
Qed.

Lemma Table_Column_names (t1 t2 : Table) (n : string) :
  map col_Name (tbl_Columns t1) = map col_Name (tbl_Columns t2) ->
  Table_Column t1 n = Table_Column t2 n.
Proof. intros Hn. unfold Table_Column. now apply find_column_names. Qed.

End LoopFacts.

Section IndexFacts.

Context `{Sqlx}.

Implicit Types (r c : index_row) (rows cs : list index_row) (n : string).

Lemma creates_snoc rows r :
  creates (rows ++ [r]) =
  if has_name (ir_name r) (creates rows) then creates rows else creates rows ++ [r].
Proof. unfold creates. rewrite fold_left_app. reflexivity. Qed.

Lemma has_name_app n cs1 cs2 :
  has_name n (cs1 ++ cs2) = has_name n cs1 || has_name n cs2.
Proof. unfold has_name. apply existsb_app. Qed.

Lemma has_name_true n cs :
  has_name n cs = true <-> exists j c, cs !! j = Some c /\ ir_name c = n.
Proof.
  unfold has_name. rewrite existsb_exists. split.
  - intros (c & Hin & Hc). apply String.eqb_eq in Hc.
    apply list_elem_of_In, list_elem_of_lookup in Hin as [j Hj]. eauto.
  - intros (j & c & Hj & Hc). exists c. split.
    + apply list_elem_of_In, list_elem_of_lookup. eauto.
    + now apply String.eqb_eq.
Qed.

(** Every row has its name among the creating rows. *)
Lemma creates_covers rows r :
  In r rows -> has_name (ir_name r) (creates rows) = true.
Proof.
  induction rows as [|r' rows IH] using rev_ind; [intros []|].
  intros Hin. rewrite creates_snoc.
  destruct (has_name (ir_name r') (creates rows)) eqn:E.
  - apply in_app_or in Hin as [Hin|[<-|[]]]; [now apply IH | exact E].
  - rewrite has_name_app. apply in_app_or in Hin as [Hin|[<-|[]]].
    + now rewrite IH.
    + unfold has_name at 2. simpl. rewrite String.eqb_refl. now rewrite orb_true_r.
Qed.

(** The creating rows have distinct names. *)
Lemma creates_distinct rows j1 j2 c1 c2 :
  creates rows !! j1 = Some c1 ->
  creates rows !! j2 = Some c2 ->
  ir_name c1 = ir_name c2 ->
  j1 = j2.
Proof.
  revert j1 j2 c1 c2.
  induction rows as [|r rows IH] using rev_ind; intros j1 j2 c1 c2; [discriminate|].
  rewrite creates_snoc. destruct (has_name (ir_name r) (creates rows)) eqn:E; [apply IH|].
  intros H1 H2 Hn.
  apply lookup_snoc_Some in H1 as [[Hl1 H1]|[Hl1 <-]];
    apply lookup_snoc_Some in H2 as [[Hl2 H2]|[Hl2 <-]].
  - eapply IH; eauto.
  - exfalso. assert (has_name (ir_name r) (creates rows) = true); [|congruence].
    apply has_name_true. eauto.
  - exfalso. assert (has_name (ir_name r) (creates rows) = true); [|congruence].
    apply has_name_true. eauto.
  - congruence.
Qed.

Lemma rows_named_snoc n rows r :
  rows_named n (rows ++ [r]) =
  rows_named n rows ++ (if String.eqb (ir_name r) n then [r] else []).
Proof. unfold rows_named. rewrite List.filter_app. reflexivity. Qed.

(** No row has a name that is not among the creating rows. *)
Lemma rows_named_fresh n rows :
  has_name n (creates rows) = false -> rows_named n rows = [].
Proof.
  intros Hn. unfold rows_named.
  induction rows as [|r rows IH] using rev_ind; [reflexivity|].
  rewrite List.filter_app. rewrite creates_snoc in Hn.
  destruct (has_name (ir_name r) (creates rows)) eqn:E.
  - rewrite IH by exact Hn. simpl.
    destruct (String.eqb_spec (ir_name r) n) as [<-|]; [congruence | reflexivity].
  - rewrite has_name_app in Hn. apply orb_false_iff in Hn as [Hn Hr].
    rewrite IH by exact Hn. simpl.
    unfold has_name in Hr. simpl in Hr. rewrite orb_false_r in Hr. now rewrite Hr.
Qed.

Lemma positions_snoc (p : index_row -> bool) (base : nat) cs r :
  positions p base (cs ++ [r]) =
  positions p base cs ++ (if p r then [(base + length cs)%nat] else []).
Proof.
  revert base. induction cs as [|c cs IH]; intros base; simpl.
  - now rewrite Nat.add_0_r, app_nil_r.
  - rewrite IH, <- app_assoc.
    replace (S base + length cs)%nat with (base + S (length cs))%nat by lia.
    reflexivity.
Qed.

(** The index of a creating row does not change with a row of another name,
    and gets one more part with a row of its name. *)
Lemma index_of_other (t : Table) rows r c :
  ir_name r <> ir_name c ->
  index_of t (rows ++ [r]) c = index_of t rows c.
Proof.
  intros Hn. unfold index_of. rewrite rows_named_snoc.
  destruct (String.eqb_spec (ir_name r) (ir_name c)); [contradiction|].
  now rewrite app_nil_r.
Qed.

Lemma index_of_same (t : Table) rows r c :
  ir_name r = ir_name c ->
  index_of t (rows ++ [r]) c =
  Build_Index (ir_name c) (ir_uniq c) (index_attrs c)
    (idx_Parts (index_of t rows c)
       ++ [part_of_row t (length (idx_Parts (index_of t rows c))) r]).
Proof.
  intros Hn. unfold index_of. rewrite rows_named_snoc.
  rewrite Hn, String.eqb_refl. cbn [idx_Parts].
  rewrite imap_app, length_imap. cbn [imap]. now rewrite Nat.add_0_r.
Qed.

End IndexFacts.

Section AddIndexes.

Context `{Sqlx}.

Implicit Types (r c : index_row) (rows cs : list index_row) (n : string).

(** The attributes that the loop gives to a new index. *)
Lemma index_attrs_eq r :
  append_if (ValidString (ir_pred r)) (IndexPredicate (ns_String (ir_pred r)))
    (append_if (ValidString (ir_contype r)) (ConType (ns_String (ir_contype r)))
       (append_if (ValidString (ir_comment r)) (Comment (ns_String (ir_comment r)))
          [IndexType (ir_typ r)]))
  = index_attrs r.
Proof.
  unfold index_attrs, append_if.
  destruct (ValidString (ir_pred r)), (ValidString (ir_contype r)),
    (ValidString (ir_comment r)); reflexivity.
Qed.

(** Writing through a pointer into the store: the index of one creating
    row is replaced, the other ones stay. *)
Lemma insert_store {A B : Type} (f f' : A -> B) (S : list B) (l : list A) (j : nat) (a : A) :
  l !! j = Some a ->
  (forall j' a', l !! j' = Some a' -> j' <> j -> f' a' = f a') ->
  <[(length S + j)%nat := f' a]> (S ++ map f l) = S ++ map f' l.
Proof.
  intros Hj Hother.
  rewrite insert_app_r. f_equal.
  apply list_eq. intros i.
  destruct (decide (i = j)) as [->|Hne].
  - rewrite list_lookup_insert_eq.
    + now rewrite list_lookup_fmap, Hj.
    + rewrite length_map. now apply lookup_lt_Some in Hj.
  - rewrite list_lookup_insert_ne by congruence.
    rewrite !list_lookup_fmap.
    destruct (l !! i) as [a'|] eqn:Ei; [|reflexivity].
    simpl. f_equal. symmetry. now apply (Hother i).
Qed.

(** The state of the loop of [addIndexes] after the rows [rows]. *)
Lemma assembled_init (t : Table) : assembled t [] (t, ∅).
Proof.
  unfold assembled. cbn. rewrite !app_nil_r. repeat split; try reflexivity.
  - intros Hn. rewrite lookup_empty in Hn. discriminate.
  - intros (j & c & _ & Hj & _). discriminate.
Qed.

(** The part that a resolving row adds, as the code computes it. *)
Lemma resolve_part (t t' : Table) (idx : nat) (ix : Index) r :
  map col_Name (tbl_Columns t') = map col_Name (tbl_Columns t) ->
  resolves t r ->
  exists cols,
    map col_Name cols = map col_Name (tbl_Columns t)
    /\ (if ValidString (ir_expr r) then
          Ok (t', Build_IndexPart (Z.of_nat (length (idx_Parts ix)) + 1)
                    (Some (RawExpr (ns_String (ir_expr r)))) None
                    [IndexColumnProperty (nb_Bool (ir_asc r)) (nb_Bool (ir_desc r))
                       (nb_Bool (ir_nullsfirst r)) (nb_Bool (ir_nullslast r))])
        else if ValidString (ir_column r) then
          match Table_Column t' (ns_String (ir_column r)) with
          | None =>
              Err (Errorf "oracle: column %q was not found for index %q"
                     [ArgString (ns_String (ir_column r)); ArgString (idx_Name ix)])
          | Some ci =>
              Ok (with_Columns
                    (alter (add_Index idx) ci (tbl_Columns t')) t',
                  Build_IndexPart (Z.of_nat (length (idx_Parts ix)) + 1) None (Some ci)
                    [IndexColumnProperty (nb_Bool (ir_asc r)) (nb_Bool (ir_desc r))
                       (nb_Bool (ir_nullsfirst r)) (nb_Bool (ir_nullslast r))])
          end
        else Err (Errorf "oracle: invalid part for index %q" [ArgString (idx_Name ix)]))
       = Ok (with_Columns cols t', part_of_row t (length (idx_Parts ix)) r).
Proof.
  intros Hcols Hres. unfold part_of_row.
  destruct (ValidString (ir_expr r)) eqn:Ee.
  - exists (tbl_Columns t'). split; [exact Hcols|]. now destruct t'.
  - destruct Hres as [Hres|[Hc [ci Hci]]]; [congruence|].
    rewrite Hc, (LoopFacts.Table_Column_names t' t _ Hcols), Hci.
    eexists. split; [|reflexivity].
    now rewrite LoopFacts.alter_names by reflexivity.
Qed.

End AddIndexes.

Section AddIndexesStep.

Context `{Sqlx}.

Lemma assembled_step (t : Table) (rows : list index_row) (st : Table * gmap string nat)
    (r : index_row) :
  assembled t rows st ->
  resolves t r ->
  exists st', addIndexes_row st (Row r) = Ok st' /\ assembled t (rows ++ [r]) st'.
Proof.
  destruct st as [t' names].
  intros (Hstore & Hnames & Hcols & Hidx & Hpk) Hres. cbn [fst snd] in *.
  unfold addIndexes_row.
  destruct (names !! ir_name r) as [idx|] eqn:En.
  - (* the index is there already *)
    apply Hnames in En as (j & c & -> & Hj & Hc).
    assert (Hseen : has_name (ir_name r) (creates rows) = true)
      by (apply has_name_true; eauto).
    assert (Hix : tbl_store t' !! (length (tbl_store t) + j)%nat = Some (index_of t rows c)).
    { rewrite Hstore, lookup_app_r by lia.
      replace (length (tbl_store t) + j - length (tbl_store t))%nat with j by lia.
      now rewrite list_lookup_fmap, Hj. }
    rewrite Hix.
    destruct (resolve_part t t' (length (tbl_store t) + j) (index_of t rows c) r Hcols Hres)
      as (cols & Hcols' & ->).
    cbn [mbind result_bind].
    eexists. split; [reflexivity|].
    unfold assembled. cbn [fst snd].
    rewrite creates_snoc, Hseen.
    repeat split.
    + cbn [tbl_store with_store with_Columns]. rewrite Hstore.
      change (idx_Name (index_of t rows c)) with (ir_name c).
      change (idx_Unique (index_of t rows c)) with (ir_uniq c).
      change (idx_Attrs (index_of t rows c)) with (index_attrs c).
      rewrite <- (index_of_same t rows r c) by congruence.
      apply (insert_store (index_of t rows) (index_of t (rows ++ [r]))); [exact Hj|].
      intros j' c' Hj' Hne. apply index_of_other.
      intros Heq. apply Hne. eapply creates_distinct; eauto. congruence.
    + apply Hnames.
    + apply Hnames.
    + exact Hcols'.
    + exact Hidx.
    + exact Hpk.
  - (* a new index *)
    assert (Hnew : has_name (ir_name r) (creates rows) = false).
    { destruct (has_name (ir_name r) (creates rows)) eqn:E; [|reflexivity].
      apply has_name_true in E as (j & c & Hj & Hc).
      assert (names !! ir_name r = Some (length (tbl_store t) + j)%nat)
        by (apply Hnames; eauto).
      congruence. }
    rewrite (index_attrs_eq r).
    set (idx := length (tbl_store t')).
    set (t1 := with_store (tbl_store t' ++ [Build_Index (ir_name r) (ir_uniq r) (index_attrs r) []]) t').
    set (t2 := if ir_primary r then with_PrimaryKey (Some idx) t1
               else with_Indexes (tbl_Indexes t1 ++ [idx]) t1).
    assert (Hs2 : tbl_store t2 = tbl_store t' ++ [Build_Index (ir_name r) (ir_uniq r) (index_attrs r) []])
      by (unfold t2; destruct (ir_primary r); reflexivity).
    assert (Hc2 : tbl_Columns t2 = tbl_Columns t')
      by (unfold t2; destruct (ir_primary r); reflexivity).
    assert (Hix : tbl_store t2 !! idx = Some (Build_Index (ir_name r) (ir_uniq r) (index_attrs r) [])).
    { rewrite Hs2. subst idx. rewrite lookup_app_r by lia. now rewrite Nat.sub_diag. }
    rewrite Hix.
    destruct (resolve_part t t2 idx (Build_Index (ir_name r) (ir_uniq r) (index_attrs r) []) r
                ltac:(now rewrite Hc2) Hres) as (cols & Hcols' & ->).
    cbn [mbind result_bind].
    eexists. split; [reflexivity|].
    unfold assembled. cbn [fst snd].
    rewrite creates_snoc, Hnew.
    assert (Hlen : idx = (length (tbl_store t) + length (creates rows))%nat)
      by (subst idx; now rewrite Hstore, length_app, length_map).
    repeat split.
    + cbn [tbl_store with_store with_Columns idx_Name idx_Unique idx_Attrs idx_Parts].
      rewrite Hs2. subst idx.
      rewrite insert_app_r_alt, Nat.sub_diag by lia. cbn [insert list_insert].
      rewrite Hstore, map_app, <- app_assoc. f_equal. f_equal.
      * apply map_ext_in. intros c' Hc'. symmetry. apply index_of_other.
        intros Heq.
        assert (has_name (ir_name r) (creates rows) = true); [|congruence].
        apply list_elem_of_In, list_elem_of_lookup in Hc' as [j' Hj'].
        apply has_name_true. eauto.
      * cbn [map]. unfold index_of. rewrite rows_named_snoc, rows_named_fresh by exact Hnew.
        now rewrite String.eqb_refl.
    + intros Hk. destruct (decide (ir_name r = n)) as [<-|Hne].
      * rewrite lookup_insert_eq in Hk. injection Hk as <-.
        exists (length (creates rows)), r. split; [exact Hlen|].
        split; [|reflexivity]. now rewrite lookup_app_r, Nat.sub_diag by lia.
      * rewrite lookup_insert_ne in Hk by exact Hne.
        apply Hnames in Hk as (j & c & -> & Hj & Hc).
        exists j, c. split; [reflexivity|]. split; [|exact Hc].
        now apply lookup_app_l_Some.
    + intros (j & c & -> & Hj & Hc).
      apply lookup_snoc_Some in Hj as [[Hlt Hj]|[Hl <-]].
      * rewrite lookup_insert_ne.
        -- apply Hnames. eauto.
        -- intros Heq.
           assert (has_name (ir_name r) (creates rows) = true); [|congruence].
           apply has_name_true. exists j, c. split; congruence.
      * subst n. rewrite lookup_insert_eq. f_equal. lia.
    + exact Hcols'.
    + cbn. rewrite positions_snoc. unfold t2.
      destruct (ir_primary r); cbn.
      * now rewrite app_nil_r.
      * rewrite Hidx, <- app_assoc. now rewrite Hlen.
    + cbn. rewrite positions_snoc. unfold t2.
      destruct (ir_primary r); cbn.
      * rewrite last_snoc. now rewrite Hlen.
      * now rewrite app_nil_r.
Qed.

End AddIndexesStep.

Section AddIndexesRun.

Context `{Sqlx}.

Lemma assembled_run (t : Table) (rows : list index_row) :
  Forall (resolves t) rows ->
  exists st, for_each addIndexes_row (map Row rows) (t, ∅) = Ok st
             /\ assembled t rows st.
Proof.
  induction rows as [|r rows IH] using rev_ind; intros Hres.
  - exists (t, ∅). split; [reflexivity | apply assembled_init].
  - apply Forall_app in Hres as [Hrows Hr]. apply Forall_inv in Hr.
    destruct (IH Hrows) as (st & Hrun & Hst).
    destruct (assembled_step t rows st r Hst Hr) as (st' & Hstep & Hst').
    exists st'. split; [|exact Hst'].
    rewrite map_app, LoopFacts.for_each_app, Hrun. cbn [mbind result_bind].
    cbn [map for_each]. rewrite Hstep. reflexivity.
Qed.

(** The creating rows are rows, in the order of the rows, and each one is
    the first row of its name. *)
Lemma creates_sublist (rows : list index_row) : sublist (creates rows) rows.
Proof.
  induction rows as [|r rows IH] using rev_ind; [constructor|].
  rewrite creates_snoc. destruct (has_name (ir_name r) (creates rows)).
  - now apply sublist_inserts_r.
  - now apply sublist_app.
Qed.

Lemma creates_first (rows : list index_row) (j : nat) (c : index_row) :
  creates rows !! j = Some c ->
  exists pre post, rows = pre ++ c :: post /\ has_name (ir_name c) pre = false.
Proof.
  revert j c. induction rows as [|r rows IH] using rev_ind; intros j c; [discriminate|].
  rewrite creates_snoc. destruct (has_name (ir_name r) (creates rows)) eqn:E.
  - intros Hj. destruct (IH _ _ Hj) as (pre & post & -> & Hpre).
    exists pre, (post ++ [r]). split; [now rewrite <- app_assoc | exact Hpre].
  - intros Hj. apply lookup_snoc_Some in Hj as [[_ Hj]|[_ <-]].
    + destruct (IH _ _ Hj) as (pre & post & -> & Hpre).
      exists pre, (post ++ [r]). split; [now rewrite <- app_assoc | exact Hpre].
    + exists rows, []. split; [reflexivity|].
      destruct (has_name (ir_name r) rows) eqn:E'; [|reflexivity].
      apply has_name_true in E' as (j' & r' & Hj' & Hr').
      assert (has_name (ir_name r') (creates rows) = true) as Hc.
      { apply creates_covers, list_elem_of_In, list_elem_of_lookup. eauto. }
      congruence.
Qed.

(** C2 (as amended): index assembly. When every row decodes and resolves in
    the table, [addIndexes] succeeds and
    - the store gains one index per distinct name, in the order in which
      the names are first seen ([creates]: the creating rows are rows in
      their order, have distinct names, cover the name of every row, and
      each one is the first row of its name);
    - each index has one part per row of its name, in the order of the
      rows, and the part number [k] (from 0) has [SeqNo] [k + 1], whatever
      the rows carry;
    - the primary-key flag is read on the creating row of an index, the
      first row of its name, and on no other row: an index whose creating
      row has the flag becomes the primary key of the table (the last one,
      if there are several: the earlier ones are then neither the primary
      key nor in the index list) and is not put in the index list, which
      gains the other ones in order. *)
Theorem addIndexes_assembles (t : Table) (R : Rows index_row) (rows : list index_row) :
  rows_items R = map Row rows ->
  Forall (resolves t) rows ->
  exists t',
    addIndexes t R = Ok t'
    /\ tbl_store t' = tbl_store t ++ map (index_of t rows) (creates rows)
    /\ sublist (creates rows) rows
    /\ (forall j1 j2 c1 c2,
          creates rows !! j1 = Some c1 -> creates rows !! j2 = Some c2 ->
          ir_name c1 = ir_name c2 -> j1 = j2)
    /\ (forall r, In r rows -> has_name (ir_name r) (creates rows) = true)
    /\ (forall j c, creates rows !! j = Some c ->
          exists pre post, rows = pre ++ c :: post /\ has_name (ir_name c) pre = false)
    /\ (forall c k p,
          In c (creates rows) ->
          idx_Parts (index_of t rows c) !! k = Some p ->
          SeqNo p = Z.of_nat k + 1
          /\ exists r, rows_named (ir_name c) rows !! k = Some r
                       /\ p = part_of_row t k r)
    /\ (forall c, In c (creates rows) ->
          length (idx_Parts (index_of t rows c)) = length (rows_named (ir_name c) rows))
    /\ tbl_Indexes t' =
       tbl_Indexes t
         ++ positions (fun r => negb (ir_primary r)) (length (tbl_store t)) (creates rows)
    /\ tbl_PrimaryKey t' =
       match last (positions ir_primary (length (tbl_store t)) (creates rows)) with
       | Some k => Some k
       | None => tbl_PrimaryKey t
       end.
Proof.
  intros HR Hres.
  destruct (assembled_run t rows Hres) as ([t' names] & Hrun & Hst).
  destruct Hst as (Hstore & _ & _ & Hidx & Hpk). cbn [fst snd] in *.
  exists t'. unfold addIndexes. rewrite HR, Hrun. cbn [mbind result_bind].
  split; [reflexivity|]. split; [exact Hstore|].
  split; [apply creates_sublist|]. split; [apply creates_distinct|].
  split; [apply creates_covers|]. split; [apply creates_first|].
  split; [|split; [|split; [exact Hidx | exact Hpk]]].
  - intros c k p _ Hp. unfold index_of in Hp. cbn [idx_Parts] in Hp.
    rewrite list_lookup_imap in Hp.
    destruct (rows_named (ir_name c) rows !! k) as [r|] eqn:Er; [|discriminate Hp].
    injection Hp as <-. split; [reflexivity|]. eauto.
  - intros c _. unfold index_of. cbn [idx_Parts]. apply length_imap.
Qed.

End AddIndexesRun.

Section AddIndexesExample.

Import SqlxModel.

Lemma idx_a_rows_resolve : Forall (resolves two_columns) idx_a_rows.
Proof.
  unfold idx_a_rows.
  constructor; [|constructor; [|constructor]];
    right; (split; [reflexivity | eexists; reflexivity]).
Qed.

Lemma addIndexes_assembles_witness :
  exists t',
    addIndexes two_columns (rows_of idx_a_rows) = Ok t'
    /\ tbl_store t' =
       tbl_store two_columns ++ map (index_of two_columns idx_a_rows) (creates idx_a_rows).
Proof.
  destruct (addIndexes_assembles two_columns (rows_of idx_a_rows) idx_a_rows
              eq_refl idx_a_rows_resolve) as (t' & Hrun & Hstore & _).
  exists t'. split; [exact Hrun | exact Hstore].
Defined.

(** The example of the spec, evaluated: exactly one index, in the index
    list, whose parts are number 1 on [col1] and number 2 on [col2]. *)
Example addIndexes_idx_a :
  exists t',
    addIndexes two_columns (rows_of idx_a_rows) = Ok t'
    /\ tbl_Indexes t' = [0%nat]
    /\ tbl_PrimaryKey t' = None
    /\ tbl_store t' =
       [Build_Index "idx_a" false [IndexType "NORMAL"]
          [Build_IndexPart 1 None (Some 0%nat) [IndexColumnProperty false false false false];
           Build_IndexPart 2 None (Some 1%nat) [IndexColumnProperty false false false false]]]
    /\ map col_Name (tbl_Columns t') = ["col1"; "col2"].
Proof. eexists. repeat split. Qed.

(** C2 fails as stated. The second row of [idx_a] carries the primary-key
    flag, and yet the index is stored in the index list and the table has
    no primary key: the flag of the first row of a name is the one that is
    read. And of two indexes whose rows all carry the flag, the second one
    is the primary key, while the first one is neither the primary key nor
    in the index list. *)
Lemma addIndexes_flag_counterexamples :
  (map ir_name late_flag_rows = ["idx_a"; "idx_a"]
   /\ map ir_primary late_flag_rows = [false; true]
   /\ exists t',
        addIndexes two_columns (rows_of late_flag_rows) = Ok t'
        /\ map idx_Name (tbl_store t') = ["idx_a"]
        /\ tbl_PrimaryKey t' = None
        /\ tbl_Indexes t' = [0%nat])
  /\ (map ir_name two_keys_rows = ["pk1"; "pk2"]
      /\ map ir_primary two_keys_rows = [true; true]
      /\ exists t',
           addIndexes two_columns (rows_of two_keys_rows) = Ok t'
           /\ map idx_Name (tbl_store t') = ["pk1"; "pk2"]
           /\ tbl_PrimaryKey t' = Some 1%nat
           /\ tbl_Indexes t' = []).
Proof.
  split; (split; [reflexivity|]; split; [reflexivity|]; eexists; repeat split).
Qed.

End AddIndexesExample.

Section Dangling.

Context `{Sqlx}.

(** One turn of the loop of [addIndexes] never panics and keeps the map and
    the store linked, whatever the row. *)
Lemma addIndexes_row_linked (t : Table) (st : Table * gmap string nat)
    (item : scanned index_row) :
  indexes_linked t st ->
  match addIndexes_row st item with
  | Ok st' => indexes_linked t st'
  | Err _ => True
  | Panic _ => False
  end.
Proof.
  destruct st as [t' names]. intros [Hnames Hcols]. cbn [fst snd] in *.
  unfold addIndexes_row. destruct item as [r|e]; [|exact I].
  destruct (names !! ir_name r) as [idx|] eqn:En.
  - destruct (Hnames _ _ En) as (ix & Hix & Hname). rewrite Hix.
    destruct (ValidString (ir_expr r)); [|destruct (ValidString (ir_column r));
      [destruct (Table_Column t' (ns_String (ir_column r)))|]];
      cbn [mbind result_bind]; try exact I.
    + split; cbn [fst snd tbl_store tbl_Columns with_store]; [|exact Hcols].
      intros n k Hk. destruct (decide (k = idx)) as [->|Hne].
      * rewrite list_lookup_insert_eq by now apply lookup_lt_Some in Hix.
        eexists. split; [reflexivity|]. cbn.
        destruct (Hnames _ _ Hk) as (ix' & Hix' & Hn'). congruence.
      * rewrite list_lookup_insert_ne by congruence. now apply Hnames.
    + split; cbn [fst snd tbl_store tbl_Columns with_store with_Columns].
      * intros n' k Hk. destruct (decide (k = idx)) as [->|Hne].
        -- rewrite list_lookup_insert_eq by now apply lookup_lt_Some in Hix.
           eexists. split; [reflexivity|]. cbn.
           destruct (Hnames _ _ Hk) as (ix' & Hix' & Hn'). congruence.
        -- rewrite list_lookup_insert_ne by congruence. now apply Hnames.
      * now rewrite LoopFacts.alter_names by reflexivity.
  - rewrite (index_attrs_eq r).
    set (idx := length (tbl_store t')).
    set (new := Build_Index (ir_name r) (ir_uniq r) (index_attrs r) []).
    set (t2 := if ir_primary r then with_PrimaryKey (Some idx) (with_store (tbl_store t' ++ [new]) t')
               else with_Indexes (tbl_Indexes (with_store (tbl_store t' ++ [new]) t') ++ [idx])
                      (with_store (tbl_store t' ++ [new]) t')).
    assert (Hs2 : tbl_store t2 = tbl_store t' ++ [new])
      by (unfold t2; destruct (ir_primary r); reflexivity).
    assert (Hc2 : tbl_Columns t2 = tbl_Columns t')
      by (unfold t2; destruct (ir_primary r); reflexivity).
    assert (Hix : tbl_store t2 !! idx = Some new).
    { rewrite Hs2. subst idx. rewrite lookup_app_r by lia. now rewrite Nat.sub_diag. }
    rewrite Hix.
    assert (Hlinked : forall parts cols n k,
      <[ir_name r := idx]> names !! n = Some k ->
      exists ix, <[idx := Build_Index (ir_name r) (ir_uniq r) (index_attrs r) parts]>
                   (tbl_store (with_Columns cols t2)) !! k = Some ix
                 /\ idx_Name ix = n).
    { intros parts cols n k Hk.
      change (tbl_store (with_Columns cols t2)) with (tbl_store t2). rewrite Hs2.
      destruct (decide (ir_name r = n)) as [<-|Hne].
      - rewrite lookup_insert_eq in Hk. injection Hk as <-.
        rewrite list_lookup_insert_eq by (subst idx; rewrite length_app; simpl; lia).
        eexists. split; reflexivity.
      - rewrite lookup_insert_ne in Hk by exact Hne.
        destruct (Hnames _ _ Hk) as (ix & Hk' & Hn).
        assert (k < idx)%nat by (subst idx; now apply lookup_lt_Some in Hk').
        rewrite list_lookup_insert_ne by lia.
        rewrite lookup_app_l by (subst idx; lia). eauto. }
    destruct (ValidString (ir_expr r)); [|destruct (ValidString (ir_column r));
      [destruct (Table_Column t2 (ns_String (ir_column r)))|]];
      cbn [mbind result_bind]; try exact I.
    + split; cbn [fst snd]; [|cbn; now rewrite Hc2].
      intros n k Hk. cbn [tbl_store with_store].
      destruct (Hlinked ([] ++ [Build_IndexPart (Z.of_nat (length (idx_Parts new)) + 1)
                                  (Some (RawExpr (ns_String (ir_expr r)))) None
                                  [IndexColumnProperty (nb_Bool (ir_asc r)) (nb_Bool (ir_desc r))
                                     (nb_Bool (ir_nullsfirst r)) (nb_Bool (ir_nullslast r))]])
                  (tbl_Columns t2) n k Hk) as (ix & Hix' & Hn).
      exists ix. split; [|exact Hn]. now destruct t2.
    + split; cbn [fst snd].
      * intros n' k Hk. cbn [tbl_store with_store].
        eapply Hlinked. exact Hk.
      * cbn. rewrite LoopFacts.alter_names by reflexivity. now rewrite Hc2.
Qed.

(** A dangling row stops the loop with the error that names the column and
    the index. *)
Lemma addIndexes_row_dangling (t : Table) (st : Table * gmap string nat) (r : index_row) :
  indexes_linked t st ->
  dangling_index_row t r ->
  addIndexes_row st (Row r) =
  Err (Errorf "oracle: column %q was not found for index %q"
         [ArgString (ns_String (ir_column r)); ArgString (ir_name r)]).
Proof.
  destruct st as [t' names]. intros [Hnames Hcols] (He & Hc & Hnone). cbn [fst snd] in *.
  unfold addIndexes_row.
  destruct (names !! ir_name r) as [idx|] eqn:En.
  - destruct (Hnames _ _ En) as (ix & Hix & Hname). rewrite Hix, He, Hc.
    rewrite (LoopFacts.Table_Column_names t' t _ Hcols), Hnone, Hname. reflexivity.
  - rewrite (index_attrs_eq r). set (idx := length (tbl_store t')).
    match goal with
    | |- context [tbl_store ?t2 !! idx] =>
        assert (Hix : tbl_store t2 !! idx = Some (Build_Index (ir_name r) (ir_uniq r) (index_attrs r) []));
        [|assert (Hc2 : tbl_Columns t2 = tbl_Columns t')]
    end.
    { destruct (ir_primary r); cbn; subst idx;
        (rewrite lookup_app_r by lia); now rewrite Nat.sub_diag. }
    { destruct (ir_primary r); reflexivity. }
    rewrite Hix, He, Hc.
    unfold Table_Column. rewrite Hc2. fold (Table_Column t' (ns_String (ir_column r))).
    rewrite (LoopFacts.Table_Column_names t' t _ Hcols), Hnone. reflexivity.
Qed.

Lemma for_each_dangling_index (t : Table) (items : list (scanned index_row))
    (st : Table * gmap string nat) (r : index_row) :
  indexes_linked t st ->
  In (Row r) items ->
  dangling_index_row t r ->
  exists e, for_each addIndexes_row items st = Err e.
Proof.
  revert st. induction items as [|item items IH]; intros st Hst Hin Hr; [destruct Hin|].
  cbn [for_each].
  destruct Hin as [->|Hin].
  - rewrite (addIndexes_row_dangling t st r Hst Hr). eexists. reflexivity.
  - pose proof (addIndexes_row_linked t st item Hst) as Hstep.
    destruct (addIndexes_row st item) as [st'|e|p]; cbn [mbind result_bind].
    + now apply IH.
    + eexists. reflexivity.
    + destruct Hstep.
Qed.

Lemma indexes_linked_init (t : Table) : indexes_linked t (t, ∅).
Proof.
  split; [|reflexivity]. intros n k Hk. cbn in Hk. rewrite lookup_empty in Hk. discriminate.
Qed.

(** [addIndexes] fails when one of the rows is dangling. *)
Lemma addIndexes_dangling (t : Table) (R : Rows index_row) (r : index_row) :
  In (Row r) (rows_items R) ->
  dangling_index_row t r ->
  exists e, addIndexes t R = Err e.
Proof.
  intros Hin Hr. unfold addIndexes.
  destruct (for_each_dangling_index t _ (t, ∅) r (indexes_linked_init t) Hin Hr) as [e ->].
  eexists. reflexivity.
Qed.

End Dangling.

Section DanglingChecks.

Context `{Sqlx}.

(** One turn of the loop of [addChecks] never panics and keeps the map and
    the attributes linked, whatever the row. *)
Lemma addChecks_row_linked (t : Table) (st : Table * gmap string nat)
    (item : scanned check_row) :
  checks_linked t st ->
  match addChecks_row st item with
  | Ok st' => checks_linked t st'
  | Err _ => True
  | Panic _ => False
  end.
Proof.
  destruct st as [t' names]. intros [Hnames Hcols]. cbn [fst snd] in *.
  unfold addChecks_row. destruct item as [r|e]; [|exact I].
  destruct (Table_Column t' (kr_column r)) as [ci|]; [|exact I].
  destruct (names !! kr_name r) as [pos|] eqn:En.
  - destruct (Hnames _ _ En) as (e & cols & rest & Hpos). rewrite Hpos.
    split; cbn [fst snd tbl_Attrs tbl_Columns with_Attrs]; [|exact Hcols].
    intros n k Hk. destruct (decide (k = pos)) as [->|Hne].
    + rewrite list_lookup_insert_eq by now apply lookup_lt_Some in Hpos.
      destruct (Hnames _ _ Hk) as (e' & cols' & rest' & Hpos').
      rewrite Hpos in Hpos'. injection Hpos' as -> -> -> ->. eauto.
    + rewrite list_lookup_insert_ne by congruence. now apply Hnames.
  - cbn [tbl_Attrs with_Attrs].
    rewrite lookup_app_r, Nat.sub_diag by lia. cbn [lookup list_lookup].
    assert (Hhead : exists rest,
      append_if (kr_noInherit r) NoInherit [CheckColumns []] = CheckColumns [] :: rest)
      by (destruct (kr_noInherit r); eexists; reflexivity).
    destruct Hhead as [rest ->].
    split; cbn [fst snd tbl_Attrs tbl_Columns with_Attrs]; [|exact Hcols].
    intros n k Hk.
    rewrite insert_app_r_alt, Nat.sub_diag by lia. cbn [insert list_insert].
    destruct (decide (kr_name r = n)) as [<-|Hne].
    + rewrite lookup_insert_eq in Hk. injection Hk as <-.
      rewrite lookup_app_r, Nat.sub_diag by lia. cbn. eauto.
    + rewrite lookup_insert_ne in Hk by exact Hne.
      destruct (Hnames _ _ Hk) as (e & cols & rest' & Hpos).
      rewrite lookup_app_l by now apply lookup_lt_Some in Hpos. eauto.
Qed.

(** A dangling row stops the loop with the error that names the column and
    the check. *)
Lemma addChecks_row_dangling (t : Table) (st : Table * gmap string nat) (r : check_row) :
  checks_linked t st ->
  dangling_check_row t r ->
  addChecks_row st (Row r) =
  Err (Errorf "oracle: column %q was not found for check %q"
         [ArgString (kr_column r); ArgString (kr_name r)]).
Proof.
  destruct st as [t' names]. intros [_ Hcols] Hnone. cbn [fst snd] in *.
  unfold addChecks_row, Table_Column. rewrite Hcols.
  unfold dangling_check_row, Table_Column in Hnone. now rewrite Hnone.
Qed.

Lemma for_each_dangling_check (t : Table) (items : list (scanned check_row))
    (st : Table * gmap string nat) (r : check_row) :
  checks_linked t st ->
  In (Row r) items ->
  dangling_check_row t r ->
  exists e, for_each addChecks_row items st = Err e.
Proof.
  revert st. induction items as [|item items IH]; intros st Hst Hin Hr; [destruct Hin|].
  cbn [for_each].
  destruct Hin as [->|Hin].
  - rewrite (addChecks_row_dangling t st r Hst Hr). eexists. reflexivity.
  - pose proof (addChecks_row_linked t st item Hst) as Hstep.
    destruct (addChecks_row st item) as [st'|e|p]; cbn [mbind result_bind].
    + now apply IH.
    + eexists. reflexivity.
    + destruct Hstep.
Qed.

Lemma checks_linked_init (t : Table) : checks_linked t (t, ∅).
Proof.
  split; [|reflexivity]. intros n k Hk. cbn in Hk. rewrite lookup_empty in Hk. discriminate.
Qed.

(** [addChecks] fails when one of the rows is dangling. *)
Lemma addChecks_dangling (t : Table) (R : Rows check_row) (r : check_row) :
  In (Row r) (rows_items R) ->
  dangling_check_row t r ->
  exists e, addChecks t R = Err e.
Proof.
  intros Hin Hr. unfold addChecks.
  destruct (for_each_dangling_check t _ (t, ∅) r (checks_linked_init t) Hin Hr) as [e ->].
  eexists. reflexivity.
Qed.

(** The first dangling row gives the error of the run: the rows before it
    resolve, so the loop reaches it. *)
Lemma addIndexes_first_dangling (t : Table) (R : Rows index_row)
    (pre : list index_row) (r : index_row) (post : list (scanned index_row)) :
  rows_items R = map Row pre ++ Row r :: post ->
  Forall (resolves t) pre ->
  dangling_index_row t r ->
  addIndexes t R =
  Err (Errorf "oracle: column %q was not found for index %q"
         [ArgString (ns_String (ir_column r)); ArgString (ir_name r)]).
Proof.
  intros HR Hpre Hr. unfold addIndexes. rewrite HR, LoopFacts.for_each_app.
  assert (Hrun : exists st, for_each addIndexes_row (map Row pre) (t, ∅) = Ok st
                            /\ indexes_linked t st).
  { clear HR. induction pre as [|r' pre IH] using rev_ind.
    - exists (t, ∅). split; [reflexivity | apply indexes_linked_init].
    - apply Forall_app in Hpre as [Hpre Hr']. apply Forall_inv in Hr'.
      destruct (IH Hpre) as (st & Hrun & Hst).
      destruct (assembled_run t (pre ++ [r'])) as (st' & Hrun' & _).
      { apply Forall_app. split; [exact Hpre | now constructor]. }
      exists st'. split; [exact Hrun'|].
      rewrite map_app, LoopFacts.for_each_app, Hrun in Hrun'.
      cbn [mbind result_bind map for_each] in Hrun'.
      pose proof (addIndexes_row_linked t st (Row r') Hst) as Hstep.
      destruct (addIndexes_row st (Row r')) as [st''| |]; [|discriminate|discriminate].
      cbn [mbind result_bind] in Hrun'. now injection Hrun' as <-. }
  destruct Hrun as (st & -> & Hst). cbn [mbind result_bind for_each].
  rewrite (addIndexes_row_dangling t st r Hst Hr). reflexivity.
Qed.

End DanglingChecks.

Section InspectTable.

Context `{Sqlx}.

(** A loop that meets an element on which the body cannot succeed does not
    succeed, when the states it goes through keep [P]. *)
Lemma for_each_not_Ok {A S : Type} (body : S -> A -> result S) (P : S -> Prop)
    (l : list A) (a : A) (st : S) :
  In a l ->
  P st ->
  (forall st a' st', P st -> body st a' = Ok st' -> P st') ->
  (forall st st', P st -> body st a <> Ok st') ->
  forall r, for_each body l st <> Ok r.
Proof.
  intros Hin Hst Hkeep Hfail. revert st Hst.
  induction l as [|a' l IH]; intros st Hst r; [destruct Hin|].
  cbn [for_each]. destruct Hin as [->|Hin].
  - destruct (body st a) as [st'| |] eqn:E; cbn [mbind result_bind]; try discriminate.
    exfalso. exact (Hfail st st' Hst E).
  - destruct (body st a') as [st'| |] eqn:E; cbn [mbind result_bind]; try discriminate.
    apply IH; [exact Hin|]. exact (Hkeep st a' st' Hst E).
Qed.

(** C3 (as amended): an index row that carries no expression and names a
    column the table does not have, and a check row that names such a
    column, abort the inspection. [addIndexes] and [addChecks] return an
    error (the error that names the column and the index when the rows
    before the dangling one resolve), [inspectTable] returns an error and no
    table, and [InspectSchema], called with a name or for the attached
    schema, returns no schema when the table is one of its tables. *)
Theorem dangling_reference_aborts (i : conn) :
  (forall t R r,
     In (Row r) (rows_items R) -> dangling_index_row t r ->
     exists e, addIndexes t R = Err e)
  /\ (forall t R pre r post,
        rows_items R = map Row pre ++ Row r :: post ->
        Forall (resolves t) pre -> dangling_index_row t r ->
        addIndexes t R =
        Err (Errorf "oracle: column %q was not found for index %q"
               [ArgString (ns_String (ir_column r)); ArgString (ir_name r)]))
  /\ (forall t R r,
        In (Row r) (rows_items R) -> dangling_check_row t r ->
        exists e, addChecks t R = Err e)
  /\ (forall name opts top t0 t1 R r,
        table i name opts = Ok t0 ->
        columns i (match top with
                   | Some s => with_Schema (Top (sch_Name s)) t0
                   | None => t0
                   end) = Ok t1 ->
        QueryIndexes (conn_db i) [schema_name (tbl_Schema t1); tbl_Name t1] = Ok R ->
        In (Row r) (rows_items R) -> dangling_index_row t1 r ->
        exists e, inspectTable i name opts top = Err e)
  /\ (forall name opts top t0 t1 t2 t3 R r,
        table i name opts = Ok t0 ->
        columns i (match top with
                   | Some s => with_Schema (Top (sch_Name s)) t0
                   | None => t0
                   end) = Ok t1 ->
        indexes i t1 = Ok t2 ->
        fks i t2 = Ok t3 ->
        QueryChecks (conn_db i) [schema_name (tbl_Schema t3); tbl_Name t3] = Ok R ->
        In (Row r) (rows_items R) -> dangling_check_row t3 r ->
        exists e, inspectTable i name opts top = Err e)
  /\ (forall name tables s rest names n,
        String.eqb name "" = false ->
        schemas i (Some [name]) = Ok (s :: rest) ->
        tableNames i name tables = Ok names ->
        In n names ->
        (forall s', sch_Name s' = sch_Name s ->
                    exists e, inspectTable i n (Some (sch_Name s')) (Some s') = Err e) ->
        forall r, InspectSchema i name tables <> Ok r)
  /\ (forall tables R name names n,
        QueryStrings (conn_db i) attachedSchemaQuery [] = Ok R ->
        ScanOne R = Ok name ->
        tableNames i name tables = Ok names ->
        In n names ->
        (forall s', sch_Name s' = name ->
                    exists e, inspectTable i n (Some (sch_Name s')) (Some s') = Err e) ->
        forall r, InspectSchema i "" tables <> Ok r).
Proof.
  assert (Hloop : forall (s : Schema_) names n,
    In n names ->
    (forall s', sch_Name s' = sch_Name s ->
                exists e, inspectTable i n (Some (sch_Name s')) (Some s') = Err e) ->
    forall r,
      for_each
        (fun s name =>
           t ← inspectTable i name (Some (sch_Name s)) (Some s);
           Ok (Build_Schema_ (sch_Name s) (sch_Tables s ++ [t]) (sch_Realm s)))
        names s <> Ok r).
  { intros s names n Hin Hfail.
    apply (for_each_not_Ok _ (fun s' => sch_Name s' = sch_Name s) names n s Hin eq_refl).
    - intros st a' st' Hst Hbody.
      destruct (inspectTable i a' (Some (sch_Name st)) (Some st)); try discriminate Hbody.
      cbn [mbind result_bind] in Hbody. injection Hbody as <-. exact Hst.
    - intros st st' Hst Hbody.
      destruct (Hfail st Hst) as [e He]. rewrite He in Hbody. discriminate Hbody. }
  split; [exact addIndexes_dangling|].
  split; [exact addIndexes_first_dangling|].
  split; [exact addChecks_dangling|].
  split; [|split; [|split]].
  - intros name opts top t0 t1 R r Ht Hc Hq Hin Hr. unfold inspectTable.
    rewrite Ht. cbn [mbind result_bind]. rewrite Hc. cbn [mbind result_bind].
    unfold indexes. rewrite Hq. cbn [wrap_err mbind result_bind].
    destruct (addIndexes_dangling t1 R r Hin Hr) as [e ->].
    eexists. reflexivity.
  - intros name opts top t0 t1 t2 t3 R r Ht Hc Hi Hf Hq Hin Hr. unfold inspectTable.
    rewrite Ht. cbn [mbind result_bind]. rewrite Hc. cbn [mbind result_bind].
    rewrite Hi. cbn [mbind result_bind]. rewrite Hf. cbn [mbind result_bind].
    unfold checks. rewrite Hq. cbn [wrap_err mbind result_bind].
    destruct (addChecks_dangling t3 R r Hin Hr) as [e ->].
    eexists. reflexivity.
  - intros name tables s rest names n Hname Hs Hn Hin Hfail r. unfold InspectSchema.
    rewrite Hname, Hs. cbn [mbind result_bind length Nat.eqb].
    rewrite Hn. cbn [mbind result_bind index_at lookup list_lookup].
    pose proof (Hloop s names n Hin Hfail) as Hno.
    destruct (for_each _ names s) as [s1| |] eqn:E; cbn [mbind result_bind];
      try discriminate.
    exfalso. exact (Hno s1 eq_refl).
  - intros tables R name names n Hq Hs Hn Hin Hfail r. unfold InspectSchema.
    cbn [String.eqb]. rewrite Hq. cbn [wrap_err mbind result_bind]. rewrite Hs.
    cbn [wrap_err mbind result_bind]. rewrite Hn.
    cbn [mbind result_bind index_at lookup list_lookup].
    pose proof (Hloop (Build_Schema_ name [] None) names n Hin Hfail) as Hno.
    destruct (for_each _ names (Build_Schema_ name [] None)) as [s1| |] eqn:E;
      cbn [mbind result_bind]; try discriminate.
    exfalso. exact (Hno s1 eq_refl).
Qed.

End InspectTable.

Section InspectTableExamples.

Import SqlxModel.

Lemma dangling_reference_aborts_witness :
  exists e, inspectTable (conn_of db_dangling_index) "t" None None = Err e.
Proof.
  eapply (proj1 (proj2 (proj2 (proj2
            (dangling_reference_aborts (conn_of db_dangling_index)))))
            "t" None None);
    [reflexivity | reflexivity | reflexivity | left; reflexivity | repeat split].
Defined.

(** C3 fails as stated: the index row names the column [expr], which the
    table does not have, and the inspection returns the table, with the
    index assembled from the expression of the row. *)
Lemma InspectTable_expression_index :
  ValidString (ir_column (expr_part "idx_e" "expr" "lower(col1)")) = true
  /\ exists t,
       InspectTable (conn_of db_expression_index) "t" None = Ok t
       /\ map col_Name (tbl_Columns t) = ["col1"]
       /\ Table_Column t (ns_String (ir_column (expr_part "idx_e" "expr" "lower(col1)")))
          = None
       /\ tbl_store t =
          [Build_Index "idx_e" false [IndexType "NORMAL"]
             [Build_IndexPart 1 (Some (RawExpr "lower(col1)")) None
                [IndexColumnProperty false false false false]]].
Proof. split; [reflexivity|]. eexists. repeat split. Qed.

End InspectTableExamples.

(** ** Not-found lookups *)

Section NotFound.

Context `{Sqlx}.

(** C4 (as amended): when the identity query of a table returns no row,
    [table], [inspectTable] and [InspectTable] return a [NotExistError],
    while a failure of the query is returned as it is; [InspectSchema] with
    a name returns a [NotExistError] when the schema list has no row for the
    name. With an empty name it takes the attached schema as it is and does
    not look it up in the schema list: with no row for the attached schema
    the error is the scan error, and with a name and no table names it
    returns the schema of that name. *)
Theorem not_found_errors (i : conn) :
  (forall name opts top R,
     QueryTable (conn_db i)
       (match opts with
        | Some sch => if negb (String.eqb sch "") then tableSchemaQuery else tableQuery
        | None => tableQuery
        end)
       (match opts with
        | Some sch => if negb (String.eqb sch "") then [name; sch] else [name]
        | None => [name]
        end) = Ok R ->
     rows_items R = [] ->
     table i name opts =
       Err (NotExistError (Errorf "oracle: table %q was not found" [ArgString name]))
     /\ inspectTable i name opts top =
        Err (NotExistError (Errorf "oracle: table %q was not found" [ArgString name]))
     /\ InspectTable i name opts =
        Err (NotExistError (Errorf "oracle: table %q was not found" [ArgString name])))
  /\ (forall name opts top e,
        QueryTable (conn_db i)
          (match opts with
           | Some sch => if negb (String.eqb sch "") then tableSchemaQuery else tableQuery
           | None => tableQuery
           end)
          (match opts with
           | Some sch => if negb (String.eqb sch "") then [name; sch] else [name]
           | None => [name]
           end) = Err e ->
        table i name opts = Err e /\ inspectTable i name opts top = Err e)
  /\ (forall name tables R,
        String.eqb name "" = false ->
        QueryStrings (conn_db i) (schemasQueryArgs "= $1") [name] = Ok R ->
        rows_items R = [] ->
        InspectSchema i name tables =
        Err (NotExistError (Errorf "oracle: schema %q was not found" [ArgString name])))
  /\ (forall tables R,
        QueryStrings (conn_db i) attachedSchemaQuery [] = Ok R ->
        rows_items R = [] ->
        InspectSchema i "" tables =
        Err (Errorf "oracle: scan attached schema: %w" [ArgError ErrNoRows]))
  /\ (forall tables R name,
        QueryStrings (conn_db i) attachedSchemaQuery [] = Ok R ->
        ScanOne R = Ok name ->
        tableNames i name tables = Ok [] ->
        InspectSchema i "" tables =
        Ok (Build_Schema_
              (sch_Name (LinkSchemaTables (Build_Schema_ name [] None) []))
              (sch_Tables (LinkSchemaTables (Build_Schema_ name [] None) []))
              (Some [Collation (collate i); CType (ctype i)]))).
Proof.
  assert (Htable : forall name opts,
    table i name opts =
    (rows ← QueryTable (conn_db i)
       (match opts with
        | Some sch => if negb (String.eqb sch "") then tableSchemaQuery else tableQuery
        | None => tableQuery
        end)
       (match opts with
        | Some sch => if negb (String.eqb sch "") then [name; sch] else [name]
        | None => [name]
        end);
     match ScanOne rows with
     | Err ErrNoRows =>
         Err (NotExistError (Errorf "oracle: table %q was not found" [ArgString name]))
     | Err e => Err e
     | Panic p => Panic p
     | Ok (tSchema, comment) =>
         Ok (Build_Table name (Synthesized (ns_String tSchema))
               (append_if (ValidString comment) (Comment (ns_String comment)) [])
               [] [] None [] [])
     end)).
  { intros name opts. unfold table.
    destruct opts as [sch|]; [destruct (negb (String.eqb sch ""))|]; reflexivity. }
  split; [|split; [|split; [|split]]].
  - intros name opts top R Hq HR.
    assert (Ht : table i name opts =
                 Err (NotExistError (Errorf "oracle: table %q was not found" [ArgString name]))).
    { rewrite Htable, Hq. cbn [mbind result_bind]. unfold ScanOne. now rewrite HR. }
    unfold InspectTable, inspectTable. rewrite Ht. now repeat split.
  - intros name opts top e Hq.
    assert (Ht : table i name opts = Err e) by (now rewrite Htable, Hq).
    unfold inspectTable. rewrite Ht. now split.
  - intros name tables R Hname Hq HR. unfold InspectSchema. rewrite Hname.
    unfold schemas.
    change (inStrings [name] schemasQueryArgs []) with (schemasQueryArgs "= $1", [name]).
    cbn beta iota. rewrite Hq. cbn [wrap_err mbind result_bind]. rewrite HR. reflexivity.
  - intros tables R Hq HR. unfold InspectSchema. cbn [String.eqb].
    rewrite Hq. cbn [wrap_err mbind result_bind]. unfold ScanOne. rewrite HR.
    reflexivity.
  - intros tables R name Hq Hs Hn. unfold InspectSchema. cbn [String.eqb].
    rewrite Hq. cbn [wrap_err mbind result_bind]. rewrite Hs.
    cbn [wrap_err mbind result_bind]. rewrite Hn. reflexivity.
Qed.

End NotFound.

Section NotFoundExamples.

Import SqlxModel.

Lemma not_found_errors_witness :
  InspectSchema (conn_of db_ghost) "GHOST" None =
  Err (NotExistError (Errorf "oracle: schema %q was not found" [ArgString "GHOST"])).
Proof.
  exact (proj1 (proj2 (proj2 (not_found_errors (conn_of db_ghost))))
           "GHOST" None (rows_of []) eq_refl eq_refl eq_refl).
Defined.

(** C4 fails as stated: the attached schema [GHOST] is absent from the
    schema list (asked for by name, it is not found), and [InspectSchema]
    with the empty name returns it and no error. *)
Lemma InspectSchema_attached_not_listed :
  schemas (conn_of db_ghost) None = Ok []
  /\ schemas (conn_of db_ghost) (Some ["GHOST"]) = Ok []
  /\ InspectSchema (conn_of db_ghost) "GHOST" None =
     Err (NotExistError (Errorf "oracle: schema %q was not found" [ArgString "GHOST"]))
  /\ InspectSchema (conn_of db_ghost) "" None =
     Ok (Build_Schema_ "GHOST" [] (Some [Collation "BINARY"; CType "AL32UTF8"])).
Proof. repeat split. Qed.

End NotFoundExamples.

Section DefaultExprExamples.

Import SqlxModel.

Lemma is_quoted_length (s : string) :
  IsQuoted s "'" = true -> (2 <= String.length s)%nat.
Proof.
  cbn. unfold is_quoted. intros Hq. apply andb_true_iff in Hq as [Hq _].
  now apply Nat.leb_le in Hq.
Qed.

Lemma defaultExpr_classifies_witness :
  defaultExpr (column "d" (TimeType "date") "date") "'2021-01-01'::date"
  = Ok (Literal "'2021-01-01'").
Proof.
  exact (proj1 (proj2 (proj2 (defaultExpr_classifies is_quoted_length
                                (column "d" (TimeType "date") "date")
                                "'2021-01-01'::date")))
           eq_refl "'2021-01-01'" "" eq_refl SubstringFacts.date_cast_first).
Defined.

(** The two examples of the spec, evaluated. *)
Example defaultExpr_date_cast :
  defaultExpr (column "d" (TimeType "date") "date") "'2021-01-01'::date"
  = Ok (Literal "'2021-01-01'").
Proof. reflexivity. Qed.

Example defaultExpr_now :
  defaultExpr (column "d" (TimeType "date") "date") "now()" = Ok (RawExpr "now()").
Proof. reflexivity. Qed.

(** C7 fails as stated. On an integer column, ['1'::int] is a quoted
    numeric literal cast to the raw type of the column, and the literal that
    is returned is [1], not the quoted text. On a date column,
    ['a'::datex] names another type than the column has, and the result is
    a literal, not a raw expression. *)
Lemma defaultExpr_cast_counterexamples :
  (IsLiteralBool "'1'::int" || IsLiteralNumber "'1'::int" || IsQuoted "'1'::int" "'"
   = false
   /\ IsQuoted "'1'" "'" = true
   /\ IsLiteralNumber "1" = true
   /\ defaultExpr (column "n" (IntegerType "int") "int") "'1'::int" = Ok (Literal "1")
   /\ defaultExpr (column "n" (IntegerType "int") "int") "'1'::int"
      <> Ok (Literal "'1'"))
  /\ (IsLiteralBool "'a'::datex" || IsLiteralNumber "'a'::datex"
      || IsQuoted "'a'::datex" "'" = false
      /\ "datex" <> ct_Raw (col_Type (column "d" (TimeType "date") "date"))
      /\ defaultExpr (column "d" (TimeType "date") "date") "'a'::datex"
         = Ok (Literal "'a'")
      /\ defaultExpr (column "d" (TimeType "date") "date") "'a'::datex"
         <> Ok (RawExpr "'a'::datex")).
Proof. repeat split; discriminate. Qed.

End DefaultExprExamples.

(** * Further properties of the code

    ** [FormatType]: where it fails, and what it reads of a type *)

Section FormatDomain.

Import GoStrings Strconv.

(** X1: [FormatType] never panics, and it prints a spelling exactly for the
    supported variants, a decimal type being printed only when its scale is
    not negative and, with a zero precision, zero. *)
Theorem FormatType_prints_iff (t : Type_) :
  (forall p, FormatType t <> Panic p)
  /\ ((exists x, FormatType t = Ok x) <->
      supported t = true
      /\ match t with
         | DecimalType _ p s => 0 <= s /\ (p = 0 -> s = 0)
         | _ => True
         end).
Proof.
  split.
  - intros p. destruct t; cbn [FormatType];
      repeat match goal with
             | |- context [if ?b then _ else _] => destruct b
             end; discriminate.
  - destruct t; cbn [FormatType supported];
      try (split; [intros [x Hx]; discriminate Hx | intros [Hs _]; discriminate Hs]).
    + split; [auto|]. intros _.
      destruct (Size <? 2); [|destruct (4000 <? Size)]; eauto.
    + destruct (Z.eqb_spec Precision 0) as [Hp|Hp];
        destruct (Z.eqb_spec Scale 0) as [Hs|Hs];
        destruct (Z.ltb_spec Scale 0) as [Hn|Hn];
        destruct (Z.ltb_spec 0 Scale) as [Hpos|Hpos];
        cbn [andb]; try lia;
        (split; [intros [x Hx]; try discriminate Hx; (split; [reflexivity | lia])
                | intros [_ Hok]; try lia; eauto]).
    + split; [auto|]. intros _.
      repeat match goal with
             | |- context [if ?b then _ else _] => destruct b
             end; eauto.
    + split; [auto|]. eauto.
    + split; [auto|]. eauto.
    + split; [auto|]. intros _.
      destruct (Size <? 2); [|destruct (4000 <? Size)]; eauto.
    + split; [auto|]. intros _.
      repeat match goal with
             | |- context [if ?b then _ else _] => destruct b
             end; eauto.
Qed.

Lemma FormatType_time (T : string) : FormatType (TimeType T) = Ok (ToLower T).
Proof.
  cbn [FormatType].
  repeat match goal with
         | |- context [String.eqb ?a ?b] =>
             destruct (String.eqb_spec a b) as [->|_]
         end; reflexivity.
Qed.

Lemma FormatType_float (T : string) (p : Z) :
  FormatType (FloatType T p) = Ok (ToLower T).
Proof.
  cbn [FormatType].
  repeat match goal with
         | |- context [String.eqb ?a ?b] =>
             destruct (String.eqb_spec a b) as [->|_]
         end; reflexivity.
Qed.

(** X2: [FormatType] does not check the name of a time, float or JSON type:
    it prints the name in lower case, whatever the name is (stated for a
    name of ASCII bytes, on which [ToLower] is Go's). The name of a binary,
    string, integer or decimal type is not read at all. *)
Theorem FormatType_reads_name :
  (forall T, all_bytes is_ascii T = true ->
             FormatType (TimeType T) = Ok (ToLower T))
  /\ (forall T p, all_bytes is_ascii T = true ->
                  FormatType (FloatType T p) = Ok (ToLower T))
  /\ (forall T, all_bytes is_ascii T = true ->
                FormatType (JSONType T) = Ok (ToLower T))
  /\ (forall T T' n, FormatType (BinaryType T n) = FormatType (BinaryType T' n))
  /\ (forall T T' n, FormatType (StringType T n) = FormatType (StringType T' n))
  /\ (forall T T', FormatType (IntegerType T) = FormatType (IntegerType T'))
  /\ (forall T T' p s,
        FormatType (DecimalType T p s) = FormatType (DecimalType T' p s)).
Proof.
  split; [intros T _; apply FormatType_time|].
  split; [intros T p _; apply FormatType_float|].
  repeat split.
Qed.

Lemma FormatType_reads_name_witness :
  FormatType (TimeType "Interval Year") = Ok "interval year".
Proof.
  exact (proj1 FormatType_reads_name "Interval Year" eq_refl).
Defined.

(** X3: Formatting the type that [columnType] gives to a column descriptor.
    A name that is, in any letter case, [int], one of the four time names,
    [double], [float] or [json] is printed in lower case. A [raw] column is
    printed as [raw(1)] whatever its length, since [columnType] reads no
    size for it. A [number] column and a char-family column are printed
    from their precision and scale and from their size. *)
Theorem FormatType_columnType (c : columnDesc) :
  (one_of (ToLower (typ c))
     [TypeInt; TypeDate; TypeTimestamp; TypeTimestampTZ; TypeTimestampLTZ;
      TypeDouble; TypeFloat; TypeJSON] = true ->
   FormatType (columnType c) = Ok (ToLower (typ c)))
  /\ (ToLower (typ c) = TypeRaw -> FormatType (columnType c) = Ok "raw(1)")
  /\ (ToLower (typ c) = TypeNumber ->
      FormatType (columnType c) =
      FormatType (DecimalType TypeNumber (precision c) (scale c)))
  /\ (one_of (ToLower (typ c)) [TypeChar; TypeNChar; TypeVarchar; TypeNVarchar] = true ->
      FormatType (columnType c) = FormatType (StringType TypeVarchar (size c))).
Proof.
  unfold columnType. cbn zeta. repeat split.
  - intros Hl. unfold one_of at 1 in Hl. cbn [existsb] in Hl.
    repeat match type of Hl with
           | (String.eqb ?a ?b || _)%bool = true =>
               destruct (String.eqb_spec a b) as [Heq|_];
               [rewrite Heq; cbn -[FormatType];
                first [reflexivity
                      | rewrite FormatType_time; now rewrite Heq
                      | rewrite FormatType_float; now rewrite Heq
                      | cbn [FormatType]; now rewrite Heq]|];
               cbn [orb] in Hl
           end.
    discriminate Hl.
  - intros ->. reflexivity.
  - intros ->. reflexivity.
  - intros Hl.
    destruct (String.eqb (ToLower (typ c)) TypeInt) eqn:E1;
      [apply String.eqb_eq in E1; rewrite E1 in Hl; discriminate Hl|].
    destruct (String.eqb (ToLower (typ c)) TypeRaw) eqn:E2;
      [apply String.eqb_eq in E2; rewrite E2 in Hl; discriminate Hl|].
    rewrite Hl. reflexivity.
Qed.

Lemma FormatType_columnType_witness :
  FormatType (columnType (Build_columnDesc "TIMESTAMP WITH TIME ZONE" 0 "" 0 0 "" 0 []))
  = Ok "timestamp with time zone".
Proof.
  exact (proj1 (FormatType_columnType
                  (Build_columnDesc "TIMESTAMP WITH TIME ZONE" 0 "" 0 0 "" 0 []))
           eq_refl).
Defined.

End FormatDomain.

(** ** [ParseType] after [FormatType], and the edges of [parseColumn] *)

Module ParseFacts.

Import GoStrings Strconv ConvertFacts.

(** A text made of separators has no field. *)
Lemma fields_from_separators (f : ascii -> bool) (s : string) :
  all_bytes f s = true -> fields_from f s None = [].
Proof.
  induction s as [|c s IH]; [reflexivity|].
  cbn [all_bytes fields_from]. intros Hs. apply andb_true_iff in Hs as [Hc Hs].
  rewrite Hc. now apply IH.
Qed.

Lemma fields_from_cur (f : ascii -> bool) (s : string) (w : string) :
  fields_from f s (Some w) <> [].
Proof.
  revert w. induction s as [|c s IH]; intros w; [discriminate|].
  cbn [fields_from]. destruct (f c); [discriminate | apply IH].
Qed.

(** A text with a byte that is no separator has a field. *)
Lemma fields_from_some (f : ascii -> bool) (s : string) :
  all_bytes f s = false -> fields_from f s None <> [].
Proof.
  induction s as [|c s IH]; [discriminate|].
  cbn [all_bytes fields_from]. destruct (f c); cbn [andb]; intros Hs.
  - now apply IH.
  - apply fields_from_cur.
Qed.

(** The fields of [kw(a b)]. *)
Lemma fields_call_space (kw a b : string) :
  no_separator kw -> no_separator a -> no_separator b ->
  FieldsFunc (kw +:+ "(" +:+ a +:+ " " +:+ b +:+ ")") is_separator = [kw; a; b].
Proof.
  intros [Hk Hk'] [Ha Ha'] [Hb Hb']. unfold FieldsFunc.
  rewrite (FieldsFacts.fields_from_word _ kw _ None Hk Hk').
  rewrite StringFacts.app_cons, StringFacts.app_nil_l. simpl.
  rewrite (FieldsFacts.fields_from_word _ a _ None Ha Ha').
  rewrite StringFacts.app_cons, StringFacts.app_nil_l. simpl.
  rewrite (FieldsFacts.fields_from_word _ b _ None Hb Hb'). reflexivity.
Qed.

(** [parseColumn] on a text that starts with a field other than the names
    it has a case for: the descriptor holds the whole text as its type. *)
Lemma parseColumn_default (x p0 : string) (rest : list string) :
  FieldsFunc x is_separator = p0 :: rest ->
  one_of p0 [TypeVarchar; TypeNVarchar; TypeChar; TypeNChar; TypeNumber;
             TypeDouble; TypeInt; TypeFloat] = false ->
  parseColumn x = Ok (Build_columnDesc x 0 "" 0 0 "" 0 (p0 :: rest)).
Proof.
  intros Hx Hp. unfold parseColumn. rewrite Hx.
  change (index_at 0 (p0 :: rest)) with (Ok p0). cbn [mbind result_bind].
  unfold one_of in *. cbn [existsb] in *.
  repeat match type of Hp with
         | (_ || _)%bool = false => apply orb_false_iff in Hp as [? Hp]
         end.
  repeat match goal with
         | E : String.eqb _ _ = false |- _ => rewrite E; clear E
         end.
  reflexivity.
Qed.

(** A text that starts with [raw(] is no type name that [columnType] knows. *)
Lemma columnType_raw_sized (rest : string) (c : columnDesc) :
  typ c = String "r" (String "a" (String "w" (String "(" rest))) ->
  columnType c = UnsupportedType (typ c).
Proof. intros Hc. unfold columnType. rewrite Hc. reflexivity. Qed.

Lemma ParseType_raw_sized (f : string) :
  no_separator f ->
  ParseType ("raw(" +:+ f +:+ ")") = Ok (UserDefinedType ("raw(" +:+ f +:+ ")")).
Proof.
  intros Hf. unfold ParseType.
  rewrite (parseColumn_default _ "raw" [f]);
    [|apply (fields_call1 "raw"); [now apply no_separator_literal | exact Hf]
     |reflexivity].
  cbn [mbind result_bind].
  rewrite (columnType_raw_sized (f +:+ ")")) by reflexivity.
  reflexivity.
Qed.

End ParseFacts.

Section ParseAfterFormat.

Import GoStrings Strconv ConvertFacts ParseFacts.

(** X4: Parsing what [FormatType] prints for a decimal type gives the decimal
    type back, with its precision and its scale, under the name [number]. *)
Theorem ParseType_FormatType_decimal (T x : string) (p s : Z) :
  int64 p -> int64 s ->
  FormatType (DecimalType T p s) = Ok x ->
  ParseType x = Ok (DecimalType "number" p s).
Proof.
  intros Hp Hs. cbn [FormatType].
  destruct (Z.eqb_spec p 0) as [Hp0|Hp0]; destruct (Z.eqb_spec s 0) as [Hs0|Hs0];
    destruct (Z.ltb_spec s 0) as [Hn|Hn]; destruct (Z.ltb_spec 0 s) as [Hpos|Hpos];
    cbn [andb]; try lia; intros Hx; try discriminate Hx;
    injection Hx as <-; subst.
  - reflexivity.
  - apply (ParseType_number_p _ (FormatInt p)).
    + apply (fields_call1 "number");
        [now apply no_separator_literal | apply no_separator_FormatInt].
    + now apply StrconvFacts.ParseInt_FormatInt.
  - apply (ParseType_number_p_s _ (FormatInt p) (FormatInt s)).
    + apply (fields_call2 "number");
        [now apply no_separator_literal | apply no_separator_FormatInt ..].
    + now apply StrconvFacts.ParseInt_FormatInt.
    + now apply StrconvFacts.ParseInt_FormatInt.
Qed.

Lemma int64_12_3 : int64 12 /\ int64 3.
Proof. unfold int64. lia. Qed.

Lemma ParseType_FormatType_decimal_witness :
  ParseType "number(12,3)" = Ok (DecimalType "number" 12 3).
Proof.
  exact (ParseType_FormatType_decimal "NUMBER" "number(12,3)" 12 3
           (proj1 int64_12_3) (proj2 int64_12_3) eq_refl).
Defined.

(** X5: Parsing what [FormatType] prints for a string type gives a string type
    of the same size under the name [varchar2] when the size is from 2 to
    4000; below 2 it gives the type [char] with no size, and above 4000 the
    user-defined type [clob]. What [FormatType] prints for a binary type is
    never parsed as a binary type: it comes back as a user-defined type of
    that spelling. *)
Theorem ParseType_FormatType_sized (T : string) (n : Z) :
  (2 <= n <= 4000 ->
   FormatType (StringType T n) ≫= ParseType = Ok (StringType "varchar2" n))
  /\ (n < 2 -> FormatType (StringType T n) ≫= ParseType = Ok (StringType "char" 0))
  /\ (4000 < n ->
      FormatType (StringType T n) ≫= ParseType = Ok (UserDefinedType "clob"))
  /\ exists x, FormatType (BinaryType T n) = Ok x
               /\ ParseType x = Ok (UserDefinedType x).
Proof.
  cbn [FormatType].
  destruct (Z.ltb_spec n 2) as [H2|H2]; [|destruct (Z.ltb_spec 4000 n) as [H4|H4]].
  - repeat split; try (intros; lia); try reflexivity.
    eexists. split; reflexivity.
  - repeat split; try (intros; lia); try reflexivity.
    eexists. split; reflexivity.
  - repeat split; try (intros; lia).
    + intros _. cbn [mbind result_bind].
      apply (ParseType_varchar2 _ (FormatInt n)).
      * apply (fields_call1 "varchar2");
          [now apply no_separator_literal | apply no_separator_FormatInt].
      * apply StrconvFacts.ParseInt_FormatInt. unfold int64. lia.
    + eexists. split; [reflexivity|].
      apply ParseType_raw_sized, no_separator_FormatInt.
Qed.

Lemma ParseType_FormatType_sized_witness :
  FormatType (StringType "VARCHAR2" 255) ≫= ParseType = Ok (StringType "varchar2" 255).
Proof.
  exact (proj1 (ParseType_FormatType_sized "VARCHAR2" 255) bound_255).
Defined.

(** X6: Parsing what [FormatType] prints for a type of a bare name. An integer
    type comes back as [int]; a time type whose name is, in any letter
    case, one of the four time names comes back under that name in lower
    case, and so does a JSON type named [json]; a float type named [float]
    or [double] comes back with the default precision of that name, 24 or
    53, whatever precision it had. *)
Theorem ParseType_FormatType_names :
  (forall T, FormatType (IntegerType T) ≫= ParseType = Ok (IntegerType "int"))
  /\ (forall T,
        one_of (ToLower T)
          [TypeDate; TypeTimestamp; TypeTimestampTZ; TypeTimestampLTZ] = true ->
        FormatType (TimeType T) ≫= ParseType = Ok (TimeType (ToLower T)))
  /\ (forall T, ToLower T = TypeJSON ->
        FormatType (JSONType T) ≫= ParseType = Ok (JSONType "json"))
  /\ (forall T p, ToLower T = TypeFloat ->
        FormatType (FloatType T p) ≫= ParseType = Ok (FloatType "float" 24))
  /\ (forall T p, ToLower T = TypeDouble ->
        FormatType (FloatType T p) ≫= ParseType = Ok (FloatType "double" 53)).
Proof.
  split; [reflexivity|]. split; [|split; [|split]].
  - intros T HT. unfold one_of in HT. cbn [existsb] in HT.
    cbn [FormatType].
    repeat match type of HT with
           | (String.eqb ?a ?b || _)%bool = true =>
               destruct (String.eqb_spec a b) as [->|_]; [reflexivity|];
               cbn [orb] in HT
           end.
    discriminate HT.
  - intros T HT. cbn [FormatType]. rewrite HT. reflexivity.
  - intros T p HT. cbn [FormatType]. rewrite HT. reflexivity.
  - intros T p HT. cbn [FormatType]. rewrite HT. reflexivity.
Qed.

Lemma ParseType_FormatType_names_witness :
  FormatType (TimeType "TIMESTAMP WITH TIME ZONE") ≫= ParseType
  = Ok (TimeType "timestamp with time zone").
Proof.
  exact (proj1 (proj2 ParseType_FormatType_names) "TIMESTAMP WITH TIME ZONE" eq_refl).
Defined.

End ParseAfterFormat.

Section ParseEdges.

Import GoStrings Strconv ConvertFacts ParseFacts.

(** X7: A text with no field (the empty text, or separators only) makes
    [parseColumn] read [parts[0]] of an empty slice: it panics, and so does
    [ParseType]. *)
Theorem parseColumn_no_field (s : string) :
  all_bytes is_separator s = true ->
  parseColumn s = Panic IndexOutOfRange /\ ParseType s = Panic IndexOutOfRange.
Proof.
  intros Hs. unfold ParseType, parseColumn, FieldsFunc.
  rewrite (fields_from_separators _ _ Hs). split; reflexivity.
Qed.

Lemma parseColumn_no_field_witness :
  parseColumn "( , )" = Panic IndexOutOfRange /\ ParseType "( , )" = Panic IndexOutOfRange.
Proof. exact (parseColumn_no_field "( , )" eq_refl). Defined.

(** X8: [parseColumn] panics in no other case than on a text with no field,
    except in the char family: on a text whose first field is none of the
    four char-family names it returns a descriptor or an error. *)
Theorem parseColumn_panics (s : string) (p : panic) :
  parseColumn s = Panic p ->
  all_bytes is_separator s = true
  \/ exists p0 rest,
       FieldsFunc s is_separator = p0 :: rest
       /\ one_of p0 [TypeVarchar; TypeNVarchar; TypeChar; TypeNChar] = true.
Proof.
  unfold parseColumn. destruct (FieldsFunc s is_separator) as [|p0 rest] eqn:Es.
  - intros _. left. destruct (all_bytes is_separator s) eqn:Ea; [reflexivity|].
    now apply fields_from_some in Ea.
  - change (index_at 0 (p0 :: rest)) with (Ok p0). cbn [mbind result_bind].
    destruct (one_of p0 [TypeVarchar; TypeNVarchar; TypeChar; TypeNChar]) eqn:Efam.
    + intros _. right. eauto.
    + repeat match goal with
             | |- context [if String.eqb ?a ?b then _ else _] =>
                 destruct (String.eqb a b)
             end; try discriminate.
      destruct rest as [|p1 [|p2 rest]]; cbn [mbind result_bind]; try discriminate.
      * destruct (ParseInt p1); discriminate.
      * destruct (ParseInt p1); cbn [mbind result_bind]; [|discriminate].
        destruct (ParseInt p2); discriminate.
Qed.

Lemma parseColumn_panics_witness :
  all_bytes is_separator "nchar" = true
  \/ exists p0 rest,
       FieldsFunc "nchar" is_separator = p0 :: rest
       /\ one_of p0 [TypeVarchar; TypeNVarchar; TypeChar; TypeNChar] = true.
Proof. exact (parseColumn_panics "nchar" SliceBoundsOutOfRange eq_refl). Defined.

Local Ltac in_list := cbn [In]; repeat (first [left; reflexivity | right]).

(** The type name that [parseCharParts] leaves in the descriptor. *)
Lemma parseCharParts_typ (parts : list string) (c c' : columnDesc) :
  parseCharParts parts c = Ok c' ->
  typ c' = typ c \/ In (typ c') [TypeVarchar; TypeChar; TypeNChar].
Proof.
  unfold parseCharParts.
  assert (Hsize : forall (d : columnDesc) (ps : list string),
            match ps with
            | [] => Ok d
            | p0 :: _ =>
                match ParseInt p0 with
                | inr e =>
                    p1 ← index_at 1 ps;
                    Err (Errorf "oracle: parse size %q: %w"
                           [ArgString p1; ArgError (NumError e)])
                | inl sz => Ok (set_size sz d)
                end
            end = Ok c' -> typ c' = typ d).
  { intros d [|p0 ps]; [now intros [= <-]|].
    destruct (ParseInt p0); [now intros [= <-]|].
    destruct (index_at 1 (p0 :: ps)); discriminate. }
  repeat match goal with
         | |- context [if ?b then _ else _] => destruct b
         end;
    match goal with
    | |- context [slice_from ?k parts] => destruct (slice_from k parts) as [ps| |]
    end; cbn [mbind result_bind]; try discriminate;
    intros Hc; apply Hsize in Hc; rewrite Hc; cbn [typ set_typ];
    first [now left | right; in_list].
Qed.

(** The type name in the descriptor of [parseColumn]: the whole text, or one
    of the names that [parseColumn] has a case for. *)
Lemma parseColumn_typ (x : string) (d : columnDesc) :
  parseColumn x = Ok d ->
  typ d = x
  \/ In (typ d) [TypeVarchar; TypeNVarchar; TypeChar; TypeNChar; TypeNumber;
                 TypeDouble; TypeInt; TypeFloat].
Proof.
  unfold parseColumn.
  destruct (index_at 0 (FieldsFunc x is_separator)) as [p0| |]; try discriminate.
  cbn [mbind result_bind].
  destruct (one_of p0 [TypeVarchar; TypeNVarchar; TypeChar; TypeNChar]) eqn:Efam.
  - intros Hc. apply parseCharParts_typ in Hc. cbn [typ] in Hc.
    destruct Hc as [Hc|Hc].
    + rewrite Hc. right. unfold one_of in Efam. cbn [existsb] in Efam.
      repeat match type of Efam with
             | (String.eqb ?a ?b || _)%bool = true =>
                 destruct (String.eqb_spec a b) as [Heq|_]; [rewrite Heq; in_list|];
                 cbn [orb] in Efam
             end.
      discriminate Efam.
    + right. cbn [In] in Hc |- *. tauto.
  - destruct (String.eqb_spec p0 TypeNumber) as [->|_].
    + intros Hc. right.
      assert (typ d = TypeNumber) as ->; [|in_list].
      destruct (FieldsFunc x is_separator) as [|q0 [|q1 [|q2 qs]]];
        cbn [mbind result_bind] in Hc.
      * now injection Hc as <-.
      * now injection Hc as <-.
      * destruct (ParseInt q1); cbn [mbind result_bind] in Hc;
          [now injection Hc as <- | discriminate Hc].
      * destruct (ParseInt q1); cbn [mbind result_bind] in Hc; [|discriminate Hc].
        destruct (ParseInt q2); [now injection Hc as <- | discriminate Hc].
    + destruct (String.eqb_spec p0 TypeDouble) as [->|_];
        [intros [= <-]; right; in_list|].
      destruct (String.eqb_spec p0 TypeInt) as [->|_];
        [intros [= <-]; right; in_list|].
      destruct (String.eqb_spec p0 TypeFloat) as [->|_];
        [intros [= <-]; right; in_list|].
      intros [= <-]. now left.
Qed.

(** [columnType] produces these variants only. *)
Lemma columnType_variant (c : columnDesc) :
  match columnType c with
  | IntegerType T | TimeType T | JSONType T | UnsupportedType T => T = typ c
  | BinaryType T n => T = typ c /\ n = 0
  | StringType T n => T = typ c /\ n = size c
  | FloatType T p => T = typ c /\ p = precision c
  | DecimalType T p s => T = typ c /\ p = precision c /\ s = scale c
  | _ => False
  end.
Proof.
  unfold columnType.
  repeat match goal with
         | |- context [if ?b then _ else _] => destruct b
         end; auto.
Qed.

(** X9: What [ParseType] returns is an integer, binary, string, time, float,
    JSON, decimal or user-defined type, never an [UnsupportedType]; a binary
    type has no size, and a user-defined type holds the whole text that was
    parsed. *)
Theorem ParseType_variants (x : string) (t : Type_) :
  ParseType x = Ok t ->
  canonical_variant t = true
  /\ (forall T, t <> UnsupportedType T)
  /\ (forall T n, t = BinaryType T n -> n = 0)
  /\ (forall T, t = UserDefinedType T -> T = x).
Proof.
  unfold ParseType. destruct (parseColumn x) as [d| |] eqn:Ed; try discriminate.
  cbn [mbind result_bind].
  pose proof (columnType_variant d) as Hv.
  destruct (columnType d) as [T n|T|T p s|T p|T|T|T|T n|T|T|T|T i v|T|T n|T n|T|T p|T|T|T]
    eqn:Et; try contradiction; intros [= <-];
    (split; [reflexivity|]); (split; [discriminate|]);
    (split; [intros ? ? [= ]; subst; tauto|]); try discriminate.
  intros T' [= <-].
  destruct (parseColumn_typ x d Ed) as [Hx|Hx]; [congruence|].
  exfalso. unfold columnType in Et. cbn [In] in Hx.
  repeat match type of Hx with
         | _ \/ _ => destruct Hx as [Hx|Hx]
         end; try (rewrite <- Hx in Et; discriminate Et).
  destruct Hx.
Qed.

Lemma ParseType_variants_witness :
  canonical_variant (UserDefinedType "interval day second") = true
  /\ (forall T, UserDefinedType "interval day second" <> UnsupportedType T)
  /\ (forall T n, UserDefinedType "interval day second" = BinaryType T n -> n = 0)
  /\ (forall T, UserDefinedType "interval day second" = UserDefinedType T ->
                T = "interval day second").
Proof.
  exact (ParseType_variants "interval day second"
           (UserDefinedType "interval day second") eq_refl).
Defined.

(** [ParseType] on a char-family text, by the fields of the text. *)
Lemma ParseType_nvarchar2 (x f : string) (n : Z) :
  FieldsFunc x is_separator = ["nvarchar2"; f] ->
  ParseInt f = inl n ->
  ParseType x = Ok (StringType "varchar2" n).
Proof.
  intros Hx Hf. unfold ParseType, parseColumn. rewrite Hx.
  change (index_at 0 ["nvarchar2"; f]) with (Ok "nvarchar2").
  cbn [mbind result_bind].
  change (one_of "nvarchar2" [TypeVarchar; TypeNVarchar; TypeChar; TypeNChar]) with true.
  cbn iota. unfold parseCharParts.
  change (Join ["nvarchar2"; f] " ") with (TypeNVarchar +:+ (" " +:+ f)).
  change (HasPrefix (TypeNVarchar +:+ (" " +:+ f)) TypeVarchar) with false.
  rewrite HasPrefix_app.
  cbn [slice_from length Nat.leb drop mbind result_bind].
  rewrite Hf. reflexivity.
Qed.

Lemma ParseType_char_2 (x kw f : string) :
  kw = "char" \/ kw = "nchar" ->
  FieldsFunc x is_separator = [kw; f] ->
  ParseType x = Ok (StringType kw 0).
Proof.
  intros Hkw Hx. unfold ParseType, parseColumn. rewrite Hx.
  destruct Hkw as [->| ->]; reflexivity.
Qed.

Lemma ParseType_char_3 (x kw f g : string) (n : Z) :
  kw = "char" \/ kw = "nchar" ->
  FieldsFunc x is_separator = [kw; f; g] ->
  ParseInt g = inl n ->
  ParseType x = Ok (StringType kw n).
Proof.
  intros Hkw Hx Hg. unfold ParseType, parseColumn. rewrite Hx.
  destruct Hkw as [->| ->].
  - change (index_at 0 ["char"; f; g]) with (Ok "char").
    cbn [mbind result_bind].
    change (one_of "char" [TypeVarchar; TypeNVarchar; TypeChar; TypeNChar]) with true.
    cbn iota. unfold parseCharParts.
    change (Join ["char"; f; g] " ") with (TypeChar +:+ (" " +:+ f +:+ " " +:+ g)).
    change (HasPrefix (TypeChar +:+ (" " +:+ f +:+ " " +:+ g)) TypeVarchar) with false.
    change (HasPrefix (TypeChar +:+ (" " +:+ f +:+ " " +:+ g)) TypeNVarchar) with false.
    rewrite HasPrefix_app.
    cbn [slice_from length Nat.leb drop mbind result_bind].
    rewrite Hg. reflexivity.
  - change (index_at 0 ["nchar"; f; g]) with (Ok "nchar").
    cbn [mbind result_bind].
    change (one_of "nchar" [TypeVarchar; TypeNVarchar; TypeChar; TypeNChar]) with true.
    cbn iota. unfold parseCharParts.
    change (Join ["nchar"; f; g] " ") with (TypeNChar +:+ (" " +:+ f +:+ " " +:+ g)).
    change (HasPrefix (TypeNChar +:+ (" " +:+ f +:+ " " +:+ g)) TypeVarchar) with false.
    change (HasPrefix (TypeNChar +:+ (" " +:+ f +:+ " " +:+ g)) TypeNVarchar) with false.
    change (HasPrefix (TypeNChar +:+ (" " +:+ f +:+ " " +:+ g)) TypeChar) with false.
    rewrite HasPrefix_app.
    cbn [slice_from length Nat.leb drop mbind result_bind].
    rewrite Hg. reflexivity.
Qed.

(** X10: The char family. [varchar2(n)] and [nvarchar2(n)] both parse to a
    string type named [varchar2] of size [n]. In [char(f)] and [nchar(f)]
    the field between the parentheses is not read, whatever it is, and the
    size is 0; a size is read from a field that follows it, as in
    [char(f n)]. The bare names [varchar2] and [nvarchar2] parse with size
    0, and the bare names [char] and [nchar] make [parseCharParts] cut
    [parts[2:]] of a slice of one part, which panics. *)
Theorem ParseType_char_family (n : Z) (f : string) :
  int64 n -> no_separator f ->
  ParseType ("varchar2(" +:+ FormatInt n +:+ ")") = Ok (StringType "varchar2" n)
  /\ ParseType ("nvarchar2(" +:+ FormatInt n +:+ ")") = Ok (StringType "varchar2" n)
  /\ ParseType ("char(" +:+ f +:+ ")") = Ok (StringType "char" 0)
  /\ ParseType ("nchar(" +:+ f +:+ ")") = Ok (StringType "nchar" 0)
  /\ ParseType ("char(" +:+ f +:+ " " +:+ FormatInt n +:+ ")") = Ok (StringType "char" n)
  /\ ParseType ("nchar(" +:+ f +:+ " " +:+ FormatInt n +:+ ")") = Ok (StringType "nchar" n)
  /\ ParseType "varchar2" = Ok (StringType "varchar2" 0)
  /\ ParseType "nvarchar2" = Ok (StringType "varchar2" 0)
  /\ ParseType "char" = Panic SliceBoundsOutOfRange
  /\ ParseType "nchar" = Panic SliceBoundsOutOfRange.
Proof.
  intros Hn Hf.
  pose proof (StrconvFacts.ParseInt_FormatInt n Hn) as Hparse.
  pose proof (no_separator_FormatInt n) as Hsep.
  repeat split.
  - apply (ParseType_varchar2 _ (FormatInt n)); [|exact Hparse].
    apply (fields_call1 "varchar2"); [now apply no_separator_literal | exact Hsep].
  - apply (ParseType_nvarchar2 _ (FormatInt n)); [|exact Hparse].
    apply (fields_call1 "nvarchar2"); [now apply no_separator_literal | exact Hsep].
  - apply (ParseType_char_2 _ "char" f); [now left|].
    apply (fields_call1 "char"); [now apply no_separator_literal | exact Hf].
  - apply (ParseType_char_2 _ "nchar" f); [now right|].
    apply (fields_call1 "nchar"); [now apply no_separator_literal | exact Hf].
  - apply (ParseType_char_3 _ "char" f (FormatInt n)); [now left| |exact Hparse].
    apply (fields_call_space "char"); [now apply no_separator_literal | exact Hf | exact Hsep].
  - apply (ParseType_char_3 _ "nchar" f (FormatInt n)); [now right| |exact Hparse].
    apply (fields_call_space "nchar"); [now apply no_separator_literal | exact Hf | exact Hsep].
Qed.

Lemma no_separator_20 : int64 20 /\ no_separator "20".
Proof. split; [unfold int64; lia | now apply no_separator_literal]. Qed.

Lemma ParseType_char_family_witness :
  ParseType "nvarchar2(20)" = Ok (StringType "varchar2" 20)
  /\ ParseType "char(20)" = Ok (StringType "char" 0).
Proof.
  destruct (ParseType_char_family 20 "20" (proj1 no_separator_20) (proj2 no_separator_20))
    as (_ & Hn & Hc & _).
  exact (conj Hn Hc).
Defined.

(** [ParseType] on a text with a field that is no number, by the fields
    of the text. *)
Lemma ParseType_number_bad_precision (x f : string) (rest : list string) (e : NumErr) :
  FieldsFunc x is_separator = "number" :: f :: rest ->
  ParseInt f = inr e ->
  ParseType x =
  Err (Errorf "oracle: parse precision %q: %w" [ArgString f; ArgError (NumError e)]).
Proof.
  intros Hx Ef. unfold ParseType, parseColumn. rewrite Hx.
  change (index_at 0 ("number" :: f :: rest)) with (Ok "number").
  cbn [mbind result_bind].
  change (one_of "number" [TypeVarchar; TypeNVarchar; TypeChar; TypeNChar]) with false.
  change (String.eqb "number" TypeNumber) with true.
  cbn iota. rewrite Ef. reflexivity.
Qed.

Lemma ParseType_number_bad_scale (x g f : string) (rest : list string) (e : NumErr) (p : Z) :
  FieldsFunc x is_separator = "number" :: g :: f :: rest ->
  ParseInt g = inl p ->
  ParseInt f = inr e ->
  ParseType x =
  Err (Errorf "oracle: parse scale %q: %w" [ArgString g; ArgError (NumError e)]).
Proof.
  intros Hx Eg Ef. unfold ParseType, parseColumn. rewrite Hx.
  change (index_at 0 ("number" :: g :: f :: rest)) with (Ok "number").
  cbn [mbind result_bind].
  change (one_of "number" [TypeVarchar; TypeNVarchar; TypeChar; TypeNChar]) with false.
  change (String.eqb "number" TypeNumber) with true.
  cbn iota. rewrite Eg. cbn [mbind result_bind]. rewrite Ef. reflexivity.
Qed.

Lemma ParseType_varchar2_bad_size (x f : string) (rest : list string) (e : NumErr) :
  FieldsFunc x is_separator = "varchar2" :: f :: rest ->
  ParseInt f = inr e ->
  ParseType x =
  match rest with
  | [] => Panic IndexOutOfRange
  | g :: _ =>
      Err (Errorf "oracle: parse size %q: %w" [ArgString g; ArgError (NumError e)])
  end.
Proof.
  intros Hx Ef. unfold ParseType, parseColumn. rewrite Hx.
  change (index_at 0 ("varchar2" :: f :: rest)) with (Ok "varchar2").
  cbn [mbind result_bind].
  change (one_of "varchar2" [TypeVarchar; TypeNVarchar; TypeChar; TypeNChar]) with true.
  cbn iota. unfold parseCharParts.
  change (Join ("varchar2" :: f :: rest) " ")
    with (TypeVarchar +:+ (" " +:+ Join (f :: rest) " ")).
  rewrite HasPrefix_app.
  cbn [slice_from length Nat.leb drop mbind result_bind].
  rewrite Ef. now destruct rest.
Qed.

(** X11: A field that is no number. A precision that does not parse gives the
    error that quotes it, and a scale that does not parse gives the error
    that quotes the precision before it ([parts[1]]). A size that does not
    parse makes [parseCharParts] quote [parts[1]] of the slice it has cut:
    the field after the size when there is one, and an index out of range,
    a panic, when the size is the last field. *)
Theorem parseColumn_bad_number (f g : string) (e : NumErr) (p : Z) :
  no_separator f -> no_separator g ->
  ParseInt f = inr e -> ParseInt g = inl p ->
  ParseType ("number(" +:+ f +:+ ")") =
    Err (Errorf "oracle: parse precision %q: %w" [ArgString f; ArgError (NumError e)])
  /\ ParseType ("number(" +:+ g +:+ "," +:+ f +:+ ")") =
     Err (Errorf "oracle: parse scale %q: %w" [ArgString g; ArgError (NumError e)])
  /\ ParseType ("varchar2(" +:+ f +:+ ")") = Panic IndexOutOfRange
  /\ ParseType ("varchar2(" +:+ f +:+ " " +:+ g +:+ ")") =
     Err (Errorf "oracle: parse size %q: %w" [ArgString g; ArgError (NumError e)]).
Proof.
  intros Hf Hg Ef Eg.
  assert (Hnum : no_separator "number") by now apply no_separator_literal.
  assert (Hvar : no_separator "varchar2") by now apply no_separator_literal.
  repeat split.
  - apply (ParseType_number_bad_precision _ f []); [|exact Ef].
    now apply (fields_call1 "number").
  - apply (ParseType_number_bad_scale _ g f [] e p); [|exact Eg|exact Ef].
    now apply (fields_call2 "number").
  - apply (ParseType_varchar2_bad_size _ f [] e); [|exact Ef].
    now apply (fields_call1 "varchar2").
  - apply (ParseType_varchar2_bad_size _ f [g] e); [|exact Ef].
    now apply (fields_call_space "varchar2").
Qed.

Lemma no_separator_max_10 : no_separator "max" /\ no_separator "10".
Proof. split; now apply no_separator_literal. Qed.

Lemma parseColumn_bad_number_witness :
  ParseType "number(10,max)" =
    Err (Errorf "oracle: parse scale %q: %w" [ArgString "10"; ArgError (NumError ErrSyntax)])
  /\ ParseType "varchar2(max)" = Panic IndexOutOfRange.
Proof.
  destruct (parseColumn_bad_number "max" "10" ErrSyntax 10
              (proj1 no_separator_max_10) (proj2 no_separator_max_10) eq_refl eq_refl)
    as (_ & Hs & Hv & _).
  exact (conj Hs Hv).
Defined.

End ParseEdges.

(** ** [Open]: the ways it fails *)

Section OpenErrors.

Import SqlxModel.

Lemma Open_version_gate_witness :
  Open (db_params ["BINARY"; "AL32UTF8"; "190300"]) =
  if two_digits "1" "9" && two_digits "0" "3" && two_digits "0" "0" then
    Err (Errorf "oracle: unsupported oracle version: %s" [ArgString "19.03.00"])
  else
    Ok (Build_Driver
          (Build_conn (db_params ["BINARY"; "AL32UTF8"; "190300"])
             "BINARY" "AL32UTF8" "19.03.00")).
Proof.
  exact (Open_version_gate (db_params ["BINARY"; "AL32UTF8"; "190300"])
           (rows_of ["BINARY"; "AL32UTF8"; "190300"]) "BINARY" "AL32UTF8"
           "1" "9" "0" "3" "0" "0" eq_refl eq_refl).
Defined.

(** X14: [Open] before it looks at the version: a failure of the parameters
    query and a failure to scan its rows are returned wrapped, a number of
    values other than three is an error that tells the number, and a
    version that has not six bytes is an error that quotes it. *)
Theorem Open_rejections (db : ExecQuerier) :
  (forall e,
     QueryStrings db paramsQuery [] = Err e ->
     Open db = Err (Errorf "oracle: scanning system variables: %w" [ArgError e]))
  /\ (forall rows e,
        QueryStrings db paramsQuery [] = Ok rows ->
        ScanStrings rows = Err e ->
        Open db = Err (Errorf "oracle: failed scanning rows: %w" [ArgError e]))
  /\ (forall rows params,
        QueryStrings db paramsQuery [] = Ok rows ->
        ScanStrings rows = Ok params ->
        length params <> 3%nat ->
        Open db =
        Err (Errorf "oracle: unexpected number of rows: %d"
               [ArgInt (Z.of_nat (length params))]))
  /\ (forall rows c t v,
        QueryStrings db paramsQuery [] = Ok rows ->
        ScanStrings rows = Ok [c; t; v] ->
        String.length v <> 6%nat ->
        Open db = Err (Errorf "oracle: malformed version: %s" [ArgString v])).
Proof.
  unfold Open. repeat split.
  - intros e ->. reflexivity.
  - intros rows e -> Hs. cbn [wrap_err mbind result_bind]. rewrite Hs. reflexivity.
  - intros rows params -> Hs Hn. cbn [wrap_err mbind result_bind]. rewrite Hs.
    cbn [wrap_err mbind result_bind].
    destruct (Nat.eqb_spec (length params) 3); [contradiction | reflexivity].
  - intros rows c t v -> Hs Hv. cbn [wrap_err mbind result_bind]. rewrite Hs.
    cbn [wrap_err mbind result_bind length Nat.eqb negb index_at lookup list_lookup].
    destruct (Nat.eqb_spec (String.length v) 6); [contradiction | reflexivity].
Qed.

Lemma two_is_not_three : length ["BINARY"; "AL32UTF8"] <> 3%nat.
Proof. discriminate. Qed.

Lemma Open_rejections_witness :
  Open (db_params ["BINARY"; "AL32UTF8"]) =
  Err (Errorf "oracle: unexpected number of rows: %d" [ArgInt 2]).
Proof.
  exact (proj1 (proj2 (proj2 (Open_rejections (db_params ["BINARY"; "AL32UTF8"]))))
           (rows_of ["BINARY"; "AL32UTF8"]) ["BINARY"; "AL32UTF8"]
           eq_refl eq_refl two_is_not_three).
Defined.

End OpenErrors.

(** ** [inStrings]: the clause and the arguments *)

Module InStringsFacts.

Import GoStrings.

Lemma concat_cons (a : string) (l : list string) :
  String.concat "" (a :: l) = a +:+ String.concat "" l.
Proof.
  destruct l as [|b l]; cbn [String.concat].
  - now rewrite StringFacts.app_nil_r.
  - now rewrite StringFacts.app_nil_l.
Qed.

(** [strings.Join] puts the separator before every element but the first. *)
Lemma Join_cons (sep a : string) (l : list string) :
  Join (a :: l) sep = a +:+ String.concat "" (map (fun e => sep +:+ e) l).
Proof.
  unfold Join. revert a. induction l as [|b l IH]; intros a.
  - cbn [String.concat map]. now rewrite StringFacts.app_nil_r.
  - change (String.concat sep (a :: b :: l)) with (a +:+ sep +:+ String.concat sep (b :: l)).
    rewrite IH. cbn [map]. rewrite concat_cons. now rewrite (StringFacts.app_assoc sep).
Qed.

(** The loop of [inStrings] appends the names to the arguments. *)
Lemma in_list_args (s : list string) (i : nat) (args : list string) :
  (in_list s i args).2 = args ++ s.
Proof.
  revert i args. induction s as [|x s IH]; intros i args.
  - cbn. now rewrite app_nil_r.
  - cbn [in_list]. specialize (IH (S i) (args ++ [x])).
    destruct (in_list s (S i) (args ++ [x])) as [b args']. cbn [snd] in *.
    now rewrite IH, <- List.app_assoc.
Qed.

(** After the first name, the loop writes a comma and a placeholder for
    every name, numbered by the length of the arguments. *)
Lemma in_list_clause_next (s : list string) (i : nat) (args : list string) :
  (in_list s (S i) args).1 =
  String.concat "" (map (fun e => ", " +:+ e)
                      (map placeholder (seq (S (length args)) (length s)))).
Proof.
  revert i args. induction s as [|x s IH]; intros i args; [reflexivity|].
  cbn [in_list]. specialize (IH (S i) (args ++ [x])).
  destruct (in_list s (S (S i)) (args ++ [x])) as [b args']. cbn [fst] in *.
  cbn [length seq map]. rewrite concat_cons, IH.
  rewrite length_app. cbn [length Nat.ltb Nat.leb].
  replace (length args + 1)%nat with (S (length args)) by lia.
  unfold placeholder. now rewrite !StringFacts.app_assoc.
Qed.

Lemma in_list_clause (s : list string) (args : list string) :
  (in_list s 0 args).1 = Join (map placeholder (seq (S (length args)) (length s))) ", ".
Proof.
  destruct s as [|x s]; [reflexivity|].
  cbn [in_list].
  pose proof (in_list_clause_next s 0 (args ++ [x])) as Hn.
  destruct (in_list s 1 (args ++ [x])) as [b args']. cbn [fst] in *.
  cbn [length seq map]. rewrite Join_cons, Hn.
  rewrite length_app. cbn [length Nat.ltb Nat.leb].
  replace (length args + 1)%nat with (S (length args)) by lia.
  unfold placeholder. rewrite StringFacts.app_nil_l. now rewrite !StringFacts.app_assoc.
Qed.

(** [inStrings], as a clause and an argument list. *)
Lemma inStrings_eq (s : list string) (query : string -> strings_query)
    (args : list string) :
  inStrings s query args = (query (in_clause (S (length args)) (length s)), args ++ s).
Proof.
  unfold inStrings, in_clause.
  destruct s as [|x [|y s]].
  - now rewrite List.app_nil_r.
  - rewrite length_app. cbn [length].
    replace (length args + 1)%nat with (S (length args)) by lia. reflexivity.
  - pose proof (in_list_clause (x :: y :: s) args) as Hc.
    pose proof (in_list_args (x :: y :: s) 0 args) as Ha.
    destruct (in_list (x :: y :: s) 0 args) as [b args']. cbn [fst snd] in *.
    now rewrite Hc, Ha.
Qed.

End InStringsFacts.

Section InStrings.

Import GoStrings.

(** X15: [inStrings] appends the names to the arguments it is given, in their
    order, and adds no other argument. *)
Theorem inStrings_arguments (s : list string) (query : string -> strings_query)
    (args : list string) :
  (inStrings s query args).2 = args ++ s.
Proof. now rewrite InStringsFacts.inStrings_eq. Qed.

(** X16: The clause that [inStrings] prints into the query: for one name an
    equality with the placeholder that follows the arguments given, and for
    any other number of names (none included) a list of one placeholder per
    name, separated by a comma and a space and numbered in sequence. The
    placeholder number [k] stands for the argument number [k], from 1, of
    the list returned. *)
Theorem inStrings_clause (s : list string) (query : string -> strings_query)
    (args : list string) :
  (inStrings s query args).1 =
    query (match s with
           | [_] => "= " +:+ placeholder (S (length args))
           | _ => "IN ("
                    +:+ Join (map placeholder (seq (S (length args)) (length s))) ", "
                    +:+ ")"
           end)
  /\ forall j x, s !! j = Some x ->
       (inStrings s query args).2 !! (length args + j)%nat = Some x
       /\ map placeholder (seq (S (length args)) (length s)) !! j
          = Some (placeholder (S (length args + j))).
Proof.
  rewrite InStringsFacts.inStrings_eq. cbn [fst snd]. split.
  - unfold in_clause. now destruct s as [|x [|y s]].
  - intros j x Hj. split.
    + rewrite lookup_app_r by lia.
      now replace (length args + j - length args)%nat with j by lia.
    + rewrite list_lookup_fmap, lookup_seq_lt by now apply lookup_lt_Some in Hj.
      reflexivity.
Qed.

Lemma inStrings_clause_witness :
  (inStrings ["HR"; "SCOTT"] schemasQueryArgs ["X"]).2 !! (length ["X"] + 1)%nat
    = Some "SCOTT"
  /\ map placeholder (seq (S (length ["X"])) (length ["HR"; "SCOTT"])) !! 1%nat
     = Some (placeholder (S (length ["X"] + 1))).
Proof.
  exact (proj2 (inStrings_clause ["HR"; "SCOTT"] schemasQueryArgs ["X"])
           1%nat "SCOTT" eq_refl).
Defined.

(** For example: two names after one argument. *)
Example inStrings_two_names :
  inStrings ["HR"; "SCOTT"] tablesQueryArgs ["S"]
  = (tablesQueryArgs "IN ($2, $3)", ["S"; "HR"; "SCOTT"]).
Proof. reflexivity. Qed.

End InStrings.

(** ** [schemas] and [tableNames]: what they ask and what they return *)

Module RowsFacts.

(** A loop that collects a value from every row. *)
Lemma for_each_collect {A B : Type} (f : A -> B) (l : list A) (acc : list B) :
  for_each (fun acc row => match row with
                           | ScanFails e => Err e
                           | Row v => Ok (acc ++ [f v])
                           end)
    (map Row l) acc
  = Ok (acc ++ map f l).
Proof.
  revert acc. induction l as [|a l IH]; intros acc; cbn [map for_each].
  - now rewrite app_nil_r.
  - cbn [mbind result_bind]. rewrite IH. now rewrite <- app_assoc.
Qed.

(** The loop stops at the first row that cannot be scanned. *)
Lemma for_each_collect_fails {A B : Type} (f : A -> B) (pre : list A) (e : error)
    (post : list (scanned A)) (acc : list B) :
  for_each (fun acc row => match row with
                           | ScanFails e => Err e
                           | Row v => Ok (acc ++ [f v])
                           end)
    (map Row pre ++ ScanFails e :: post) acc
  = Err e.
Proof.
  rewrite LoopFacts.for_each_app, for_each_collect. reflexivity.
Qed.

Lemma ScanStrings_rows (R : Rows string) (names : list string) :
  rows_items R = map Row names -> ScanStrings R = Ok names.
Proof.
  intros HR. unfold ScanStrings. rewrite HR.
  rewrite (for_each_collect (fun v : string => v) names []). now rewrite map_id.
Qed.

Lemma ScanStrings_fails (R : Rows string) (pre : list string) (e : error)
    (post : list (scanned string)) :
  rows_items R = map Row pre ++ ScanFails e :: post -> ScanStrings R = Err e.
Proof.
  intros HR. unfold ScanStrings. rewrite HR.
  exact (for_each_collect_fails (fun v : string => v) pre e post []).
Qed.

End RowsFacts.

Section Lists.

Context `{Sqlx}.

Lemma schemas_sends (i : conn) (opts : option (list string)) :
  schemas i opts =
  (rows ← wrap_err (fun e => Errorf "oracle: querying schemas: %w" [ArgError e])
            (QueryStrings (conn_db i) (schemas_request opts).1 (schemas_request opts).2);
   for_each
     (fun schemas row => match row with
                         | ScanFails e => Err e
                         | Row name => Ok (schemas ++ [named_schema name])
                         end)
     (rows_items rows) []).
Proof.
  unfold schemas, schemas_request.
  destruct opts as [[|x l]|]; try reflexivity.
  now rewrite InStringsFacts.inStrings_eq.
Qed.

(** X17: [schemas] sends the plain schemas query without arguments when the
    options are nil or name no schema, and else the query with the clause
    for the names, numbered from 1, and the names as arguments. A failure
    of the query is returned wrapped. When the rows decode, the result is
    one schema per row, in the order of the rows, with the name of the row
    and no table, whatever the rows report when the iteration ends; a row
    that cannot be scanned gives its error, not wrapped. *)
Theorem schemas_lists (i : conn) (opts : option (list string)) :
  (forall e,
     QueryStrings (conn_db i) (schemas_request opts).1 (schemas_request opts).2 = Err e ->
     schemas i opts = Err (Errorf "oracle: querying schemas: %w" [ArgError e]))
  /\ (forall R names,
        QueryStrings (conn_db i) (schemas_request opts).1 (schemas_request opts).2 = Ok R ->
        rows_items R = map Row names ->
        schemas i opts = Ok (map named_schema names))
  /\ (forall R pre e post,
        QueryStrings (conn_db i) (schemas_request opts).1 (schemas_request opts).2 = Ok R ->
        rows_items R = map Row pre ++ ScanFails e :: post ->
        schemas i opts = Err e).
Proof.
  rewrite schemas_sends. repeat split.
  - intros e ->. reflexivity.
  - intros R names -> HR. cbn [wrap_err mbind result_bind]. rewrite HR.
    exact (RowsFacts.for_each_collect named_schema names []).
  - intros R pre e post -> HR. cbn [wrap_err mbind result_bind]. rewrite HR.
    exact (RowsFacts.for_each_collect_fails named_schema pre e post []).
Qed.

Lemma tableNames_sends (i : conn) (schema : string) (opts : option (list string)) :
  tableNames i schema opts =
  (rows ← wrap_err (fun e => Errorf "oracle: querying schema tables: %w" [ArgError e])
            (QueryStrings (conn_db i) (tables_request schema opts).1
               (tables_request schema opts).2);
   wrap_err (fun e => Errorf "oracle: scanning table names: %w" [ArgError e])
     (ScanStrings rows)).
Proof.
  unfold tableNames, tables_request.
  destruct opts as [[|x l]|]; try reflexivity.
  now rewrite InStringsFacts.inStrings_eq.
Qed.

(** X18: [tableNames] sends the plain tables query with the schema as its only
    argument when the options are nil or name no table, and else the query
    with the clause for the names, numbered from 2, and the schema followed
    by the names as arguments. A failure of the query and a row that cannot
    be scanned are returned wrapped; when the rows decode, the result is
    the names of the rows in their order. *)
Theorem tableNames_lists (i : conn) (schema : string) (opts : option (list string)) :
  (forall e,
     QueryStrings (conn_db i) (tables_request schema opts).1
       (tables_request schema opts).2 = Err e ->
     tableNames i schema opts =
     Err (Errorf "oracle: querying schema tables: %w" [ArgError e]))
  /\ (forall R names,
        QueryStrings (conn_db i) (tables_request schema opts).1
          (tables_request schema opts).2 = Ok R ->
        rows_items R = map Row names ->
        tableNames i schema opts = Ok names)
  /\ (forall R pre e post,
        QueryStrings (conn_db i) (tables_request schema opts).1
          (tables_request schema opts).2 = Ok R ->
        rows_items R = map Row pre ++ ScanFails e :: post ->
        tableNames i schema opts =
        Err (Errorf "oracle: scanning table names: %w" [ArgError e])).
Proof.
  rewrite tableNames_sends. repeat split.
  - intros e ->. reflexivity.
  - intros R names -> HR. cbn [wrap_err mbind result_bind].
    now rewrite (RowsFacts.ScanStrings_rows R names HR).
  - intros R pre e post -> HR. cbn [wrap_err mbind result_bind].
    now rewrite (RowsFacts.ScanStrings_fails R pre e post HR).
Qed.

End Lists.

Section ListsExamples.

Import SqlxModel.

Lemma schemas_lists_witness :
  schemas (conn_of (db_catalog [] ["HR"; "SCOTT"] [] [] [] [] [])) (Some ["HR"; "SCOTT"])
  = Ok [named_schema "HR"; named_schema "SCOTT"].
Proof.
  exact (proj1 (proj2 (schemas_lists
                         (conn_of (db_catalog [] ["HR"; "SCOTT"] [] [] [] [] []))
                         (Some ["HR"; "SCOTT"])))
           (rows_of ["HR"; "SCOTT"]) ["HR"; "SCOTT"] eq_refl eq_refl).
Defined.

Lemma tableNames_lists_witness :
  tableNames (conn_of (db_catalog [] [] ["EMP"; "DEPT"] [] [] [] [])) "HR" None
  = Ok ["EMP"; "DEPT"].
Proof.
  exact (proj1 (proj2 (tableNames_lists
                         (conn_of (db_catalog [] [] ["EMP"; "DEPT"] [] [] [] []))
                         "HR" None))
           (rows_of ["EMP"; "DEPT"]) ["EMP"; "DEPT"] eq_refl eq_refl).
Defined.

(** The requests, spelled out for one and for two names. *)
Example requests_spelled :
  schemas_request (Some ["HR"]) = (schemasQueryArgs "= $1", ["HR"])
  /\ schemas_request (Some ["HR"; "SCOTT"])
     = (schemasQueryArgs "IN ($1, $2)", ["HR"; "SCOTT"])
  /\ tables_request "HR" (Some ["EMP"; "DEPT"])
     = (tablesQueryArgs "IN ($2, $3)", ["HR"; "EMP"; "DEPT"])
  /\ tables_request "HR" (Some []) = (tablesQuery, ["HR"]).
Proof. repeat split. Qed.

End ListsExamples.

(** ** [defaultExpr] and [canConvert] are total *)

Module SliceFacts.

Lemma length_substring (n m : nat) (s : string) :
  String.length (String.substring n m s) = Nat.min m (String.length s - n).
Proof.
  revert n m. induction s as [|c s IH]; intros [|n] [|m]; cbn; try reflexivity.
  - now rewrite IH, Nat.sub_0_r.
  - apply IH.
  - apply IH.
Qed.

(** Where [strings.Index] finds a text that is not empty, the text fits. *)
Lemma Index_fits (x sub : string) (i : nat) :
  sub <> "" ->
  GoStrings.Index x sub = Some i ->
  (i + String.length sub <= String.length x)%nat.
Proof.
  intros Hne Hi. apply String.index_correct1 in Hi.
  pose proof (length_substring i (String.length sub) x) as Hl. rewrite Hi in Hl.
  destruct sub as [|c sub]; [congruence|]. cbn [String.length] in *. lia.
Qed.

Lemma go_slice_Ok (x : string) (lo hi : nat) :
  (lo <= hi <= String.length x)%nat ->
  go_slice x (Z.of_nat lo) (Z.of_nat hi) = Ok (String.substring lo (hi - lo) x).
Proof.
  intros Hb. unfold go_slice, GoStrings.slice.
  destruct (Z.leb_spec 0 (Z.of_nat lo)); [|lia].
  destruct (Z.leb_spec (Z.of_nat lo) (Z.of_nat hi)); [|lia].
  destruct (Z.leb_spec (Z.of_nat hi) (Z.of_nat (String.length x))); [|lia].
  cbn [andb]. rewrite Nat2Z.id. do 2 f_equal. lia.
Qed.

End SliceFacts.

Section DefaultExprTotal.

Context `{Sqlx}.

(** [canConvert] under the precondition on [sqlx.IsQuoted] below. *)
Lemma canConvert_total (t : ColumnType) (x : string) :
  (forall s, IsQuoted s "'" = true -> (2 <= String.length s)%nat) ->
  canConvert t x = Ok ("", false)
  \/ exists i,
       GoStrings.Index x ("::" +:+ cast_name t) = Some i
       /\ IsQuoted (String.substring 0 i x) "'" = true
       /\ (canConvert t x = Ok (String.substring 0 i x, true)
           \/ canConvert t x = Ok (String.substring 1 (i - 2) x, true)).
Proof.
  intros Hlen. unfold canConvert. fold (cast_name t).
  destruct (GoStrings.Index x ("::" +:+ cast_name t)) as [i|] eqn:Ei; [|now left].
  pose proof (SliceFacts.Index_fits _ _ _ (cast_sub_nonempty (cast_name t)) Ei) as Hfit.
  change (go_slice x 0 (Z.of_nat i)) with (go_slice x (Z.of_nat 0) (Z.of_nat i)).
  rewrite SliceFacts.go_slice_Ok by lia. rewrite Nat.sub_0_r.
  cbn [mbind result_bind].
  destruct (IsQuoted (String.substring 0 i x) "'") eqn:Eq; cbn [negb]; [|now left].
  pose proof (Hlen _ Eq) as Hi. rewrite SliceFacts.length_substring in Hi.
  replace (Z.of_nat i - 1) with (Z.of_nat (i - 1)) by lia.
  change 1 with (Z.of_nat 1).
  rewrite SliceFacts.go_slice_Ok by lia.
  replace (i - 1 - 1)%nat with (i - 2)%nat by lia.
  cbn [mbind result_bind].
  destruct (ct_Type t);
    repeat match goal with
           | |- context [if ?b then _ else _] => destruct b
           end;
    first [now left | right; exists i; split; [reflexivity|]; split; [exact Eq|]; tauto].
Qed.

(** X19: When [sqlx.IsQuoted] holds of no text shorter than its two quotes,
    [canConvert] and [defaultExpr] return on every column and every text:
    they neither panic on a slice nor fail. A raw expression holds the
    whole text; a literal holds the whole text, or the text before the
    first cast to the type of the column, with or without its first and its
    last byte. *)
Theorem defaultExpr_total
    (Hlen : forall s, IsQuoted s "'" = true -> (2 <= String.length s)%nat)
    (c : Column) (x : string) :
  (exists v ok, canConvert (col_Type c) x = Ok (v, ok))
  /\ (defaultExpr c x = Ok (RawExpr x)
      \/ defaultExpr c x = Ok (Literal x)
      \/ exists i,
           GoStrings.Index x ("::" +:+ cast_name (col_Type c)) = Some i
           /\ (defaultExpr c x = Ok (Literal (String.substring 0 i x))
               \/ defaultExpr c x = Ok (Literal (String.substring 1 (i - 2) x)))).
Proof.
  pose proof (canConvert_total (col_Type c) x Hlen) as Hc.
  split.
  - destruct Hc as [Hc|(i & _ & _ & [Hc|Hc])]; rewrite Hc; eauto.
  - unfold defaultExpr.
    destruct (IsLiteralBool x || IsLiteralNumber x || IsQuoted x "'"); [tauto|].
    destruct Hc as [Hc|(i & Hi & _ & [Hc|Hc])]; rewrite Hc; [tauto| |];
      right; right; exists i; (split; [exact Hi|]); tauto.
Qed.

End DefaultExprTotal.

Section DefaultExprTotalExample.

Import SqlxModel.

Lemma defaultExpr_total_witness :
  (exists v ok, canConvert (col_Type (column "n" (IntegerType "int") "int")) "'7'::int"
                = Ok (v, ok))
  /\ (defaultExpr (column "n" (IntegerType "int") "int") "'7'::int"
        = Ok (RawExpr "'7'::int")
      \/ defaultExpr (column "n" (IntegerType "int") "int") "'7'::int"
         = Ok (Literal "'7'::int")
      \/ exists i,
           GoStrings.Index "'7'::int"
             ("::" +:+ cast_name (col_Type (column "n" (IntegerType "int") "int")))
           = Some i
           /\ (defaultExpr (column "n" (IntegerType "int") "int") "'7'::int"
                 = Ok (Literal (String.substring 0 i "'7'::int"))
               \/ defaultExpr (column "n" (IntegerType "int") "int") "'7'::int"
                  = Ok (Literal (String.substring 1 (i - 2) "'7'::int")))).
Proof.
  exact (defaultExpr_total is_quoted_length (column "n" (IntegerType "int") "int")
           "'7'::int").
Defined.

(** The precondition is needed: were a single quote taken as quoted, the
    slice [x[1:i-1]] of [canConvert] would be out of bounds. *)
Example canConvert_short_quote :
  let loose : Sqlx :=
    {| ValidString := fun s => ns_Valid s;
       IsQuoted := fun s q => String.eqb s (String q "");
       IsLiteralBool := fun _ => false;
       IsLiteralNumber := fun _ => false;
       ScanFKs := fun t _ => Ok t;
       LinkSchemaTables := fun s _ => s |} in
  @canConvert loose (Build_ColumnType (IntegerType "int") "int" false) "'::int"
  = Panic SliceBoundsOutOfRange.
Proof. reflexivity. Qed.

End DefaultExprTotalExample.

(** ** [addChecks]: the checks that the rows assemble *)

Section ChecksFacts.

Implicit Types (r c : check_row) (rows cs : list check_row) (n : string).

Lemma check_creates_snoc rows r :
  check_creates (rows ++ [r]) =
  if check_has_name (kr_name r) (check_creates rows) then check_creates rows
  else check_creates rows ++ [r].
Proof. unfold check_creates. rewrite fold_left_app. reflexivity. Qed.

Lemma check_has_name_true n cs :
  check_has_name n cs = true <-> exists j c, cs !! j = Some c /\ kr_name c = n.
Proof.
  unfold check_has_name. rewrite existsb_exists. split.
  - intros (c & Hin & Hc). apply String.eqb_eq in Hc.
    apply list_elem_of_In, list_elem_of_lookup in Hin as [j Hj]. eauto.
  - intros (j & c & Hj & Hc). exists c. split.
    + apply list_elem_of_In, list_elem_of_lookup. eauto.
    + now apply String.eqb_eq.
Qed.

(** The creating rows have distinct names. *)
Lemma check_creates_distinct rows j1 j2 c1 c2 :
  check_creates rows !! j1 = Some c1 ->
  check_creates rows !! j2 = Some c2 ->
  kr_name c1 = kr_name c2 ->
  j1 = j2.
Proof.
  revert j1 j2 c1 c2.
  induction rows as [|r rows IH] using rev_ind; intros j1 j2 c1 c2; [discriminate|].
  rewrite check_creates_snoc.
  destruct (check_has_name (kr_name r) (check_creates rows)) eqn:E; [apply IH|].
  intros H1 H2 Hn.
  apply lookup_snoc_Some in H1 as [[Hl1 H1]|[Hl1 <-]];
    apply lookup_snoc_Some in H2 as [[Hl2 H2]|[Hl2 <-]].
  - eapply IH; eauto.
  - exfalso. assert (check_has_name (kr_name r) (check_creates rows) = true); [|congruence].
    apply check_has_name_true. eauto.
  - exfalso. assert (check_has_name (kr_name r) (check_creates rows) = true); [|congruence].
    apply check_has_name_true. eauto.
  - congruence.
Qed.

(** The creating rows are rows, in the order of the rows. *)
Lemma check_creates_sublist rows : sublist (check_creates rows) rows.
Proof.
  induction rows as [|r rows IH] using rev_ind; [constructor|].
  rewrite check_creates_snoc.
  destruct (check_has_name (kr_name r) (check_creates rows)).
  - now apply sublist_inserts_r.
  - now apply sublist_app.
Qed.

Lemma check_rows_named_snoc n rows r :
  check_rows_named n (rows ++ [r]) =
  check_rows_named n rows ++ (if String.eqb (kr_name r) n then [r] else []).
Proof. unfold check_rows_named. rewrite List.filter_app. reflexivity. Qed.

(** No row has a name that is not among the creating rows. *)
Lemma check_rows_named_fresh n rows :
  check_has_name n (check_creates rows) = false -> check_rows_named n rows = [].
Proof.
  intros Hn. unfold check_rows_named.
  induction rows as [|r rows IH] using rev_ind; [reflexivity|].
  rewrite List.filter_app. rewrite check_creates_snoc in Hn.
  destruct (check_has_name (kr_name r) (check_creates rows)) eqn:E.
  - rewrite IH by exact Hn. simpl.
    destruct (String.eqb_spec (kr_name r) n) as [<-|]; [congruence | reflexivity].
  - unfold check_has_name in Hn. rewrite existsb_app in Hn.
    apply orb_false_iff in Hn as [Hn Hr].
    rewrite IH by exact Hn. simpl.
    simpl in Hr. rewrite orb_false_r in Hr. now rewrite Hr.
Qed.

(** The check of a creating row does not change with a row of another
    name, and gets one more column with a row of its name. *)
Lemma check_of_other rows r c :
  kr_name r <> kr_name c -> check_of (rows ++ [r]) c = check_of rows c.
Proof.
  intros Hn. unfold check_of. rewrite check_rows_named_snoc.
  destruct (String.eqb_spec (kr_name r) (kr_name c)); [contradiction|].
  now rewrite app_nil_r.
Qed.

Lemma check_of_same rows r c :
  kr_name r = kr_name c ->
  check_of (rows ++ [r]) c =
  Check (kr_name c) (kr_clause c)
    (CheckColumns (map kr_column (check_rows_named (kr_name c) rows) ++ [kr_column r])
       :: (if kr_noInherit c then [NoInherit] else [])).
Proof.
  intros Hn. unfold check_of. rewrite check_rows_named_snoc.
  rewrite Hn, String.eqb_refl. now rewrite map_app.
Qed.

Lemma checks_assembled_init (t : Table) : checks_assembled t [] (t, ∅).
Proof.
  unfold checks_assembled. cbn. rewrite app_nil_r. split.
  - now destruct t.
  - intros n k. split.
    + intros Hn. rewrite lookup_empty in Hn. discriminate.
    + intros (j & c & _ & Hj & _). discriminate.
Qed.

End ChecksFacts.

Section AddChecksRun.

Context `{Sqlx}.

Lemma checks_assembled_step (t : Table) (rows : list check_row)
    (st : Table * gmap string nat) (r : check_row) :
  checks_assembled t rows st ->
  is_Some (Table_Column t (kr_column r)) ->
  exists st', addChecks_row st (Row r) = Ok st' /\ checks_assembled t (rows ++ [r]) st'.
Proof.
  destruct st as [t' names]. intros [Ht Hnames] [ci Hci]. cbn [fst snd] in *.
  subst t'. unfold addChecks_row.
  change (Table_Column (with_Attrs _ t) (kr_column r)) with (Table_Column t (kr_column r)).
  rewrite Hci.
  destruct (names !! kr_name r) as [pos|] eqn:En.
  - (* the check is there already *)
    apply Hnames in En as (j & c & -> & Hj & Hc).
    assert (Hseen : check_has_name (kr_name r) (check_creates rows) = true)
      by (apply check_has_name_true; eauto).
    cbn [tbl_Attrs with_Attrs].
    rewrite lookup_app_r by lia.
    replace (length (tbl_Attrs t) + j - length (tbl_Attrs t))%nat with j by lia.
    rewrite list_lookup_fmap, Hj. cbn [fmap option_fmap option_map check_of].
    eexists. split; [reflexivity|].
    unfold checks_assembled. cbn [fst snd].
    rewrite check_creates_snoc, Hseen. split; [|exact Hnames].
    unfold with_Attrs. cbn [tbl_Name tbl_Schema tbl_Columns tbl_Indexes tbl_PrimaryKey
                              tbl_ForeignKeys tbl_store]. f_equal.
    rewrite <- (check_of_same rows r c) by congruence.
    apply (insert_store (check_of rows) (check_of (rows ++ [r]))); [exact Hj|].
    intros j' c' Hj' Hne. apply check_of_other.
    intros Heq. apply Hne. eapply check_creates_distinct; eauto. congruence.
  - (* a new check *)
    assert (Hnew : check_has_name (kr_name r) (check_creates rows) = false).
    { destruct (check_has_name (kr_name r) (check_creates rows)) eqn:E; [|reflexivity].
      apply check_has_name_true in E as (j & c & Hj & Hc).
      assert (names !! kr_name r = Some (length (tbl_Attrs t) + j)%nat)
        by (apply Hnames; eauto).
      congruence. }
    cbn [tbl_Attrs with_Attrs].
    rewrite lookup_app_r by lia. rewrite Nat.sub_diag.
    assert (Happ : append_if (kr_noInherit r) NoInherit [CheckColumns []]
                   = CheckColumns [] :: (if kr_noInherit r then [NoInherit] else []))
      by now destruct (kr_noInherit r).
    rewrite Happ. cbn [lookup list_lookup].
    eexists. split; [reflexivity|].
    unfold checks_assembled. cbn [fst snd].
    rewrite check_creates_snoc, Hnew. split.
    + unfold with_Attrs. cbn [tbl_Name tbl_Schema tbl_Columns tbl_Indexes tbl_PrimaryKey
                                tbl_ForeignKeys tbl_store tbl_Attrs]. f_equal.
      rewrite insert_app_r_alt, Nat.sub_diag by lia. cbn [insert list_insert].
      rewrite map_app, <- app_assoc. f_equal. f_equal.
      * apply map_ext_in. intros c' Hc'. symmetry. apply check_of_other.
        intros Heq.
        assert (check_has_name (kr_name r) (check_creates rows) = true); [|congruence].
        apply list_elem_of_In, list_elem_of_lookup in Hc' as [j' Hj'].
        apply check_has_name_true. eauto.
      * cbn [map]. unfold check_of.
        rewrite check_rows_named_snoc, check_rows_named_fresh by exact Hnew.
        now rewrite String.eqb_refl.
    + assert (Hlen : length (tbl_Attrs t ++ map (check_of rows) (check_creates rows))
                     = (length (tbl_Attrs t) + length (check_creates rows))%nat)
        by now rewrite length_app, length_map.
      intros n k. rewrite Hlen. split.
      * intros Hk. destruct (decide (kr_name r = n)) as [<-|Hne].
        -- rewrite lookup_insert_eq in Hk. injection Hk as <-.
           exists (length (check_creates rows)), r. split; [reflexivity|].
           split; [|reflexivity]. now rewrite lookup_app_r, Nat.sub_diag by lia.
        -- rewrite lookup_insert_ne in Hk by exact Hne.
           apply Hnames in Hk as (j & c & -> & Hj & Hc).
           exists j, c. split; [reflexivity|]. split; [|exact Hc].
           now apply lookup_app_l_Some.
      * intros (j & c & -> & Hj & Hc).
        apply lookup_snoc_Some in Hj as [[Hlt Hj]|[Hl <-]].
        -- rewrite lookup_insert_ne.
           ++ apply Hnames. eauto.
           ++ intros Heq.
              assert (check_has_name (kr_name r) (check_creates rows) = true); [|congruence].
              apply check_has_name_true. exists j, c. split; congruence.
        -- subst n. rewrite lookup_insert_eq. f_equal. lia.
Qed.

Lemma checks_assembled_run (t : Table) (rows : list check_row) :
  Forall (fun r => is_Some (Table_Column t (kr_column r))) rows ->
  exists st, for_each addChecks_row (map Row rows) (t, ∅) = Ok st
             /\ checks_assembled t rows st.
Proof.
  induction rows as [|r rows IH] using rev_ind; intros Hres.
  - exists (t, ∅). split; [reflexivity | apply checks_assembled_init].
  - apply Forall_app in Hres as [Hrows Hr]. apply Forall_inv in Hr.
    destruct (IH Hrows) as (st & Hrun & Hst).
    destruct (checks_assembled_step t rows st r Hst Hr) as (st' & Hstep & Hst').
    exists st'. split; [|exact Hst'].
    rewrite map_app, LoopFacts.for_each_app, Hrun. cbn [mbind result_bind].
    cbn [map for_each]. rewrite Hstep. reflexivity.
Qed.

(** X20: Check assembly. When every row decodes and names a column of the
    table, [addChecks] succeeds and leaves the table as it was but for its
    attributes, which gain one check per distinct check name, in the order
    in which the names are first seen. Each check has the name, the clause
    and the no-inherit flag of the first row of its name, and lists the
    columns of all the rows of its name, in the order of the rows. *)
Theorem addChecks_assembles (t : Table) (R : Rows check_row) (rows : list check_row) :
  rows_items R = map Row rows ->
  Forall (fun r => is_Some (Table_Column t (kr_column r))) rows ->
  addChecks t R =
    Ok (with_Attrs (tbl_Attrs t ++ map (check_of rows) (check_creates rows)) t)
  /\ sublist (check_creates rows) rows
  /\ (forall j1 j2 c1 c2,
        check_creates rows !! j1 = Some c1 -> check_creates rows !! j2 = Some c2 ->
        kr_name c1 = kr_name c2 -> j1 = j2)
  /\ (forall c, In c (check_creates rows) ->
        exists rest,
          check_of rows c =
          Check (kr_name c) (kr_clause c)
            (CheckColumns (map kr_column (check_rows_named (kr_name c) rows)) :: rest)
          /\ (In NoInherit rest <-> kr_noInherit c = true)).
Proof.
  intros HR Hres.
  destruct (checks_assembled_run t rows Hres) as ([t' names] & Hrun & Ht & _).
  cbn [fst] in Ht. subst t'.
  split; [|split; [apply check_creates_sublist|split; [apply check_creates_distinct|]]].
  - unfold addChecks. rewrite HR, Hrun. reflexivity.
  - intros c _. eexists. split; [reflexivity|].
    destruct (kr_noInherit c); cbn [In]; split; try tauto; discriminate.
Qed.

End AddChecksRun.

Section AddChecksExample.

Import SqlxModel.

Lemma chk_rows_resolve :
  Forall (fun r => is_Some (Table_Column two_columns (kr_column r))) chk_rows.
Proof.
  unfold chk_rows.
  constructor; [|constructor; [|constructor; [|constructor]]]; eexists; reflexivity.
Qed.

Lemma addChecks_assembles_witness :
  addChecks two_columns (rows_of chk_rows) =
  Ok (with_Attrs
        (tbl_Attrs two_columns ++ map (check_of chk_rows) (check_creates chk_rows))
        two_columns).
Proof.
  exact (proj1 (addChecks_assembles two_columns (rows_of chk_rows) chk_rows
                  eq_refl chk_rows_resolve)).
Defined.

Example addChecks_chk_rows :
  exists t',
    addChecks two_columns (rows_of chk_rows) = Ok t'
    /\ tbl_Attrs t' =
       [Check "chk_a" "col1 < col2" [CheckColumns ["col1"; "col2"]];
        Check "chk_b" "col2 IS NOT NULL" [CheckColumns ["col2"]; NoInherit]].
Proof. eexists. split; reflexivity. Qed.

End AddChecksExample.

(** ** What never panics *)

Module QuietFacts.

Lemma no_panic_bind {A B : Type} (m : result A) (f : A -> result B) :
  no_panic m -> (forall a, no_panic (f a)) -> no_panic (m ≫= f).
Proof. destruct m; cbn; auto. Qed.

Lemma no_panic_wrap {A : Type} (w : error -> error) (m : result A) :
  no_panic m -> no_panic (wrap_err w m).
Proof. now destruct m. Qed.

Lemma no_panic_neq {A : Type} (m : result A) :
  no_panic m <-> forall p, m <> Panic p.
Proof.
  destruct m; cbn; split; try discriminate; try tauto.
  intros Hp. now apply (Hp p).
Qed.

(** A loop whose body keeps [P] and does not panic where [P] holds does
    not panic. *)
Lemma for_each_no_panic {A S : Type} (body : S -> A -> result S) (P : S -> Prop)
    (l : list A) (st : S) :
  (forall st a, P st ->
     match body st a with
     | Ok st' => P st'
     | Err _ => True
     | Panic _ => False
     end) ->
  P st ->
  no_panic (for_each body l st).
Proof.
  intros Hbody. revert st. induction l as [|a l IH]; intros st Hst; [exact I|].
  cbn [for_each]. specialize (Hbody st a Hst).
  destruct (body st a) as [st'| |]; cbn [mbind result_bind];
    [now apply IH | exact I | contradiction].
Qed.

Lemma for_each_quiet {A S : Type} (body : S -> A -> result S) (l : list A) (st : S) :
  (forall st a, no_panic (body st a)) -> no_panic (for_each body l st).
Proof.
  intros Hbody. apply (for_each_no_panic body (fun _ => True)); [|exact I].
  intros st' a _. specialize (Hbody st' a). now destruct (body st' a).
Qed.

Lemma ScanOne_quiet {A : Type} (R : Rows A) : no_panic (ScanOne R).
Proof.
  unfold ScanOne. destruct (rows_items R) as [|[a|e] l]; try exact I.
  now destruct (rows_Close R).
Qed.

Lemma ScanStrings_quiet (R : Rows string) : no_panic (ScanStrings R).
Proof. apply for_each_quiet. now intros st [v|e]. Qed.

End QuietFacts.

Section NeverPanics.

Context `{Sqlx}.

Lemma addIndexes_quiet (t : Table) (R : Rows index_row) : no_panic (addIndexes t R).
Proof.
  unfold addIndexes.
  pose proof (QuietFacts.for_each_no_panic addIndexes_row (indexes_linked t)
                (rows_items R) (t, ∅) (addIndexes_row_linked t) (indexes_linked_init t))
    as Hrun.
  destruct (for_each addIndexes_row (rows_items R) (t, ∅)) as [[t' names]| |];
    cbn [mbind result_bind] in *; auto.
Qed.

Lemma addChecks_quiet (t : Table) (R : Rows check_row) : no_panic (addChecks t R).
Proof.
  unfold addChecks.
  pose proof (QuietFacts.for_each_no_panic addChecks_row (checks_linked t)
                (rows_items R) (t, ∅) (addChecks_row_linked t) (checks_linked_init t))
    as Hrun.
  destruct (for_each addChecks_row (rows_items R) (t, ∅)) as [[t' names]| |];
    cbn [mbind result_bind] in *; auto.
Qed.

(** X21: [addIndexes] never panics, whatever the table and the rows are: every
    index that the map of names points to is in the store, so the loop
    reads and writes the store in its bounds. It returns a table or an error. *)
Theorem addIndexes_never_panics (t : Table) (R : Rows index_row) (p : panic) :
  addIndexes t R <> Panic p.
Proof. apply QuietFacts.no_panic_neq, addIndexes_quiet. Qed.

(** X22: [addChecks] never panics, whatever the table and the rows are: every
    check that the map of names points to is an attribute of the table
    whose first attribute is its column list, so neither [check.Attrs[0]]
    nor the type assertion on it fails. *)
Theorem addChecks_never_panics (t : Table) (R : Rows check_row) (p : panic) :
  addChecks t R <> Panic p.
Proof. apply QuietFacts.no_panic_neq, addChecks_quiet. Qed.

End NeverPanics.

Section InspectionQuiet.

Context `{Sqlx}.

Hypothesis IsQuoted_length :
  forall s, IsQuoted s "'" = true -> (2 <= String.length s)%nat.
Hypothesis ScanFKs_quiet : forall t R, no_panic (ScanFKs t R).

Variable i : conn.
Hypothesis db_quiet : quiet (conn_db i).

Local Ltac quiet_step :=
  first
    [ exact I
    | apply QuietFacts.ScanOne_quiet
    | apply QuietFacts.ScanStrings_quiet
    | apply addIndexes_quiet
    | apply addChecks_quiet
    | apply ScanFKs_quiet
    | apply QuietFacts.no_panic_wrap
    | apply QuietFacts.no_panic_bind; [|intros ?]
    | apply (proj1 db_quiet)
    | apply (proj1 (proj2 db_quiet))
    | apply (proj1 (proj2 (proj2 db_quiet)))
    | apply (proj1 (proj2 (proj2 (proj2 db_quiet))))
    | apply (proj1 (proj2 (proj2 (proj2 (proj2 db_quiet)))))
    | apply (proj2 (proj2 (proj2 (proj2 (proj2 db_quiet))))) ].

Lemma defaultExpr_quiet (c : Column) (x : string) : no_panic (defaultExpr c x).
Proof.
  unfold defaultExpr.
  destruct (IsLiteralBool x || IsLiteralNumber x || IsQuoted x "'"); [exact I|].
  destruct (canConvert_total (col_Type c) x IsQuoted_length)
    as [Hc|(k & _ & _ & [Hc|Hc])]; now rewrite Hc.
Qed.

Lemma table_quiet (name : string) (opts : option string) : no_panic (table i name opts).
Proof.
  unfold table.
  destruct (match opts with
            | Some sch =>
                if negb (String.eqb sch "") then (tableSchemaQuery, [name; sch])
                else (tableQuery, [name])
            | None => (tableQuery, [name])
            end) as [query args].
  repeat quiet_step.
  pose proof (QuietFacts.ScanOne_quiet a) as Hs.
  destruct (ScanOne a) as [[tSchema comment]|[]|]; auto.
Qed.

Lemma columns_quiet (t : Table) : no_panic (columns i t).
Proof.
  unfold columns. repeat quiet_step.
  - apply QuietFacts.for_each_quiet. intros t' [r|e]; [|exact I].
    apply QuietFacts.no_panic_wrap. unfold addColumn.
    apply QuietFacts.no_panic_bind; [|now intros ?].
    destruct (ValidString (cr_defaults r)); [|exact I].
    apply QuietFacts.no_panic_bind; [apply defaultExpr_quiet | now intros ?].
  - now destruct (rows_Close a).
Qed.

Lemma indexes_quiet (t : Table) : no_panic (indexes i t).
Proof. unfold indexes. repeat quiet_step. now destruct (rows_Err a). Qed.

Lemma fks_quiet (t : Table) : no_panic (fks i t).
Proof. unfold fks. repeat quiet_step. now destruct (rows_Err a). Qed.

Lemma checks_quiet (t : Table) : no_panic (checks i t).
Proof. unfold checks. repeat quiet_step. now destruct (rows_Err a). Qed.

Lemma inspectTable_quiet (name : string) (opts : option string) (top : option Schema_) :
  no_panic (inspectTable i name opts top).
Proof.
  unfold inspectTable.
  apply QuietFacts.no_panic_bind; [apply table_quiet | intros t].
  apply QuietFacts.no_panic_bind; [apply columns_quiet | intros t1].
  apply QuietFacts.no_panic_bind; [apply indexes_quiet | intros t2].
  apply QuietFacts.no_panic_bind; [apply fks_quiet | intros t3].
  apply QuietFacts.no_panic_bind; [apply checks_quiet | now intros t4].
Qed.

Lemma schemas_quiet (opts : option (list string)) : no_panic (schemas i opts).
Proof.
  rewrite schemas_sends. repeat quiet_step.
  apply QuietFacts.for_each_quiet. now intros st [v|e].
Qed.

Lemma tableNames_quiet (schema : string) (opts : option (list string)) :
  no_panic (tableNames i schema opts).
Proof. rewrite tableNames_sends. repeat quiet_step. Qed.

Lemma tables_loop_quiet (names : list string) (s : Schema_) :
  no_panic
    (for_each
       (fun s name =>
          t ← inspectTable i name (Some (sch_Name s)) (Some s);
          Ok (Build_Schema_ (sch_Name s) (sch_Tables s ++ [t]) (sch_Realm s)))
       names s).
Proof.
  apply QuietFacts.for_each_quiet. intros s' n.
  apply QuietFacts.no_panic_bind; [apply inspectTable_quiet | now intros t].
Qed.

(** X23: No panic comes from the inspection code. When the executor gives rows
    or an error, [sqlx.ScanFKs] does not panic and [sqlx.IsQuoted] holds of
    no text shorter than its two quotes, then [InspectTable],
    [InspectSchema] and [InspectRealm] return a description or an error on
    every input: no slice is cut and no index is read out of its bounds,
    and the first schema that [InspectSchema] reads is always there. *)
Theorem inspection_never_panics :
  (forall name opts, no_panic (InspectTable i name opts))
  /\ (forall name opts, no_panic (InspectSchema i name opts))
  /\ (forall link opts, no_panic (InspectRealm link i opts)).
Proof.
  split; [|split].
  - intros name opts. apply inspectTable_quiet.
  - intros name opts. unfold InspectSchema.
    destruct (String.eqb name "").
    + pose proof (proj1 db_quiet attachedSchemaQuery []) as Hq.
      destruct (QueryStrings (conn_db i) attachedSchemaQuery []) as [R| |];
        cbn [wrap_err mbind result_bind]; try exact I; try contradiction.
      pose proof (QuietFacts.ScanOne_quiet R) as Hs.
      destruct (ScanOne R) as [name'| |];
        cbn [wrap_err mbind result_bind]; try exact I; try contradiction.
      apply QuietFacts.no_panic_bind; [apply tableNames_quiet | intros names].
      change (index_at 0 [Build_Schema_ name' [] None])
        with (Ok (Build_Schema_ name' [] None)).
      cbn [mbind result_bind].
      apply QuietFacts.no_panic_bind; [apply tables_loop_quiet | now intros s].
    + pose proof (schemas_quiet (Some [name])) as Hs.
      destruct (schemas i (Some [name])) as [[|s0 rest]| |];
        cbn [length Nat.eqb mbind result_bind]; try exact I; try contradiction.
      apply QuietFacts.no_panic_bind; [apply tableNames_quiet | intros names].
      change (index_at 0 (s0 :: rest)) with (Ok s0). cbn [mbind result_bind].
      apply QuietFacts.no_panic_bind; [apply tables_loop_quiet | now intros s].
  - intros link opts. unfold InspectRealm.
    apply QuietFacts.no_panic_bind; [apply schemas_quiet | intros ss].
    cbn zeta. apply QuietFacts.no_panic_bind; [|now intros done].
    apply QuietFacts.for_each_quiet. intros done s.
    apply QuietFacts.no_panic_bind; [apply tableNames_quiet | intros names].
    apply QuietFacts.no_panic_bind; [apply tables_loop_quiet | now intros s'].
Qed.

End InspectionQuiet.

Section InspectionQuietExample.

Import SqlxModel.

Lemma model_ScanFKs_quiet (t : Table) (R : Rows fk_row) : no_panic (ScanFKs t R).
Proof.
  apply QuietFacts.for_each_quiet. intros t' [r|e]; [|exact I].
  cbn [scan_fk]. now destruct (Table_Column t' (fr_column_name r)).
Qed.

Lemma db_catalog_quiet (attached schema_list tables : list string)
    (identity : list (NullString * NullString)) (cols : list column_row)
    (idx : list index_row) (chk : list check_row) :
  quiet (db_catalog attached schema_list tables identity cols idx chk).
Proof. repeat split; try intros []; intros; exact I. Qed.

Lemma inspection_never_panics_witness :
  (forall name opts, no_panic (InspectTable (conn_of db_dangling_index) name opts))
  /\ (forall name opts, no_panic (InspectSchema (conn_of db_dangling_index) name opts))
  /\ (forall link opts, no_panic (InspectRealm link (conn_of db_dangling_index) opts)).
Proof.
  exact (inspection_never_panics is_quoted_length model_ScanFKs_quiet
           (conn_of db_dangling_index)
           (db_catalog_quiet ["S"] ["S"] ["t"] [(str "S", null)]
              [column_row_of "col1" "int"] [column_part "idx_a" "ghost" false] [])).
Defined.

End InspectionQuietExample.

(** ** [columns]: one column per row *)

Section Columns.

Context `{Sqlx}.

Lemma with_Columns_id (t : Table) : with_Columns (tbl_Columns t ++ []) t = t.
Proof. rewrite app_nil_r. now destruct t. Qed.

Lemma with_Columns_twice (t : Table) (a b : list Column) :
  with_Columns (tbl_Columns (with_Columns a t) ++ b) (with_Columns a t)
  = with_Columns (a ++ b) t.
Proof. reflexivity. Qed.

(** The attributes that [addColumn] appends, as a list. *)
Lemma addColumn_attrs (r : column_row) :
  append_if (ValidString (cr_collation r)) (Collation (ns_String (cr_collation r)))
    (append_if (ValidString (cr_charset r)) (Charset (ns_String (cr_charset r)))
    (append_if (ValidString (cr_comment r)) (Comment (ns_String (cr_comment r)))
    (append_if (String.eqb (ns_String (cr_identity r)) "YES")
       (Identity (ns_String (cr_generation r))
          (ni_Int64 (cr_seqstart r)) (ni_Int64 (cr_seqinc r)))
       [])))
  = row_attrs r.
Proof.
  unfold row_attrs, append_if.
  destruct (String.eqb (ns_String (cr_identity r)) "YES");
    destruct (ValidString (cr_comment r));
    destruct (ValidString (cr_charset r));
    destruct (ValidString (cr_collation r)); reflexivity.
Qed.

(** [addColumn] on a row that decodes: it appends the column of the row. *)
Lemma addColumn_Ok (t t' : Table) (r : column_row) :
  addColumn t (Row r) = Ok t' <->
  exists c, column_of_row r c /\ t' = with_Columns (tbl_Columns t ++ [c]) t.
Proof.
  unfold addColumn. rewrite addColumn_attrs. fold (row_type r).
  cbn [col_Name col_Type]. unfold column_of_row.
  destruct (ValidString (cr_defaults r)).
  - destruct (defaultExpr _ (ns_String (cr_defaults r))) as [e| |] eqn:Ee;
      cbn [mbind result_bind]; split.
    + intros [= <-]. eexists. split; [|reflexivity]. cbn. eauto 10.
    + intros ([n ty d a ix] & (Hn & Hty & Ha & Hix & e' & He' & Hd) & ->).
      cbn [col_Name col_Type col_Attrs col_Indexes col_Default] in *. subst.
      injection He' as <-. reflexivity.
    + discriminate.
    + intros (c & (_ & _ & _ & _ & e' & He' & _) & _). discriminate He'.
    + discriminate.
    + intros (c & (_ & _ & _ & _ & e' & He' & _) & _). discriminate He'.
  - cbn [mbind result_bind]. split.
    + intros [= <-]. eexists. split; [|reflexivity]. cbn. auto.
    + intros ([n ty d a ix] & (Hn & Hty & Ha & Hix & Hd) & ->).
      cbn [col_Name col_Type col_Attrs col_Indexes col_Default] in *. now subst.
Qed.

(** The loop of [columns]. *)
Lemma columns_loop (items : list (scanned column_row)) (t t' : Table) :
  for_each
    (fun t row => wrap_err (fun e => Errorf "oracle: %w" [ArgError e]) (addColumn t row))
    items t = Ok t' <->
  exists rows cols,
    items = map Row rows
    /\ Forall2 column_of_row rows cols
    /\ t' = with_Columns (tbl_Columns t ++ cols) t.
Proof.
  revert t. induction items as [|item items IH]; intros t; cbn [for_each].
  - split.
    + intros [= <-]. exists [], []. split; [reflexivity|]. split; [constructor|].
      now rewrite with_Columns_id.
    + intros (rows & cols & Hrows & Hcols & ->).
      destruct rows; [|discriminate Hrows]. apply Forall2_nil_inv_l in Hcols as ->.
      now rewrite with_Columns_id.
  - destruct item as [r|e].
    + destruct (addColumn t (Row r)) as [t1| |] eqn:E1; cbn [wrap_err mbind result_bind].
      * apply addColumn_Ok in E1 as (c & Hc & ->). rewrite IH. split.
        -- intros (rows & cols & -> & Hcols & ->).
           exists (r :: rows), (c :: cols). split; [reflexivity|].
           split; [now constructor|].
           rewrite with_Columns_twice. now rewrite <- app_assoc.
        -- intros (rows & cols & Hrows & Hcols & ->).
           destruct rows as [|r' rows]; [discriminate Hrows|].
           injection Hrows as <- ->.
           apply Forall2_cons_inv_l in Hcols as (c' & cols' & Hc' & Hcols' & ->).
           assert (c' = c) as ->.
           { assert (addColumn t (Row r) = Ok (with_Columns (tbl_Columns t ++ [c']) t)) as E'
               by (apply addColumn_Ok; eauto).
             assert (addColumn t (Row r) = Ok (with_Columns (tbl_Columns t ++ [c]) t)) as E''
               by (apply addColumn_Ok; eauto).
             rewrite E' in E''. injection E'' as E''.
             now apply app_inv_head in E'' as [= ->]. }
           exists rows, cols'. split; [reflexivity|]. split; [exact Hcols'|].
           rewrite with_Columns_twice. now rewrite <- app_assoc.
      * split; [discriminate|].
        intros (rows & cols & Hrows & Hcols & _).
        destruct rows as [|r' rows]; [discriminate Hrows|].
        injection Hrows as <- ->.
        apply Forall2_cons_inv_l in Hcols as (c' & cols' & Hc' & _ & _).
        assert (addColumn t (Row r) = Ok (with_Columns (tbl_Columns t ++ [c']) t)) as E'
          by (apply addColumn_Ok; eauto).
        congruence.
      * split; [discriminate|].
        intros (rows & cols & Hrows & Hcols & _).
        destruct rows as [|r' rows]; [discriminate Hrows|].
        injection Hrows as <- ->.
        apply Forall2_cons_inv_l in Hcols as (c' & cols' & Hc' & _ & _).
        assert (addColumn t (Row r) = Ok (with_Columns (tbl_Columns t ++ [c']) t)) as E'
          by (apply addColumn_Ok; eauto).
        congruence.
    + cbn [addColumn wrap_err mbind result_bind]. split; [discriminate|].
      intros (rows & cols & Hrows & _). destruct rows; discriminate Hrows.
Qed.

(** X24: [columns] returns a table exactly when the columns query gives rows
    that all decode, the default of every row that has one is classified,
    and the rows close without an error. The table is then the table it
    was given with one more column per row, in the order of the rows,
    after the columns it had; nothing else of the table changes. *)
Theorem columns_appends (i : conn) (t t' : Table) :
  columns i t = Ok t' <->
  exists R rows cols,
    QueryColumns (conn_db i) [schema_name (tbl_Schema t); tbl_Name t] = Ok R
    /\ rows_items R = map Row rows
    /\ rows_Close R = None
    /\ Forall2 column_of_row rows cols
    /\ t' = with_Columns (tbl_Columns t ++ cols) t.
Proof.
  unfold columns.
  destruct (QueryColumns (conn_db i) [schema_name (tbl_Schema t); tbl_Name t])
    as [R| |]; cbn [wrap_err mbind result_bind].
  - destruct (for_each _ (rows_items R) t) as [t1| |] eqn:Eloop;
      cbn [mbind result_bind].
    + apply columns_loop in Eloop as (rows & cols & Hrows & Hcols & ->).
      destruct (rows_Close R) as [e|] eqn:Ec; split.
      * discriminate.
      * intros (R' & rows' & cols' & [= <-] & _ & Hc & _). congruence.
      * intros [= <-]. exists R, rows, cols. auto.
      * intros (R' & rows' & cols' & [= <-] & Hrows' & _ & Hcols' & ->).
        f_equal.
        assert (for_each
                  (fun t row =>
                     wrap_err (fun e => Errorf "oracle: %w" [ArgError e]) (addColumn t row))
                  (rows_items R) t
                = Ok (with_Columns (tbl_Columns t ++ cols') t)) as E1
          by (apply columns_loop; eauto).
        assert (for_each
                  (fun t row =>
                     wrap_err (fun e => Errorf "oracle: %w" [ArgError e]) (addColumn t row))
                  (rows_items R) t
                = Ok (with_Columns (tbl_Columns t ++ cols) t)) as E2
          by (apply columns_loop; eauto).
        congruence.
    + split; [discriminate|].
      intros (R' & rows' & cols' & [= <-] & Hrows' & _ & Hcols' & _).
      assert (for_each
                (fun t row =>
                   wrap_err (fun e => Errorf "oracle: %w" [ArgError e]) (addColumn t row))
                (rows_items R) t
              = Ok (with_Columns (tbl_Columns t ++ cols') t)) as E1
        by (apply columns_loop; eauto).
      congruence.
    + split; [discriminate|].
      intros (R' & rows' & cols' & [= <-] & Hrows' & _ & Hcols' & _).
      assert (for_each
                (fun t row =>
                   wrap_err (fun e => Errorf "oracle: %w" [ArgError e]) (addColumn t row))
                (rows_items R) t
              = Ok (with_Columns (tbl_Columns t ++ cols') t)) as E1
        by (apply columns_loop; eauto).
      congruence.
  - split; [discriminate|]. intros (R' & rows' & cols' & Hq & _). discriminate Hq.
  - split; [discriminate|]. intros (R' & rows' & cols' & Hq & _). discriminate Hq.
Qed.

End Columns.

Section ColumnsExample.

Import SqlxModel.

(** Two column rows on a table without columns. *)
Example columns_two_rows :
  columns
    (conn_of (db_catalog [] [] [] []
                [column_row_of "col1" "int"; column_row_of "col2" "date"] [] []))
    (table_of [])
  = Ok (table_of [column "col1" (IntegerType "int") "int";
                  column "col2" (TimeType "date") "date"]).
Proof. reflexivity. Qed.

End ColumnsExample.

(** ** [InspectRealm] and [InspectSchema]: every table, or nothing *)

Section Realm.

Context `{Sqlx}.

(** [inspectTable] reads the name of the schema it links the table to, and
    nothing else of it. *)
Lemma inspectTable_top (i : conn) (n : string) (o : option string) (s s' : Schema_) :
  sch_Name s = sch_Name s' ->
  inspectTable i n o (Some s) = inspectTable i n o (Some s').
Proof. intros Hs. unfold inspectTable. now rewrite Hs. Qed.

(** The loop over the table names of a schema. *)
Lemma tables_loop (i : conn) (names : list string) (s s' : Schema_) :
  for_each
    (fun s name =>
       t ← inspectTable i name (Some (sch_Name s)) (Some s);
       Ok (Build_Schema_ (sch_Name s) (sch_Tables s ++ [t]) (sch_Realm s)))
    names s = Ok s' <->
  exists ts,
    Forall2 (fun n t => inspectTable i n (Some (sch_Name s)) (Some s) = Ok t) names ts
    /\ s' = Build_Schema_ (sch_Name s) (sch_Tables s ++ ts) (sch_Realm s).
Proof.
  revert s. induction names as [|n names IH]; intros s; cbn [for_each].
  - split.
    + intros [= <-]. exists []. split; [constructor|].
      rewrite app_nil_r. now destruct s.
    + intros (ts & Hts & ->). apply Forall2_nil_inv_l in Hts as ->.
      rewrite app_nil_r. now destruct s.
  - destruct (inspectTable i n (Some (sch_Name s)) (Some s)) as [t| |] eqn:Et;
      cbn [mbind result_bind].
    + rewrite IH. cbn [sch_Name sch_Tables sch_Realm]. split.
      * intros (ts & Hts & ->). exists (t :: ts). split.
        -- constructor; [exact Et|].
           eapply Forall2_impl; [exact Hts|]. intros n' t' <-.
           now apply inspectTable_top.
        -- now rewrite <- app_assoc.
      * intros (ts & Hts & ->).
        apply Forall2_cons_inv_l in Hts as (t' & ts' & Ht' & Hts' & ->).
        rewrite Et in Ht'. injection Ht' as <-.
        exists ts'. split.
        -- eapply Forall2_impl; [exact Hts'|]. intros n' t' <-.
           now apply inspectTable_top.
        -- now rewrite <- app_assoc.
    + split; [discriminate|]. intros (ts & Hts & _).
      apply Forall2_cons_inv_l in Hts as (t' & ts' & Ht' & _). congruence.
    + split; [discriminate|]. intros (ts & Hts & _).
      apply Forall2_cons_inv_l in Hts as (t' & ts' & Ht' & _). congruence.
Qed.

(** The tables that inspection returns for a schema are determined. *)
Lemma tables_inspected_inj (i : conn) (lookup : string) (opts : option (list string))
    (s : Schema_) (ts ts' : list Table) :
  tables_inspected i lookup opts s ts -> tables_inspected i lookup opts s ts' -> ts = ts'.
Proof.
  intros (names & Hn & Hts) (names' & Hn' & Hts').
  rewrite Hn in Hn'. injection Hn' as <-. clear Hn.
  revert ts' Hts'. induction Hts as [|n t names ts Ht Hts IH]; intros ts' Hts'.
  - now apply Forall2_nil_inv_l in Hts'.
  - apply Forall2_cons_inv_l in Hts' as (t' & ts'' & Ht' & Hts'' & ->).
    rewrite Ht in Ht'. injection Ht' as <-. f_equal. now apply IH.
Qed.

Lemma realm_tables_inj (i : conn) (ss : list Schema_) (tss tss' : list (list Table)) :
  Forall2 (realm_tables i) ss tss -> Forall2 (realm_tables i) ss tss' -> tss = tss'.
Proof.
  intros Htss. revert tss'.
  induction Htss as [|s ts ss tss Hts Htss IH]; intros tss' Htss'.
  - now apply Forall2_nil_inv_l in Htss'.
  - apply Forall2_cons_inv_l in Htss' as (ts' & tss'' & Hts' & Htss'' & ->).
    rewrite (tables_inspected_inj i _ _ s ts ts' Hts Hts'). f_equal. now apply IH.
Qed.

(** The loop over the schemas of a realm. *)
Lemma schemas_loop (i : conn) (attrs : list Attr) (ss done done' : list Schema_) :
  for_each
    (fun done s =>
       names ← tableNames i (sch_Name s) None;
       s ← for_each
         (fun s name =>
            t ← inspectTable i name (Some (sch_Name s)) (Some s);
            Ok (Build_Schema_ (sch_Name s) (sch_Tables s ++ [t]) (sch_Realm s)))
         names s;
       Ok (done ++ [Build_Schema_ (sch_Name s) (sch_Tables s) (Some attrs)]))
    ss done = Ok done' <->
  exists tss,
    Forall2 (realm_tables i) ss tss
    /\ done' = done ++ zip_with (filled attrs) ss tss.
Proof.
  revert done. induction ss as [|s ss IH]; intros done; cbn [for_each].
  - split.
    + intros [= <-]. exists []. split; [constructor|]. now rewrite app_nil_r.
    + intros (tss & Htss & ->). apply Forall2_nil_inv_l in Htss as ->.
      now rewrite app_nil_r.
  - destruct (tableNames i (sch_Name s) None) as [names| |] eqn:En;
      cbn [mbind result_bind].
    + destruct (for_each _ names s) as [s1| |] eqn:Es; cbn [mbind result_bind].
      * apply tables_loop in Es as (ts & Hts & ->).
        cbn [sch_Name sch_Tables sch_Realm]. fold (filled attrs s ts).
        assert (Hs : realm_tables i s ts) by (exists names; auto).
        rewrite IH. split.
        -- intros (tss & Htss & ->). exists (ts :: tss). split; [now constructor|].
           cbn [zip_with]. now rewrite <- app_assoc.
        -- intros (tss & Htss & ->).
           apply Forall2_cons_inv_l in Htss as (ts' & tss' & Hts' & Htss' & ->).
           rewrite (tables_inspected_inj i _ _ s ts' ts Hts' Hs).
           exists tss'. split; [exact Htss'|].
           cbn [zip_with]. now rewrite <- app_assoc.
      * split; [discriminate|]. intros (tss & Htss & _).
        apply Forall2_cons_inv_l in Htss as (ts' & tss' & (names' & Hn' & Hts') & _).
        rewrite En in Hn'. injection Hn' as <-.
        assert (for_each
                  (fun s name =>
                     t ← inspectTable i name (Some (sch_Name s)) (Some s);
                     Ok (Build_Schema_ (sch_Name s) (sch_Tables s ++ [t]) (sch_Realm s)))
                  names s
                = Ok (Build_Schema_ (sch_Name s) (sch_Tables s ++ ts') (sch_Realm s)))
          by (apply tables_loop; eauto).
        congruence.
      * split; [discriminate|]. intros (tss & Htss & _).
        apply Forall2_cons_inv_l in Htss as (ts' & tss' & (names' & Hn' & Hts') & _).
        rewrite En in Hn'. injection Hn' as <-.
        assert (for_each
                  (fun s name =>
                     t ← inspectTable i name (Some (sch_Name s)) (Some s);
                     Ok (Build_Schema_ (sch_Name s) (sch_Tables s ++ [t]) (sch_Realm s)))
                  names s
                = Ok (Build_Schema_ (sch_Name s) (sch_Tables s ++ ts') (sch_Realm s)))
          by (apply tables_loop; eauto).
        congruence.
    + split; [discriminate|]. intros (tss & Htss & _).
      apply Forall2_cons_inv_l in Htss as (ts' & tss' & (names' & Hn' & _) & _).
      congruence.
    + split; [discriminate|]. intros (tss & Htss & _).
      apply Forall2_cons_inv_l in Htss as (ts' & tss' & (names' & Hn' & _) & _).
      congruence.
Qed.

(** X25: [InspectRealm] returns a realm exactly when the schemas are listed and
    every table of every listed schema is inspected: one failure and there
    is no realm. The realm then holds the attributes of the connection, the
    collation and the character classification, and the linked list of the
    schemas, which before linking is the list of the schemas in the order
    of the schema list, each one put in the realm and filled with its
    tables in the order of its table names. The tables of a schema are
    listed with nil options, and each table is inspected in the schema and
    linked to it. *)
Theorem InspectRealm_inspects_all (link : list Schema_ -> list Schema_) (i : conn)
    (opts : option (list string)) (r : Realm_) :
  InspectRealm link i opts = Ok r <->
  exists ss tss,
    schemas i opts = Ok ss
    /\ Forall2 (realm_tables i) ss tss
    /\ r = Build_Realm_
             (link (zip_with (filled [Collation (collate i); CType (ctype i)]) ss tss))
             [Collation (collate i); CType (ctype i)].
Proof.
  unfold InspectRealm.
  destruct (schemas i opts) as [ss| |]; cbn [mbind result_bind].
  - destruct (for_each _ ss []) as [done| |] eqn:Eloop; cbn [mbind result_bind].
    + apply schemas_loop in Eloop as (tss & Htss & ->). cbn [app]. split.
      * intros [= <-]. eauto.
      * intros (ss' & tss' & [= <-] & Htss' & ->).
        now rewrite (realm_tables_inj i ss tss tss' Htss Htss').
    + split; [discriminate|]. intros (ss' & tss' & [= <-] & Htss' & _).
      assert (for_each
                (fun done s =>
                   names ← tableNames i (sch_Name s) None;
                   s ← for_each
                     (fun s name =>
                        t ← inspectTable i name (Some (sch_Name s)) (Some s);
                        Ok (Build_Schema_ (sch_Name s) (sch_Tables s ++ [t]) (sch_Realm s)))
                     names s;
                   Ok (done ++ [Build_Schema_ (sch_Name s) (sch_Tables s)
                                  (Some [Collation (collate i); CType (ctype i)])]))
                ss []
              = Ok ([] ++ zip_with (filled [Collation (collate i); CType (ctype i)]) ss tss'))
        by (apply schemas_loop; eauto).
      congruence.
    + split; [discriminate|]. intros (ss' & tss' & [= <-] & Htss' & _).
      assert (for_each
                (fun done s =>
                   names ← tableNames i (sch_Name s) None;
                   s ← for_each
                     (fun s name =>
                        t ← inspectTable i name (Some (sch_Name s)) (Some s);
                        Ok (Build_Schema_ (sch_Name s) (sch_Tables s ++ [t]) (sch_Realm s)))
                     names s;
                   Ok (done ++ [Build_Schema_ (sch_Name s) (sch_Tables s)
                                  (Some [Collation (collate i); CType (ctype i)])]))
                ss []
              = Ok ([] ++ zip_with (filled [Collation (collate i); CType (ctype i)]) ss tss'))
        by (apply schemas_loop; eauto).
      congruence.
  - split; [discriminate|]. intros (ss' & tss' & Hs & _). discriminate Hs.
  - split; [discriminate|]. intros (ss' & tss' & Hs & _). discriminate Hs.
Qed.

(** X26: [InspectSchema] returns a schema exactly when the name is resolved,
    the tables are listed and every listed table is inspected. The tables
    are looked up under the name that was given (under the name of the
    attached schema, when the name is empty) with the options of the call,
    and each one is inspected in the first schema of the schema list and
    linked to it. The result is that schema with the tables after the ones
    it had, in the order of the table names, as linking leaves it, put in a
    realm that has the collation and the character classification of the
    connection. *)
Theorem InspectSchema_inspects_all (i : conn) (name : string)
    (opts : option (list string)) (s : Schema_) :
  InspectSchema i name opts = Ok s <->
  exists name' s0 rest ts,
    schema_resolved i name name' (s0 :: rest)
    /\ tables_inspected i name' opts s0 ts
    /\ s = Build_Schema_
             (sch_Name (LinkSchemaTables (filled_in s0 ts) rest))
             (sch_Tables (LinkSchemaTables (filled_in s0 ts) rest))
             (Some [Collation (collate i); CType (ctype i)]).
Proof.
  unfold InspectSchema, schema_resolved, tables_inspected. split.
  - (* what a result tells *)
    destruct (String.eqb name "").
    + destruct (QueryStrings (conn_db i) attachedSchemaQuery []) as [R| |] eqn:Eq;
        cbn [wrap_err mbind result_bind]; try discriminate.
      destruct (ScanOne R) as [name'| |] eqn:Es;
        cbn [wrap_err mbind result_bind]; try discriminate.
      destruct (tableNames i name' opts) as [names| |] eqn:En;
        cbn [mbind result_bind]; try discriminate.
      change (index_at 0 [Build_Schema_ name' [] None]) with (Ok (named_schema name')).
      cbn [mbind result_bind].
      destruct (for_each _ names (named_schema name')) as [s1| |] eqn:El;
        cbn [mbind result_bind]; try discriminate.
      apply tables_loop in El as (ts & Hts & ->).
      intros [= <-]. exists name', (named_schema name'), [], ts. eauto 10.
    + destruct (schemas i (Some [name])) as [ss| |] eqn:Ess;
        cbn [mbind result_bind]; try discriminate.
      destruct ss as [|s0 rest]; cbn [length Nat.eqb mbind result_bind];
        try discriminate.
      destruct (tableNames i name opts) as [names| |] eqn:En;
        cbn [mbind result_bind]; try discriminate.
      change (index_at 0 (s0 :: rest)) with (Ok s0). cbn [mbind result_bind].
      destruct (for_each _ names s0) as [s1| |] eqn:El;
        cbn [mbind result_bind]; try discriminate.
      apply tables_loop in El as (ts & Hts & ->).
      intros [= <-]. exists name, s0, rest, ts.
      split; [split; [reflexivity|split; [reflexivity | discriminate]]|].
      split; [eauto | reflexivity].
  - (* what makes a result *)
    intros (name' & s0 & rest & ts & Hres & (names & Hn & Hts) & ->).
    assert (Hloop :
      for_each
        (fun s name =>
           t ← inspectTable i name (Some (sch_Name s)) (Some s);
           Ok (Build_Schema_ (sch_Name s) (sch_Tables s ++ [t]) (sch_Realm s)))
        names s0 = Ok (filled_in s0 ts))
      by (apply tables_loop; eauto).
    destruct (String.eqb name "").
    + destruct Hres as (R & -> & Hs & [= -> ->]).
      cbn [wrap_err mbind result_bind]. rewrite Hs.
      cbn [wrap_err mbind result_bind]. rewrite Hn.
      cbn [mbind result_bind].
      change (index_at 0 [Build_Schema_ name' [] None]) with (Ok (named_schema name')).
      cbn [mbind result_bind]. rewrite Hloop. reflexivity.
    + destruct Hres as (-> & -> & _).
      cbn [length Nat.eqb mbind result_bind]. rewrite Hn.
      cbn [mbind result_bind].
      change (index_at 0 (s0 :: rest)) with (Ok s0). cbn [mbind result_bind].
      rewrite Hloop. reflexivity.
Qed.

End Realm.

Section RealmExamples.

Import SqlxModel.

(** A catalog with the schema [HR] and its table [t] of one column: the
    realm has the schema, put in the realm, with the table linked to it. *)
Example InspectRealm_one_table :
  InspectRealm (fun ss => ss)
    (conn_of (db_catalog ["HR"] ["HR"] ["t"] [(str "HR", null)]
                [column_row_of "col1" "int"] [] []))
    None
  = Ok (Build_Realm_
          [Build_Schema_ "HR"
             [Build_Table "t" (Top "HR") []
                [Build_Column "col1" (Build_ColumnType (IntegerType "int") "int" false)
                   None [] []]
                [] None [] []]
             (Some [Collation "BINARY"; CType "AL32UTF8"])]
          [Collation "BINARY"; CType "AL32UTF8"]).
Proof. reflexivity. Qed.

End RealmExamples.

(** ** [addIndexes]: the columns learn their indexes *)

Section LinkFacts.

Context `{Sqlx}.

Implicit Types (r c : index_row) (rows cs : list index_row) (n : string).

Lemma name_index_app_seen n cs cs' :
  has_name n cs = true -> name_index n (cs ++ cs') = name_index n cs.
Proof.
  induction cs as [|c cs IH]; [discriminate|].
  unfold has_name. cbn [existsb app name_index].
  destruct (String.eqb (ir_name c) n); [reflexivity|].
  cbn [orb]. intros Hn. f_equal. now apply IH.
Qed.

Lemma name_index_app_fresh n cs cs' :
  has_name n cs = false ->
  name_index n (cs ++ cs') = (length cs + name_index n cs')%nat.
Proof.
  induction cs as [|c cs IH]; [reflexivity|].
  unfold has_name. cbn [existsb app name_index length].
  destruct (String.eqb (ir_name c) n); [discriminate|].
  cbn [orb]. intros Hn. cbn. f_equal. now apply IH.
Qed.

Lemma name_index_lookup n cs :
  has_name n cs = true ->
  exists c, cs !! name_index n cs = Some c /\ ir_name c = n.
Proof.
  induction cs as [|c cs IH]; [discriminate|].
  unfold has_name. cbn [existsb name_index].
  destruct (String.eqb_spec (ir_name c) n) as [Hc|Hc].
  - intros _. exists c. now split.
  - cbn [orb]. intros Hn. exact (IH Hn).
Qed.

(** The pointer of a row of the rows does not change with the rows that
    come after it. *)
Lemma index_pointer_snoc (t : Table) rows r r0 :
  In r0 rows -> index_pointer t (rows ++ [r]) r0 = index_pointer t rows r0.
Proof.
  intros Hin. unfold index_pointer. f_equal. rewrite creates_snoc.
  destruct (has_name (ir_name r) (creates rows)); [reflexivity|].
  apply name_index_app_seen. now apply creates_covers.
Qed.

Lemma column_links_snoc (t : Table) rows r (ci : nat) :
  column_links t (rows ++ [r]) ci =
  column_links t rows ci
    ++ (if names_column t ci r then [index_pointer t (rows ++ [r]) r] else []).
Proof.
  unfold column_links. rewrite List.filter_app, map_app. f_equal.
  - apply map_ext_in. intros r0 Hr0. apply index_pointer_snoc.
    now apply List.filter_In in Hr0 as [Hr0 _].
  - cbn [List.filter]. now destruct (names_column t ci r).
Qed.

(** What one turn of the loop of [addIndexes] does to the columns. *)
Lemma addIndexes_row_columns (t' : Table) (names : gmap string nat) r
    (st' : Table * gmap string nat) :
  addIndexes_row (t', names) (Row r) = Ok st' ->
  tbl_Columns st'.1 =
  if ValidString (ir_expr r) then tbl_Columns t'
  else match Table_Column t' (ns_String (ir_column r)) with
       | Some ci =>
           alter (add_Index (default (length (tbl_store t')) (names !! ir_name r))) ci
             (tbl_Columns t')
       | None => tbl_Columns t'
       end.
Proof.
  unfold addIndexes_row.
  destruct (names !! ir_name r) as [idx|]; cbn [default].
  - destruct (tbl_store t' !! idx) as [ix|]; [|discriminate].
    destruct (ValidString (ir_expr r)); cbn [mbind result_bind].
    + now intros [= <-].
    + destruct (ValidString (ir_column r)); [|discriminate].
      destruct (Table_Column t' (ns_String (ir_column r))); [|discriminate].
      cbn [mbind result_bind]. now intros [= <-].
  - destruct (ir_primary r).
    + match goal with
      | |- context [tbl_store ?t2 !! ?k] => destruct (tbl_store t2 !! k) as [ix|]
      end; [|discriminate].
      destruct (ValidString (ir_expr r)); cbn [mbind result_bind].
      * now intros [= <-].
      * destruct (ValidString (ir_column r)); [|discriminate].
        match goal with
        | |- context [Table_Column ?t2 ?x] =>
            change (Table_Column t2 x) with (Table_Column t' x)
        end.
        destruct (Table_Column t' (ns_String (ir_column r))); [|discriminate].
        cbn [mbind result_bind]. now intros [= <-].
    + match goal with
      | |- context [tbl_store ?t2 !! ?k] => destruct (tbl_store t2 !! k) as [ix|]
      end; [|discriminate].
      destruct (ValidString (ir_expr r)); cbn [mbind result_bind].
      * now intros [= <-].
      * destruct (ValidString (ir_column r)); [|discriminate].
        match goal with
        | |- context [Table_Column ?t2 ?x] =>
            change (Table_Column t2 x) with (Table_Column t' x)
        end.
        destruct (Table_Column t' (ns_String (ir_column r))); [|discriminate].
        cbn [mbind result_bind]. now intros [= <-].
Qed.

(** The pointer that a turn of the loop uses is the pointer of the row. *)
Lemma loop_pointer (t : Table) rows (st : Table * gmap string nat) r :
  assembled t rows st ->
  default (length (tbl_store st.1)) (st.2 !! ir_name r) = index_pointer t (rows ++ [r]) r.
Proof.
  destruct st as [t' names]. intros (Hstore & Hnames & _). cbn [fst snd] in *.
  unfold index_pointer. rewrite creates_snoc.
  destruct (names !! ir_name r) as [k|] eqn:En; cbn [default from_option]; unfold id.
  - apply Hnames in En as (j & c & -> & Hj & Hc).
    assert (Hseen : has_name (ir_name r) (creates rows) = true)
      by (apply has_name_true; eauto).
    rewrite Hseen. f_equal.
    destruct (name_index_lookup _ _ Hseen) as (c' & Hc' & Hn').
    exact (creates_distinct rows j _ c c' Hj Hc' ltac:(congruence)).
  - assert (Hnew : has_name (ir_name r) (creates rows) = false).
    { destruct (has_name (ir_name r) (creates rows)) eqn:E; [|reflexivity].
      apply has_name_true in E as (j & c & Hj & Hc).
      assert (names !! ir_name r = Some (length (tbl_store t) + j)%nat)
        by (apply Hnames; eauto).
      congruence. }
    rewrite Hnew, Hstore, length_app, length_map.
    rewrite name_index_app_fresh by exact Hnew.
    cbn [name_index]. rewrite String.eqb_refl. lia.
Qed.

(** Adding a pointer to one column of the linked columns. *)
Lemma alter_with_links (t : Table) rows r (ci : nat) (cols : list Column) :
  Table_Column t (ns_String (ir_column r)) = Some ci ->
  ValidString (ir_expr r) = false ->
  alter (add_Index (index_pointer t (rows ++ [r]) r)) ci (imap (with_links t rows) cols)
  = imap (with_links t (rows ++ [r])) cols.
Proof.
  intros Hci He. apply list_eq. intros k.
  destruct (decide (k = ci)) as [->|Hne].
  - rewrite list_lookup_alter_eq, !list_lookup_imap.
    destruct (cols !! ci) as [c|]; [|reflexivity]. cbn. f_equal.
    unfold add_Index, with_links. cbn. f_equal.
    rewrite column_links_snoc. unfold names_column. rewrite He, Hci, Nat.eqb_refl.
    cbn [negb andb]. now rewrite <- app_assoc.
  - rewrite list_lookup_alter_ne by congruence. rewrite !list_lookup_imap.
    destruct (cols !! k) as [c|]; [|reflexivity]. cbn. f_equal.
    unfold with_links. f_equal. f_equal.
    rewrite column_links_snoc. unfold names_column. rewrite He, Hci.
    destruct (Nat.eqb_spec ci k); [congruence|]. cbn [negb andb]. now rewrite app_nil_r.
Qed.

Lemma keep_with_links (t : Table) rows r (cols : list Column) :
  (forall ci, names_column t ci r = false) ->
  imap (with_links t rows) cols = imap (with_links t (rows ++ [r])) cols.
Proof.
  intros Hno. apply imap_ext. intros k c _. unfold with_links. f_equal. f_equal.
  rewrite column_links_snoc, Hno. now rewrite app_nil_r.
Qed.

Lemma find_column_imap (f : nat -> Column -> Column) (n : string) (cols : list Column)
    (i : nat) :
  (forall k (col : Column), col_Name (f k col) = col_Name col) ->
  find_column n (imap f cols) i = find_column n cols i.
Proof.
  intros Hf. revert f Hf i.
  induction cols as [|col cols IH]; intros f Hf i; [reflexivity|].
  cbn [imap find_column]. rewrite Hf.
  destruct (String.eqb (col_Name col) n); [reflexivity|].
  apply IH. intros k col'. apply Hf.
Qed.

(** The columns after the rows [rows]. *)
Lemma linked_step (t : Table) rows (st st' : Table * gmap string nat) r :
  assembled t rows st ->
  tbl_Columns st.1 = imap (with_links t rows) (tbl_Columns t) ->
  addIndexes_row st (Row r) = Ok st' ->
  tbl_Columns st'.1 = imap (with_links t (rows ++ [r])) (tbl_Columns t).
Proof.
  intros Hst Hcols Hstep.
  pose proof (loop_pointer t rows st r Hst) as Hptr.
  destruct st as [t' names]. cbn [fst snd] in *.
  rewrite (addIndexes_row_columns _ _ _ _ Hstep), Hptr, Hcols.
  assert (Hfind : Table_Column t' (ns_String (ir_column r))
                  = Table_Column t (ns_String (ir_column r))).
  { unfold Table_Column. rewrite Hcols. now apply find_column_imap. }
  rewrite <- Hcols, Hfind, Hcols.
  destruct (ValidString (ir_expr r)) eqn:He.
  - apply keep_with_links. intros ci. unfold names_column. now rewrite He.
  - destruct (Table_Column t (ns_String (ir_column r))) as [ci|] eqn:Hci.
    + now apply alter_with_links.
    + apply keep_with_links. intros ci. unfold names_column. rewrite Hci.
      now rewrite andb_false_r.
Qed.

Lemma linked_run (t : Table) rows :
  Forall (resolves t) rows ->
  exists st, for_each addIndexes_row (map Row rows) (t, ∅) = Ok st
             /\ assembled t rows st
             /\ tbl_Columns st.1 = imap (with_links t rows) (tbl_Columns t).
Proof.
  induction rows as [|r rows IH] using rev_ind; intros Hres.
  - exists (t, ∅). split; [reflexivity|]. split; [apply assembled_init|].
    cbn [fst]. apply list_eq. intros k. rewrite list_lookup_imap.
    destruct (tbl_Columns t !! k) as [col|]; [|reflexivity]. cbn. f_equal.
    unfold with_links, column_links. cbn. rewrite app_nil_r. now destruct col.
  - apply Forall_app in Hres as [Hrows Hr]. apply Forall_inv in Hr.
    destruct (IH Hrows) as (st & Hrun & Hst & Hcols).
    destruct (assembled_step t rows st r Hst Hr) as (st' & Hstep & Hst').
    exists st'. split; [|split; [exact Hst'|]].
    + rewrite map_app, LoopFacts.for_each_app, Hrun. cbn [mbind result_bind].
      cbn [map for_each]. rewrite Hstep. reflexivity.
    + exact (linked_step t rows st st' r Hst Hcols Hstep).
Qed.

(** X27: The columns learn their indexes. When every row decodes and resolves
    in the table, the table that [addIndexes] returns has the columns it
    was given, each one with a pointer more, after the ones it had, for
    every row that names the column and carries no expression, in the
    order of the rows; a column that two rows of an index name is given
    the index twice. The pointer of a row is the pointer of the index of
    its name in the store of the table. *)
Theorem addIndexes_links_columns (t : Table) (R : Rows index_row) rows :
  rows_items R = map Row rows ->
  Forall (resolves t) rows ->
  exists t',
    addIndexes t R = Ok t'
    /\ tbl_Columns t' = imap (with_links t rows) (tbl_Columns t)
    /\ (forall r, In r rows ->
          exists ix, tbl_store t' !! index_pointer t rows r = Some ix
                     /\ idx_Name ix = ir_name r)
    /\ (forall ci k, In k (column_links t rows ci) ->
          exists r, In r rows
                    /\ k = index_pointer t rows r
                    /\ ValidString (ir_expr r) = false
                    /\ Table_Column t (ns_String (ir_column r)) = Some ci).
Proof.
  intros HR Hres.
  destruct (linked_run t rows Hres) as ([t' names] & Hrun & Hst & Hcols).
  destruct Hst as (Hstore & _). cbn [fst snd] in *.
  exists t'. unfold addIndexes. rewrite HR, Hrun. cbn [mbind result_bind].
  split; [reflexivity|]. split; [exact Hcols|]. split.
  - intros r Hr. unfold index_pointer.
    destruct (name_index_lookup _ _ (creates_covers rows r Hr)) as (c & Hc & Hn).
    exists (index_of t rows c). split; [|now rewrite <- Hn].
    rewrite Hstore, lookup_app_r by lia.
    replace (length (tbl_store t) + name_index (ir_name r) (creates rows)
             - length (tbl_store t))%nat
      with (name_index (ir_name r) (creates rows)) by lia.
    now rewrite list_lookup_fmap, Hc.
  - intros ci k Hk. unfold column_links in Hk.
    apply in_map_iff in Hk as (r & <- & Hr).
    apply List.filter_In in Hr as [Hr Hnames]. exists r.
    split; [exact Hr|]. split; [reflexivity|].
    unfold names_column in Hnames. apply andb_true_iff in Hnames as [He Hc].
    split; [now apply negb_true_iff in He|].
    destruct (Table_Column t (ns_String (ir_column r))) as [k|]; [|discriminate].
    now apply Nat.eqb_eq in Hc as ->.
Qed.

End LinkFacts.

Section LinkExample.

Import SqlxModel.

Lemma addIndexes_links_columns_witness :
  exists t',
    addIndexes two_columns (rows_of idx_a_rows) = Ok t'
    /\ tbl_Columns t' = imap (with_links two_columns idx_a_rows) (tbl_Columns two_columns).
Proof.
  destruct (addIndexes_links_columns two_columns (rows_of idx_a_rows) idx_a_rows
              eq_refl idx_a_rows_resolve) as (t' & Hrun & Hcols & _).
  exists t'. split; [exact Hrun | exact Hcols].
Defined.

(** The two rows of [idx_a]: each column points to the index. *)
Example addIndexes_idx_a_links :
  exists t',
    addIndexes two_columns (rows_of idx_a_rows) = Ok t'
    /\ map col_Indexes (tbl_Columns t') = [[0%nat]; [0%nat]].
Proof. eexists. split; reflexivity. Qed.

End LinkExample.

(** ** Schema documents (convert.go): [Realm], [UnmarshalSpec], [MarshalSpec] *)

Section ConvertFacts.

Context `{Specutil}.

(** The loop of [Realm] over the table specs, for the schema [n]. *)
Lemma tables_of_loop (n : string) (tables acc : list TableSpec) :
  Forall schema_named tables ->
  for_each
    (fun schemaTables tableSpec =>
       name ← wrap_err
         (fun e => Errorf "specutil: cannot extract schema name for table %q: %w"
                     [ArgString (ts_Name tableSpec); ArgError e])
         (SchemaName tableSpec);
       if String.eqb name n
       then Ok (schemaTables ++ [tableSpec])
       else Ok schemaTables)
    tables acc
  = Ok (acc ++ tables_of n tables).
Proof.
  intros Hall. revert acc. induction Hall as [|ts tables [name Hts] _ IH]; intros acc.
  - cbn. now rewrite app_nil_r.
  - cbn [for_each]. rewrite Hts. cbn [wrap_err mbind result_bind].
    unfold tables_of. cbn [List.filter]. unfold names_schema at 1. rewrite Hts.
    destruct (String.eqb name n); cbn [mbind result_bind].
    + rewrite IH. unfold tables_of. now rewrite <- app_assoc.
    + apply IH.
Qed.

Lemma tables_of_loop_fails (n : string) (pre : list TableSpec) (ts : TableSpec)
    (post acc : list TableSpec) (e : error) :
  Forall schema_named pre ->
  SchemaName ts = Err e ->
  for_each
    (fun schemaTables tableSpec =>
       name ← wrap_err
         (fun e => Errorf "specutil: cannot extract schema name for table %q: %w"
                     [ArgString (ts_Name tableSpec); ArgError e])
         (SchemaName tableSpec);
       if String.eqb name n
       then Ok (schemaTables ++ [tableSpec])
       else Ok schemaTables)
    (pre ++ ts :: post) acc
  = Err (Errorf "specutil: cannot extract schema name for table %q: %w"
           [ArgString (ts_Name ts); ArgError e]).
Proof.
  intros Hpre Hts. rewrite LoopFacts.for_each_app, (tables_of_loop n pre acc Hpre).
  cbn [mbind result_bind for_each]. now rewrite Hts.
Qed.

(** The loop of [Realm] over the schema specs. *)
Lemma realm_loop (tables : list TableSpec) (schemas : list SchemaSpec)
    (done done' : list Schema_) :
  Forall schema_named tables ->
  for_each
    (fun done schemaSpec =>
       schemaTables ← for_each
         (fun schemaTables tableSpec =>
            name ← wrap_err
              (fun e => Errorf "specutil: cannot extract schema name for table %q: %w"
                          [ArgString (ts_Name tableSpec); ArgError e])
              (SchemaName tableSpec);
            if String.eqb name (ss_Name schemaSpec)
            then Ok (schemaTables ++ [tableSpec])
            else Ok schemaTables)
         tables [];
       sch ← Schema schemaSpec schemaTables;
       Ok (done ++ [sch]))
    schemas done = Ok done' <->
  exists ss,
    Forall2 (fun s sch => Schema s (tables_of (ss_Name s) tables) = Ok sch) schemas ss
    /\ done' = done ++ ss.
Proof.
  intros Hall. revert done. induction schemas as [|s schemas IH]; intros done.
  - cbn [for_each]. split.
    + intros [= <-]. exists []. split; [constructor | now rewrite app_nil_r].
    + intros (ss & Hss & ->). apply Forall2_nil_inv_l in Hss as ->.
      now rewrite app_nil_r.
  - cbn [for_each]. rewrite (tables_of_loop (ss_Name s) tables [] Hall).
    cbn [app mbind result_bind].
    destruct (Schema s (tables_of (ss_Name s) tables)) as [sch| |] eqn:Es;
      cbn [mbind result_bind].
    + rewrite IH. split.
      * intros (ss & Hss & ->). exists (sch :: ss). split; [now constructor|].
        now rewrite <- app_assoc.
      * intros (ss & Hss & ->).
        apply Forall2_cons_inv_l in Hss as (sch' & ss' & Hs' & Hss' & ->).
        rewrite Es in Hs'. injection Hs' as <-.
        exists ss'. split; [exact Hss' | now rewrite <- app_assoc].
    + split; [discriminate|]. intros (ss & Hss & _).
      apply Forall2_cons_inv_l in Hss as (sch' & ss' & Hs' & _). congruence.
    + split; [discriminate|]. intros (ss & Hss & _).
      apply Forall2_cons_inv_l in Hss as (sch' & ss' & Hs' & _). congruence.
Qed.

(** X28: [Realm] gives each schema spec the table specs that reference its
    name. When the schema reference of every table spec resolves, [Realm]
    returns a realm exactly when [Schema] converts every schema spec with
    the table specs of its name, taken in their order; the realm holds the
    schemas in the order of the schema specs and has no attribute. So a
    table spec that references the name of no schema spec is in no schema,
    and no error tells it. When there is a schema spec, the first table
    spec whose reference does not resolve gives the error that quotes its
    name; with no schema spec the table specs are not read and the realm is
    empty. *)
Theorem Realm_groups_tables (schemas : list SchemaSpec) (tables : list TableSpec) :
  (Forall schema_named tables ->
   forall r,
     Realm schemas tables = Ok r <->
     exists ss,
       Forall2 (fun s sch => Schema s (tables_of (ss_Name s) tables) = Ok sch) schemas ss
       /\ r = Build_Realm_ ss [])
  /\ (forall pre ts post e,
        schemas <> [] ->
        tables = pre ++ ts :: post ->
        Forall schema_named pre ->
        SchemaName ts = Err e ->
        Realm schemas tables =
        Err (Errorf "specutil: cannot extract schema name for table %q: %w"
               [ArgString (ts_Name ts); ArgError e]))
  /\ (schemas = [] -> Realm schemas tables = Ok (Build_Realm_ [] [])).
Proof.
  split; [|split].
  - intros Hall r. unfold Realm.
    destruct (for_each _ schemas []) as [done| |] eqn:El; cbn [mbind result_bind].
    + apply (realm_loop tables schemas [] done Hall) in El as (ss & Hss & ->).
      cbn [app]. split.
      * intros [= <-]. eauto.
      * intros (ss' & Hss' & ->). do 2 f_equal.
        clear - Hss Hss'. revert ss' Hss'.
        induction Hss as [|s sch schemas ss Hs Hss IH]; intros ss' Hss'.
        -- now apply Forall2_nil_inv_l in Hss'.
        -- apply Forall2_cons_inv_l in Hss' as (sch' & ss'' & Hs' & Hss'' & ->).
           rewrite Hs in Hs'. injection Hs' as <-. f_equal. now apply IH.
    + split; [discriminate|]. intros (ss & Hss & _).
      assert (for_each
                (fun done schemaSpec =>
                   schemaTables ← for_each
                     (fun schemaTables tableSpec =>
                        name ← wrap_err
                          (fun e =>
                             Errorf "specutil: cannot extract schema name for table %q: %w"
                               [ArgString (ts_Name tableSpec); ArgError e])
                          (SchemaName tableSpec);
                        if String.eqb name (ss_Name schemaSpec)
                        then Ok (schemaTables ++ [tableSpec])
                        else Ok schemaTables)
                     tables [];
                   sch ← Schema schemaSpec schemaTables;
                   Ok (done ++ [sch]))
                schemas [] = Ok ([] ++ ss))
        by (apply realm_loop; eauto).
      congruence.
    + split; [discriminate|]. intros (ss & Hss & _).
      assert (for_each
                (fun done schemaSpec =>
                   schemaTables ← for_each
                     (fun schemaTables tableSpec =>
                        name ← wrap_err
                          (fun e =>
                             Errorf "specutil: cannot extract schema name for table %q: %w"
                               [ArgString (ts_Name tableSpec); ArgError e])
                          (SchemaName tableSpec);
                        if String.eqb name (ss_Name schemaSpec)
                        then Ok (schemaTables ++ [tableSpec])
                        else Ok schemaTables)
                     tables [];
                   sch ← Schema schemaSpec schemaTables;
                   Ok (done ++ [sch]))
                schemas [] = Ok ([] ++ ss))
        by (apply realm_loop; eauto).
      congruence.
  - intros pre ts post e Hne -> Hpre Hts. unfold Realm.
    destruct schemas as [|s schemas]; [contradiction|].
    cbn [for_each]. rewrite (tables_of_loop_fails (ss_Name s) pre ts post [] e Hpre Hts).
    reflexivity.
  - intros ->. reflexivity.
Qed.

(** The loop of [MarshalSpec] over the schemas of a realm. *)
Lemma marshal_loop (schemas : list Schema_) (ds : list doc) (d : doc) :
  Forall2 (fun s d => schemaSpec s = Ok d) schemas ds ->
  for_each
    (fun d s =>
       doc ← wrap_err
         (fun e => Errorf "specutil: failed converting schema to spec: %w" [ArgError e])
         (schemaSpec s);
       Ok (Build_doc (doc_Tables d ++ doc_Tables doc) (doc_Schemas d ++ doc_Schemas doc)))
    schemas d
  = Ok (Build_doc (doc_Tables d ++ concat (map doc_Tables ds))
          (doc_Schemas d ++ concat (map doc_Schemas ds))).
Proof.
  intros Hds. revert d. induction Hds as [|s d' schemas ds Hs _ IH]; intros d.
  - cbn. rewrite !app_nil_r. now destruct d.
  - cbn [for_each]. rewrite Hs. cbn [wrap_err mbind result_bind].
    rewrite IH. cbn [map concat doc_Tables doc_Schemas]. now rewrite <- !app_assoc.
Qed.

(** X29: [MarshalSpec] on a realm hands the marshaler one document: the specs
    of the schemas of the realm in their order, and the specs of their
    tables, schema after schema; the attributes of the realm, its collation
    among them, are not in it. A realm of one schema is marshaled as that
    schema alone is. When a schema cannot be converted the error is
    returned wrapped and the marshaler is not called; a value that is
    neither a schema nor a realm is an error that names its type. *)
Theorem MarshalSpec_realm (marshaler : doc -> result string) :
  (forall r ds,
     Forall2 (fun s d => schemaSpec s = Ok d) (realm_Schemas r) ds ->
     MarshalSpec (RealmValue r) marshaler =
     marshaler (Build_doc (concat (map doc_Tables ds)) (concat (map doc_Schemas ds))))
  /\ (forall s attrs,
        MarshalSpec (RealmValue (Build_Realm_ [s] attrs)) marshaler =
        MarshalSpec (SchemaValue s) marshaler)
  /\ (forall r pre s post ds e,
        realm_Schemas r = pre ++ s :: post ->
        Forall2 (fun s d => schemaSpec s = Ok d) pre ds ->
        schemaSpec s = Err e ->
        MarshalSpec (RealmValue r) marshaler =
        Err (Errorf "specutil: failed converting schema to spec: %w" [ArgError e]))
  /\ (forall T,
        MarshalSpec (OtherValue T) marshaler =
        Err (Errorf "specutil: failed marshaling spec. %T is not supported" [ArgString T])).
Proof.
  split; [|split; [|split]].
  - intros r ds Hds. unfold MarshalSpec.
    now rewrite (marshal_loop _ ds (Build_doc [] []) Hds).
  - intros s attrs. unfold MarshalSpec. cbn [realm_Schemas for_each].
    destruct (schemaSpec s) as [[tbls ss]| |]; reflexivity.
  - intros r pre s post ds e Hr Hpre Hs. unfold MarshalSpec. rewrite Hr.
    rewrite LoopFacts.for_each_app, (marshal_loop _ ds (Build_doc [] []) Hpre).
    cbn [mbind result_bind for_each]. rewrite Hs. reflexivity.
  - reflexivity.
Qed.

(** Table specs that all reference the schema [n]. *)
Lemma names_schema_all (n : string) (tables : list TableSpec) :
  forallb (names_schema n) tables = true ->
  Forall schema_named tables /\ tables_of n tables = tables.
Proof.
  unfold tables_of. induction tables as [|ts l IH]; [now split|].
  cbn [forallb List.filter]. intros Hall. apply andb_true_iff in Hall as [Hts Hall].
  rewrite Hts. destruct (IH Hall) as [Hl Hf]. split; [|now rewrite Hf].
  constructor; [|exact Hl].
  unfold names_schema in Hts. unfold schema_named.
  destruct (SchemaName ts); [eauto | discriminate | discriminate].
Qed.

(** For a document of one schema whose table specs all reference it, the
    two targets of [UnmarshalSpec] agree. *)
Lemma UnmarshalSpec_agree (data : string) (unmarshaler : string -> result doc)
    (d : doc) (old : Schema_) (old' : Realm_) (s : SchemaSpec) (sch : Schema_) :
  unmarshaler data = Ok d ->
  doc_Schemas d = [s] ->
  forallb (names_schema (ss_Name s)) (doc_Tables d) = true ->
  UnmarshalSpec data unmarshaler (SchemaValue old) = Ok (SchemaValue sch) <->
  UnmarshalSpec data unmarshaler (RealmValue old') = Ok (RealmValue (Build_Realm_ [sch] [])).
Proof.
  intros Hd Hs Hall. unfold UnmarshalSpec. rewrite Hd. cbn [mbind result_bind].
  rewrite Hs. cbn [length Nat.eqb negb index_at lookup list_lookup mbind result_bind].
  destruct (names_schema_all _ _ Hall) as [Hnamed Hof].
  unfold Realm. cbn [for_each].
  rewrite (tables_of_loop (ss_Name s) (doc_Tables d) [] Hnamed), Hof.
  cbn [app mbind result_bind].
  destruct (Schema s (doc_Tables d)) as [sch'| |]; cbn [wrap_err mbind result_bind];
    split; try discriminate; now intros [= ->].
Qed.

(** X30: [UnmarshalSpec]. The error of the unmarshaler is returned as it is, and
    a target that is neither a schema nor a realm is an error that names
    its type. Into a schema, the document must hold exactly one schema,
    else the error tells how many it holds; [Schema] is then given that
    schema with all the table specs of the document, whatever schema they
    reference. Into a realm, [Realm] is given the schemas and the tables of
    the document. So for a document of one schema whose table specs all
    reference it, the realm unmarshaled holds exactly the schema that is
    unmarshaled into a schema. *)
Theorem UnmarshalSpec_targets (data : string) (unmarshaler : string -> result doc) :
  (forall e v, unmarshaler data = Err e -> UnmarshalSpec data unmarshaler v = Err e)
  /\ (forall d T,
        unmarshaler data = Ok d ->
        UnmarshalSpec data unmarshaler (OtherValue T) =
        Err (Errorf "specutil: failed unmarshaling spec. %T is not supported" [ArgString T]))
  /\ (forall d old,
        unmarshaler data = Ok d ->
        length (doc_Schemas d) <> 1%nat ->
        UnmarshalSpec data unmarshaler (SchemaValue old) =
        Err (Errorf "specutil: expecting document to contain a single schema, got %d"
               [ArgInt (Z.of_nat (length (doc_Schemas d)))]))
  /\ (forall d old s,
        unmarshaler data = Ok d ->
        doc_Schemas d = [s] ->
        UnmarshalSpec data unmarshaler (SchemaValue old) =
        (conv ← wrap_err
                  (fun e => Errorf "specutil: failed converting to *schema.Schema: %w"
                              [ArgError e])
                  (Schema s (doc_Tables d));
         Ok (SchemaValue conv)))
  /\ (forall d old,
        unmarshaler data = Ok d ->
        UnmarshalSpec data unmarshaler (RealmValue old) =
        (realm ← wrap_err
                   (fun e => Errorf "specutil: failed converting to *schema.Realm: %w"
                               [ArgError e])
                   (Realm (doc_Schemas d) (doc_Tables d));
         Ok (RealmValue realm)))
  /\ (forall d old old' s sch,
        unmarshaler data = Ok d ->
        doc_Schemas d = [s] ->
        forallb (names_schema (ss_Name s)) (doc_Tables d) = true ->
        UnmarshalSpec data unmarshaler (SchemaValue old) = Ok (SchemaValue sch) <->
        UnmarshalSpec data unmarshaler (RealmValue old')
        = Ok (RealmValue (Build_Realm_ [sch] []))).
Proof.
  split; [|split; [|split; [|split; [|split]]]].
  - intros e v He. unfold UnmarshalSpec. now rewrite He.
  - intros d T Hd. unfold UnmarshalSpec. now rewrite Hd.
  - intros d old Hd Hn. unfold UnmarshalSpec. rewrite Hd. cbn [mbind result_bind].
    destruct (Nat.eqb_spec (length (doc_Schemas d)) 1); [contradiction | reflexivity].
  - intros d old s Hd Hs. unfold UnmarshalSpec. rewrite Hd. cbn [mbind result_bind].
    now rewrite Hs.
  - intros d old Hd. unfold UnmarshalSpec. now rewrite Hd.
  - intros d old old' s sch. apply UnmarshalSpec_agree.
Qed.

End ConvertFacts.

Section ConvertExamples.

Import SpecutilModel.

Lemma lost_table_named :
  Forall schema_named (doc_Tables two_schemas).
Proof.
  unfold two_schemas. cbn [doc_Tables].
  repeat match goal with
         | |- Forall _ (_ :: _) => constructor
         | |- Forall _ [] => constructor
         end; eexists; reflexivity.
Qed.

(** The document [two_schemas]: each schema gets its tables, in order, and
    the table [LOST] is in neither. *)
Lemma Realm_groups_tables_witness :
  Realm (doc_Schemas two_schemas) (doc_Tables two_schemas) =
  Ok (Build_Realm_
        [Build_Schema_ "HR"
           [Build_Table "EMP" (Top "HR") [] [] [] None [] [];
            Build_Table "DEPT" (Top "HR") [] [] [] None [] []]
           None;
         Build_Schema_ "SALES" [Build_Table "ORDERS" (Top "SALES") [] [] [] None [] []] None]
        []).
Proof.
  apply (proj1 (Realm_groups_tables (doc_Schemas two_schemas) (doc_Tables two_schemas))
           lost_table_named).
  eexists. split; [|reflexivity].
  constructor; [reflexivity|]. constructor; [reflexivity|]. constructor.
Defined.

Lemma hr_sales_specs :
  Forall2 (fun s d => schemaSpec s = Ok d) (realm_Schemas hr_sales)
    [Build_doc [("EMP", "HR")] ["HR"]; Build_doc [("ORDERS", "SALES")] ["SALES"]].
Proof. constructor; [reflexivity|]. constructor; [reflexivity|]. constructor. Qed.

Lemma MarshalSpec_realm_witness :
  MarshalSpec (RealmValue hr_sales) print_names
  = print_names (Build_doc [("EMP", "HR"); ("ORDERS", "SALES")] ["HR"; "SALES"]).
Proof.
  exact (proj1 (MarshalSpec_realm print_names) hr_sales
           [Build_doc [("EMP", "HR")] ["HR"]; Build_doc [("ORDERS", "SALES")] ["SALES"]]
           hr_sales_specs).
Defined.

Lemma two_is_not_one : length (doc_Schemas two_schemas) <> 1%nat.
Proof. discriminate. Qed.

Lemma UnmarshalSpec_targets_witness :
  UnmarshalSpec "" (fun _ => Ok two_schemas) (SchemaValue (Build_Schema_ "" [] None)) =
  Err (Errorf "specutil: expecting document to contain a single schema, got %d" [ArgInt 2]).
Proof.
  exact (proj1 (proj2 (proj2 (UnmarshalSpec_targets "" (fun _ => Ok two_schemas))))
           two_schemas (Build_Schema_ "" [] None) eq_refl two_is_not_one).
Defined.

End ConvertExamples.
